(** * rag-juridique: the retrieval pipeline

    A shallow embedding of the pipeline's core, module by module:
    - [extract_pdf.py]: [clean_text] and [chunk_text];
    - [embeddings.py]: [create_embeddings_batch], [create_faiss_index],
      [save_index], [load_index], [index_exists];
    - [retrieval.py]: [create_query_embedding], [search],
      [generate_answer], [ask].

    Python values are embedded as follows.  An [int] is a [Z].  A [str] is
    the list of its code points.  A [dict] with string keys is a
    [gmap string value].  A raised exception is the [Raise] branch of
    [result], carrying the exception's class.  Code that creates or mutates
    objects that other code can reach runs in a state monad over an explicit
    object store.  What numpy and the index library compute on floats is
    an interface, [Float32], of which nothing is assumed. *)

From Stdlib Require Import ZArith List String Ascii Lia Bool DecimalString.
From stdpp Require Import base option list gmap strings sorting.

Open Scope Z_scope.

(** ** Python prelude *)

(** Exception classes.  The first group is what the interpreter and the
    libraries raise on the paths modelled here.  The second group is the
    taxonomy of the specification; no statement of the source constructs
    any of them. *)
Inductive exn : Type :=
  | ValueError
  | ZeroDivisionError
  | IndexError
  | KeyError
  | TypeError
  | AssertionError
  | RuntimeError
  | FileNotFoundError
  | UnpicklingError
  | EOFError
  | ExtractionError
  | InvalidConfigError
  | EmbeddingServiceError
  | IndexNotFoundError
  | IndexCorruptError
  | GenerationError.

#[global] Instance exn_eq_dec : EqDecision exn.
Proof. solve_decision. Defined.

Inductive result (A : Type) : Type :=
  | Return (a : A)
  | Raise (e : exn).
Arguments Return {A} a.
Arguments Raise {A} e.

#[global] Instance result_ret : MRet result := @Return.
#[global] Instance result_bind : MBind result :=
  fun A B f m => match m with Return a => f a | Raise e => Raise e end.
#[global] Instance result_fmap : FMap result :=
  fun A B f m => match m with Return a => Return (f a) | Raise e => Raise e end.

(** [len(l)] *)
Definition len {A} (l : list A) : Z := Z.of_nat (length l).

(** [a // b] on ints *)
Definition floordiv (a b : Z) : result Z :=
  if b =? 0 then Raise ZeroDivisionError else Return (a / b).

(** [range(start, stop, step)], with the length CPython computes for it. *)
Definition range_length (start stop step : Z) : Z :=
  if 0 <? step then
    if start <? stop then (stop - start - 1) / step + 1 else 0
  else
    if stop <? start then (start - stop - 1) / (- step) + 1 else 0.

Definition py_range (start stop step : Z) : result (list Z) :=
  if step =? 0 then Raise ValueError
  else Return (map (fun j : nat => start + Z.of_nat j * step)
                   (seq 0 (Z.to_nat (range_length start stop step)))).

(** [l[lo:hi]]: negative bounds count from the end, and both bounds are
    clamped to the list. *)
Definition adjust_index (n i : Z) : Z :=
  if i <? 0 then Z.max 0 (i + n) else Z.min i n.

Definition py_slice {A} (l : list A) (lo hi : Z) : list A :=
  let a := adjust_index (len l) lo in
  let b := adjust_index (len l) hi in
  take (Z.to_nat (b - a)) (drop (Z.to_nat a) l).

(** [l[i]] *)
Definition py_getitem {A} (l : list A) (i : Z) : result A :=
  let j := if i <? 0 then i + len l else i in
  if j <? 0 then Raise IndexError
  else match l !! Z.to_nat j with
       | Some a => Return a
       | None => Raise IndexError
       end.

(** ** Strings *)

Definition char : Type := N.
Definition str : Type := list char.

(** A literal of the source, as a [str]. *)
Definition lit (s : string) : str :=
  map N_of_ascii (list_ascii_of_string s).

Definition SPACE : char := 32%N.
Definition NEWLINE : char := 10%N.

(** [str.isspace] on one code point.  [str.split()], [str.strip()] and the
    class [\s] of [re] on a [str] pattern all use this predicate. *)
Definition isspace (c : char) : bool :=
  ((9 <=? c) && (c <=? 13) || (28 <=? c) && (c <=? 32)
   || (c =? 133) || (c =? 160) || (c =? 5760)
   || (8192 <=? c) && (c <=? 8202)
   || (c =? 8232) || (c =? 8233) || (c =? 8239) || (c =? 8287)
   || (c =? 12288))%N.

(** [text.split()]: the maximal runs of non-whitespace, in order.
    [cur] holds the word being read, last character first. *)
Fixpoint split_from (cur : str) (s : str) : list str :=
  match s with
  | [] => match cur with [] => [] | _ => [rev cur] end
  | c :: s' =>
      if isspace c then
        match cur with
        | [] => split_from [] s'
        | _ => rev cur :: split_from [] s'
        end
      else split_from (c :: cur) s'
  end.

Definition split (s : str) : list str := split_from [] s.

(** [sep.join(words)] *)
Fixpoint join (sep : str) (words : list str) : str :=
  match words with
  | [] => []
  | [w] => w
  | w :: ws => w ++ sep ++ join sep ws
  end.

(** [text.strip()] *)
Fixpoint lstrip (s : str) : str :=
  match s with
  | [] => []
  | c :: s' => if isspace c then lstrip s' else s
  end.

Fixpoint rstrip (s : str) : str :=
  match s with
  | [] => []
  | c :: s' =>
      match rstrip s' with
      | [] => if isspace c then [] else [c]
      | r => c :: r
      end
  end.

Definition strip (s : str) : str := rstrip (lstrip s).

(** ** extract_pdf.py *)

Module PDFExtractor.

(** [re.sub(r'\s+', ' ', text)]: every maximal run of whitespace becomes
    one space.  [in_run] tells that the previous character was whitespace,
    so that the current match is already replaced. *)
Fixpoint sub_spaces (in_run : bool) (s : str) : str :=
  match s with
  | [] => []
  | c :: s' =>
      if isspace c then
        if in_run then sub_spaces true s' else SPACE :: sub_spaces true s'
      else c :: sub_spaces false s'
  end.

(** [re.sub(r'\n\n+', '\n\n', text)]: every maximal run of two or more
    newlines becomes two newlines; a single newline does not match.
    [seen] counts the newlines of the current run that were kept. *)
Fixpoint sub_newlines (seen : nat) (s : str) : str :=
  match s with
  | [] => []
  | c :: s' =>
      if (c =? NEWLINE)%N then
        if (seen <? 2)%nat then NEWLINE :: sub_newlines (S seen) s'
        else sub_newlines seen s'
      else c :: sub_newlines 0 s'
  end.

Definition clean_text (text : str) : str :=
  let text := sub_spaces false text in
  let text := strip text in
  let text := sub_newlines 0 text in
  text.

End PDFExtractor.

(** ** Values and chunk records *)

(** Numbers of the embedding space: the floats of Python and the
    [float32] of numpy and of the index library.  Each is carried by an
    integer, in the order of the numbers; the numbers of the samples are
    carried by their values.  Nothing here computes with them except by
    comparing two distances; the float operations of the libraries are the
    interface [Float32] below. *)
Definition scalar : Type := Z.

Inductive value : Type :=
  | VStr (s : str)
  | VInt (z : Z)
  | VFloat (x : scalar).

#[global] Instance value_eq_dec : EqDecision value.
Proof. solve_decision. Defined.

Abbreviation dict := (gmap string value).

(** [d[key]] *)
Definition dict_getitem (d : dict) (key : string) : result value :=
  match d !! key with
  | Some v => Return v
  | None => Raise KeyError
  end.

Definition get_int (d : dict) (key : string) : option Z :=
  match d !! key with Some (VInt z) => Some z | _ => None end.

Definition get_str (d : dict) (key : string) : option str :=
  match d !! key with Some (VStr s) => Some s | _ => None end.

Definition get_float (d : dict) (key : string) : option scalar :=
  match d !! key with Some (VFloat x) => Some x | _ => None end.

(** [len(c['text'])] *)
Definition text_len (c : dict) : result Z :=
  v ← dict_getitem c "text";
  match v with
  | VStr s => Return (len s)
  | _ => Raise TypeError
  end.

Module Chunker.

(** The dict literal of [chunk_text]. *)
Definition new_chunk (chunk_text : str) (chunk_id start_word end_word : Z) : dict :=
  list_to_map [ ("text"%string, VStr chunk_text);
                ("chunk_id"%string, VInt chunk_id);
                ("start_word"%string, VInt start_word);
                ("end_word"%string, VInt end_word) ].

(** One turn of the loop of [chunk_text], at offset [i]. *)
Definition chunk_step (words : list str) (chunk_size : Z)
    (chunks : list dict) (i : Z) : list dict :=
  let chunk_words := py_slice words i (i + chunk_size) in
  let chunk_text := join [SPACE] chunk_words in
  chunks ++ [ new_chunk chunk_text (len chunks) i
                        (Z.min (i + chunk_size) (len words)) ].

(** The [for] loop of [chunk_text]: it fails when [range] does, before the
    first turn. *)
Definition chunk_loop (words : list str) (chunk_size overlap : Z)
    : result (list dict) :=
  offsets ← py_range 0 (len words) (chunk_size - overlap);
  Return (fold_left (chunk_step words chunk_size) offsets []).

(** The two [print] calls after the loop; what they write is not kept, but
    their arguments are evaluated. *)
Fixpoint sum_text_len (chunks : list dict) : result Z :=
  match chunks with
  | [] => Return 0
  | c :: cs => n ← text_len c; m ← sum_text_len cs; Return (n + m)
  end.

Definition report (chunks : list dict) : result unit :=
  total ← sum_text_len chunks;
  _ ← floordiv total (len chunks);
  Return tt.

Definition chunk_text (text : str) (chunk_size overlap : Z) : result (list dict) :=
  let words := split text in
  chunks ← chunk_loop words chunk_size overlap;
  _ ← report chunks;
  Return chunks.

End Chunker.


(** ** The index library *)

Abbreviation vec := (list scalar).

(** The float operations of the libraries, as the machine at hand computes
    them:
    - [float32 x] is [numpy.float32(x)], the rounding that
      [astype('float32')] applies to each number;
    - [fvec_L2sqr x y] is the squared Euclidean distance of two [float32]
      vectors as the index library's build computes it, in [float32] and in
      the order of additions of that build; a result that is not a number
      below [FLT_MAX] (an overflow, a NaN) is carried by any integer that is
      not below [FLT_MAX];
    - [float_repr x] is [repr(x)] of a Python float, which [str] and an
      f-string use. *)
Class Float32 : Type := {
  float32 : scalar -> scalar;
  fvec_L2sqr : vec -> vec -> scalar;
  float_repr : scalar -> str
}.

(** A numpy array of one axis, or of two axes: [Array2 width rows] has the
    shape [(len rows, width)], and each of its rows has [width] items.  An
    array without rows still has its width. *)
Inductive ndarray : Type :=
  | Array1 (items : vec)
  | Array2 (width : Z) (rows : list vec).

#[global] Instance ndarray_eq_dec : EqDecision ndarray.
Proof. solve_decision. Defined.


(** The rows of an array of two axes. *)
Definition rows_of (a : ndarray) : list vec :=
  match a with
  | Array1 _ => []
  | Array2 _ rows => rows
  end.

(** [np.array(rows)] on a list of lists of numbers: the empty list gives an
    array of one axis, lists of one length give an array of two axes, and
    lists of different lengths are refused. *)
Definition np_array (rows : list vec) : result ndarray :=
  match rows with
  | [] => Return (Array1 [])
  | row :: _ =>
      if forallb (fun r => len r =? len row) rows
      then Return (Array2 (len row) rows)
      else Raise ValueError
  end.

(** [a.astype('float32')] *)
Definition astype_float32 {F : Float32} (a : ndarray) : ndarray :=
  match a with
  | Array1 items => Array1 (map float32 items)
  | Array2 width rows => Array2 width (map (map float32) rows)
  end.

(** [a.shape[1]] *)
Definition shape1 (a : ndarray) : result Z :=
  match a with
  | Array1 _ => Raise IndexError
  | Array2 width _ => Return width
  end.

Module faiss.

(** [IndexFlatL2]: the dimension and the stored vectors, in the order they
    were added.  Row [i] is the [i]-th vector added. *)
Record IndexFlatL2 : Type := mkIndex { d : Z; xb : list vec }.

#[global] Instance IndexFlatL2_eq_dec : EqDecision IndexFlatL2.
Proof. solve_decision. Defined.

Definition ntotal (index : IndexFlatL2) : Z := len (xb index).

(** The largest finite [float32], which fills the slots of a result that no
    stored vector takes. *)
Definition FLT_MAX : scalar := 340282346638528859811704183484516925440.

(** A candidate of a search: the row and its distance to the query. *)
Definition hit : Type := (Z * scalar)%type.

(** Keeps the candidates in ascending distance; a candidate goes behind
    the ones that are as close as it is, so rows at equal distance stay in
    row order. *)
Fixpoint insert_hit (h : hit) (l : list hit) : list hit :=
  match l with
  | [] => [h]
  | h' :: t => if h.2 <? h'.2 then h :: l else h' :: insert_hit h t
  end.

(** [faiss.IndexFlatL2(dimension)] *)
Definition new_index (dimension : Z) : IndexFlatL2 := mkIndex dimension [].

(** [index.add(x)]: the wrapper unpacks [n, d = x.shape], which needs two
    axes, and asserts that [d] is the dimension of the index. *)
Definition add (index : IndexFlatL2) (x : ndarray) : result IndexFlatL2 :=
  match x with
  | Array1 _ => Raise ValueError
  | Array2 width rows =>
      if width =? d index
      then Return (mkIndex (d index) (xb index ++ rows))
      else Raise AssertionError
  end.

Section Kernel.
Context {F : Float32}.

(** The exhaustive scan: every stored vector is compared with the query.
    The slots of a result start at distance [FLT_MAX], and a row takes a
    slot only with a distance below the one it replaces: a row whose
    distance is not below [FLT_MAX] takes none. *)
Definition scan (rows : list vec) (x : vec) : list hit :=
  fold_left (fun best h => insert_hit h best)
            (filter (fun h : hit => h.2 < FLT_MAX)
                    (imap (fun i y => (Z.of_nat i, fvec_L2sqr x y)) rows)) [].

(** The [k] slots of one query: the nearest rows first, then label [-1]
    with distance [FLT_MAX] in every slot left over. *)
Definition knn (rows : list vec) (x : vec) (k : nat) : list hit :=
  let best := take k (scan rows x) in
  best ++ replicate (k - length best) (-1, FLT_MAX).

(** [index.search(x, k)], giving [(distances, labels)], one row per query.
    The wrapper unpacks [n, d = x.shape], then asserts the dimension of the
    queries and [k > 0]. *)
Definition search (index : IndexFlatL2) (x : ndarray) (k : Z)
    : result (list (list scalar) * list (list Z)) :=
  match x with
  | Array1 _ => Raise ValueError
  | Array2 width queries =>
      if negb (width =? d index) then Raise AssertionError
      else if negb (0 <? k) then Raise AssertionError
      else
        let found := map (fun q => knn (xb index) q (Z.to_nat k)) queries in
        Return (map (map snd) found, map (map fst) found)
  end.

End Kernel.

End faiss.

(** ** The world the pipeline runs in *)

Abbreviation loc := nat.

(** Objects that are shared by reference. *)
Inductive object : Type :=
  | ODict (items : dict)
  | OList (items : list loc)
  | OIndex (index : faiss.IndexFlatL2)
  | ORetriever (index chunks : loc).

(** What a file holds. *)
Inductive blob : Type :=
  | Empty
  | FaissBlob (index : faiss.IndexFlatL2)
  | PickleBlob (chunks : list dict).

(** - [objs]: the object store; an object's address is its position, and a
      new object goes to the end;
    - [files]: persistent storage, the regular files by path;
    - [dirs]: the directories that exist, by path, beside the working
      directory and the root, which always do.  A file is created only in a
      directory that exists;
    - [sent]: the inputs of the requests made to the embedding service so
      far, oldest first.

    A path is a key as it is spelled: two spellings of one file are two
    keys.  Statements about two paths take them in normal form (see
    [normal]) and in one directory, where different spellings are different
    files.  A directory at the place of a file to open, and a file at the
    place of a directory to make, are not modelled. *)
Record world : Type := mkWorld {
  objs : list object;
  files : gmap string blob;
  dirs : gset string;
  sent : list (list str)
}.

Definition set_objs (f : list object -> list object) (w : world) : world :=
  mkWorld (f (objs w)) (files w) (dirs w) (sent w).
Definition set_files (f : gmap string blob -> gmap string blob) (w : world) : world :=
  mkWorld (objs w) (f (files w)) (dirs w) (sent w).
Definition set_dirs (f : gset string -> gset string) (w : world) : world :=
  mkWorld (objs w) (files w) (f (dirs w)) (sent w).
Definition set_sent (f : list (list str) -> list (list str)) (w : world) : world :=
  mkWorld (objs w) (files w) (dirs w) (f (sent w)).

(** Computations that can raise and can change the world.  A raised
    exception keeps the changes made before it. *)
Definition M (A : Type) : Type := world -> result A * world.

#[global] Instance M_ret : MRet M := fun A a w => (Return a, w).
#[global] Instance M_bind : MBind M := fun A B f m w =>
  match m w with
  | (Return a, w') => f a w'
  | (Raise e, w') => (Raise e, w')
  end.

Definition lift {A} (r : result A) : M A := fun w => (r, w).
Definition throw {A} (e : exn) : M A := fun w => (Raise e, w).

(** A [for] loop that threads an accumulator. *)
Fixpoint foldM {A B} (f : B -> A -> M B) (acc : B) (l : list A) : M B :=
  match l with
  | [] => mret acc
  | a :: l' => acc' ← f acc a; foldM f acc' l'
  end.

(** [enumerate(l, start)] *)
Definition enumerate {A} (start : Z) (l : list A) : list (Z * A) :=
  imap (fun i a => (start + Z.of_nat i, a)) l.

(** *** Object store

    Reading through a reference gives the object it holds.  The operations
    below expect one kind of object and answer [TypeError] for another
    kind; a reference outside the store does not occur in a state that the
    pipeline builds, and is answered the same way. *)

Definition alloc (o : object) : M loc :=
  fun w => (Return (length (objs w)), set_objs (fun h => h ++ [o]) w).

Definition read_dict (l : loc) : M dict :=
  fun w => match objs w !! l with
           | Some (ODict items) => (Return items, w)
           | _ => (Raise TypeError, w)
           end.

Definition read_list (l : loc) : M (list loc) :=
  fun w => match objs w !! l with
           | Some (OList items) => (Return items, w)
           | _ => (Raise TypeError, w)
           end.

Definition read_index_object (l : loc) : M faiss.IndexFlatL2 :=
  fun w => match objs w !! l with
           | Some (OIndex index) => (Return index, w)
           | _ => (Raise TypeError, w)
           end.

(** [self.index] and [self.chunks] *)
Definition self_index (self : loc) : M loc :=
  fun w => match objs w !! self with
           | Some (ORetriever index _) => (Return index, w)
           | _ => (Raise TypeError, w)
           end.

Definition self_chunks (self : loc) : M loc :=
  fun w => match objs w !! self with
           | Some (ORetriever _ chunks) => (Return chunks, w)
           | _ => (Raise TypeError, w)
           end.

(** [d.copy()]: a new dict with the same items. *)
Definition dict_copy (l : loc) : M loc :=
  items ← read_dict l; alloc (ODict items).

(** [d[key] = v], in place. *)
Definition dict_setitem (l : loc) (key : string) (v : value) : M unit :=
  fun w => match objs w !! l with
           | Some (ODict items) =>
               (Return tt, set_objs (fun h => <[l := ODict (<[key := v]> items)]> h) w)
           | _ => (Raise TypeError, w)
           end.

(** [d[key]] through a reference *)
Definition dict_lookup (l : loc) (key : string) : M value :=
  items ← read_dict l; lift (dict_getitem items key).

(** *** Files *)

(** [os.path.dirname] *)
Definition is_slash (c : ascii) : bool := Ascii.eqb c "/".

Fixpoint upto_last_slash (s : list ascii) : list ascii :=
  match s with
  | [] => []
  | c :: s' =>
      match upto_last_slash s' with
      | [] => if is_slash c then [c] else []
      | r => c :: r
      end
  end.

Fixpoint rstrip_slashes (s : list ascii) : list ascii :=
  match s with
  | [] => []
  | c :: s' =>
      match rstrip_slashes s' with
      | [] => if is_slash c then [] else [c]
      | r => c :: r
      end
  end.

Definition dirname (p : string) : string :=
  let head := upto_last_slash (list_ascii_of_string p) in
  if forallb is_slash head then string_of_list_ascii head
  else string_of_list_ascii (rstrip_slashes head).

(** A path in normal form: not empty, and between its slashes names that
    are neither empty nor [.] nor [..]; one leading slash is allowed. *)
Fixpoint names_of (cur : list ascii) (s : list ascii) : list (list ascii) :=
  match s with
  | [] => [rev cur]
  | c :: s' => if is_slash c then rev cur :: names_of [] s' else names_of (c :: cur) s'
  end.

Definition plain_name (n : list ascii) : bool :=
  match n with
  | [] => false
  | [c] => negb (Ascii.eqb c ".")
  | [c1; c2] => negb (Ascii.eqb c1 "." && Ascii.eqb c2 ".")
  | _ => true
  end.

Definition normal (p : string) : bool :=
  match names_of [] (list_ascii_of_string p) with
  | [] :: (n :: ns) => forallb plain_name (n :: ns)
  | ns => forallb plain_name ns
  end.

(** The directories on the way to [name], and [name] itself. *)
Fixpoint ancestors (fuel : nat) (name : string) : list string :=
  match fuel with
  | O => []
  | S fuel' =>
      if String.eqb name "" then []
      else if String.eqb (dirname name) name then [name]
      else ancestors fuel' (dirname name) ++ [name]
  end.

(** The directories after [name] has been made one, with the directories
    on the way to it. *)
Definition made (name : string) (ds : gset string) : gset string :=
  ds ∪ list_to_set (ancestors (String.length name) name).

(** [os.makedirs(name, exist_ok=True)]: the empty name is refused. *)
Definition makedirs (name : string) : M unit :=
  if String.eqb name "" then throw FileNotFoundError
  else fun w => (Return tt, set_dirs (made name) w).

(** The directory [name] exists: it is the working directory (the empty
    name), the root, or a directory of the world. *)
Definition dir_exists (w : world) (name : string) : bool :=
  forallb is_slash (list_ascii_of_string name) || bool_decide (name ∈ dirs w).

(** A file can be created or truncated at [path]: the path is not empty and
    its directory exists. *)
Definition writable (w : world) (path : string) : bool :=
  negb (String.eqb path "") && dir_exists w (dirname path).

(** [os.path.exists] *)
Definition exists_ (path : string) : M bool :=
  fun w => (Return (bool_decide (is_Some (files w !! path))), w).

(** [os.path.getsize]; the size is only printed. *)
Definition getsize (path : string) : M unit :=
  fun w => match files w !! path with
           | Some _ => (Return tt, w)
           | None => (Raise FileNotFoundError, w)
           end.

(** Opening [path] for writing and putting [b] there; [missing] is what
    the opener raises when the file cannot be created. *)
Definition write_file (missing : exn) (path : string) (b : blob) : M unit :=
  fun w => if writable w path
           then (Return tt, set_files (fun fs => <[path := b]> fs) w)
           else (Raise missing, w).

(** Writing [b] through a file that is open for writing. *)
Definition file_write (path : string) (b : blob) : M unit :=
  fun w => (Return tt, set_files (fun fs => <[path := b]> fs) w).

(** [faiss.write_index] and [faiss.read_index]; both raise [RuntimeError]
    when the file cannot be opened, and the reader when it is not an
    index. *)
Definition write_index (index : loc) (path : string) : M unit :=
  i ← read_index_object index; write_file RuntimeError path (FaissBlob i).

Definition read_index (path : string) : M loc :=
  fun w => match files w !! path with
           | Some (FaissBlob i) => alloc (OIndex i) w
           | _ => (Raise RuntimeError, w)
           end.

(** [open(path, 'wb')] creates or truncates the file, in a directory that
    exists; [open(path, 'rb')] needs the file. *)
Definition open_wb (path : string) : M unit := write_file FileNotFoundError path Empty.

Definition open_rb (path : string) : M blob :=
  fun w => match files w !! path with
           | Some b => (Return b, w)
           | None => (Raise FileNotFoundError, w)
           end.

(** [pickle.dump(chunks, f)] for a list of dicts of atomic values, which
    is what a chunk list is, into the file [f] that [open] has returned;
    and [pickle.load(f)], which builds new objects: one dict per record and
    the list of them. *)
Definition pickle_dump (chunks : loc) (path : string) : M unit :=
  cs ← read_list chunks;
  ds ← foldM (fun acc c => items ← read_dict c; mret (acc ++ [items])) [] cs;
  file_write path (PickleBlob ds).

Definition pickle_load (b : blob) : M loc :=
  match b with
  | PickleBlob ds =>
      cs ← foldM (fun acc items => c ← alloc (ODict items); mret (acc ++ [c])) [] ds;
      alloc (OList cs)
  | Empty => throw EOFError
  | FaissBlob _ => throw UnpicklingError
  end.

(** *** Remote services *)

Record completion : Type := mkCompletion {
  content : str;
  prompt_tokens : Z;
  completion_tokens : Z;
  total_tokens : Z
}.

(** The client of the remote services, each a function of its request:
    - [embed model input] answers [client.embeddings.create] with the
      embeddings of [response.data], in order;
    - [complete model system user max_tokens] answers
      [client.chat.completions.create]; the temperature is the constant
      of the call. *)
Record OpenAI : Type := mkClient {
  embed : str -> list str -> result (list vec);
  complete : str -> str -> str -> Z -> result completion
}.

Definition embeddings_create (client : OpenAI) (model : str) (input : list str)
    : M (list vec) :=
  fun w => (embed client model input, set_sent (fun log => log ++ [input]) w).

Definition chat_completions_create (client : OpenAI) (model system user : str)
    (max_tokens : Z) : M completion :=
  lift (complete client model system user max_tokens).

(** [str(v)], as an f-string formats a value. *)
Definition decimal (z : Z) : str :=
  lit (DecimalString.NilZero.string_of_int (Z.to_int z)).

Definition py_str {F : Float32} (v : value) : str :=
  match v with
  | VStr s => s
  | VInt z => decimal z
  | VFloat x => float_repr x
  end.

(** ** embeddings.py *)

Module EmbeddingManager.

Record manager : Type := mkManager { model : str }.

Section WithClient.
Variable client : OpenAI.
Context {F : Float32}.

(** [__init__]: the key is the argument or the environment's. *)
Definition init (api_key : str) (model : str) : M manager :=
  match api_key with
  | [] => throw ValueError
  | _ => mret (mkManager model)
  end.

Definition create_embedding (self : manager) (text : str) : M vec :=
  data ← embeddings_create client (model self) [text];
  lift (py_getitem data 0).

(** One turn of the loop of [create_embeddings_batch], at offset [i]. *)
Definition batch_step (self : manager) (texts : list str) (batch_size total : Z)
    (embeddings : list vec) (i : Z) : M (list vec) :=
  let batch := py_slice texts i (i + batch_size) in
  batch_embeddings ← embeddings_create client (model self) batch;
  let embeddings := embeddings ++ batch_embeddings in
  let progress := Z.min (i + batch_size) total in
  _ ← lift (floordiv (100 * progress) total);
  mret embeddings.

Definition create_embeddings_batch (self : manager) (texts : list str)
    (batch_size : Z) : M ndarray :=
  let total := len texts in
  offsets ← lift (py_range 0 total batch_size);
  embeddings ← foldM (batch_step self texts batch_size total) [] offsets;
  embeddings_array ← lift (np_array embeddings);
  mret (astype_float32 embeddings_array).

Definition create_faiss_index (self : manager) (embeddings : ndarray) : M loc :=
  dimension ← lift (shape1 embeddings);
  let index := faiss.new_index dimension in
  index ← lift (faiss.add index embeddings);
  alloc (OIndex index).

Definition save_index (self : manager) (index chunks : loc)
    (index_path chunks_path : string) : M unit :=
  _ ← makedirs (dirname index_path);
  _ ← write_index index index_path;
  _ ← open_wb chunks_path;
  _ ← pickle_dump chunks chunks_path;
  _ ← getsize index_path;
  _ ← getsize chunks_path;
  mret tt.

Definition load_index (self : manager) (index_path chunks_path : string)
    : M (loc * loc) :=
  index ← read_index index_path;
  _ ← read_index_object index;
  f ← open_rb chunks_path;
  chunks ← pickle_load f;
  _ ← read_list chunks;
  mret (index, chunks).

Definition index_exists (self : manager) (index_path chunks_path : string)
    : M bool :=
  exists_ index_path ≫= fun a : bool =>
  if a then exists_ chunks_path else mret false.

End WithClient.

Definition default_index_path : string := "index/legal.faiss".
Definition default_chunks_path : string := "index/chunks.pkl".

End EmbeddingManager.

(** ** retrieval.py *)

Module RAGRetriever.

Record answer : Type := mkAnswer {
  query : str;
  answer_text : str;
  sources : list value;
  num_chunks_used : Z;
  model : str;
  tokens_used : Z * Z * Z
}.

Definition default_embedding_model : str := lit "text-embedding-3-small".
Definition default_model : str := lit "gpt-4o-mini".

Definition nl : str := [NEWLINE].
Definition quote : str := [34%N].
Definition e_acute : str := [233%N].

Definition system_prompt : str :=
  lit "Tu es un assistant juridique expert." ++ nl
  ++ lit "R" ++ e_acute ++ lit "ponds UNIQUEMENT en te basant sur les extraits de documents fournis." ++ nl
  ++ lit "Si la r" ++ e_acute ++ lit "ponse n'est pas dans les extraits, dis clairement "
  ++ quote ++ lit "Je ne trouve pas cette information dans les documents fournis." ++ quote ++ nl
  ++ lit "Cite toujours la source (ex: [Source: GDPR.pdf])." ++ nl
  ++ lit "Sois pr" ++ e_acute ++ lit "cis et professionnel.".

Definition user_prompt (context query : str) : str :=
  lit "Contexte (extraits de documents juridiques) :" ++ nl ++ nl
  ++ context ++ nl ++ nl
  ++ lit "Question : " ++ query ++ nl ++ nl
  ++ lit "R" ++ e_acute ++ lit "ponds de mani" ++ [232%N] ++ lit "re claire et cite tes sources.".

Section WithClient.
Variable client : OpenAI.
Context {F : Float32}.

(** [__init__]: the key is the argument or the environment's; the two
    [print] calls read the sizes of the list and of the index. *)
Definition init (index chunks : loc) (api_key : str) : M loc :=
  match api_key with
  | [] => throw ValueError
  | _ =>
      _ ← read_list chunks;
      _ ← read_index_object index;
      alloc (ORetriever index chunks)
  end.

Definition create_query_embedding (self : loc) (query : str) (model : str)
    : M ndarray :=
  data ← embeddings_create client model [query];
  embedding ← lift (py_getitem data 0);
  mret (astype_float32 (Array2 (len embedding) [embedding])).

(** One turn of the loop of [search]: the [i]-th pair of the results. *)
Definition search_step (self : loc) (results : list loc)
    (item : Z * (Z * scalar)) : M (list loc) :=
  let '(i, (idx, distance)) := item in
  chunks ← self_chunks self;
  chunks ← read_list chunks;
  stored ← lift (py_getitem chunks idx);
  chunk ← dict_copy stored;
  _ ← dict_setitem chunk "distance" (VFloat distance);
  _ ← dict_setitem chunk "rank" (VInt (i + 1));
  let results := results ++ [chunk] in
  _ ← dict_lookup chunk "source";
  _ ← dict_lookup chunk "chunk_id";
  mret results.

Definition search (self : loc) (query : str) (k : Z) : M (list loc) :=
  query_embedding ← create_query_embedding self query default_embedding_model;
  index ← self_index self;
  index ← read_index_object index;
  '(distances, indices) ← lift (faiss.search index query_embedding k);
  indices0 ← lift (py_getitem indices 0);
  distances0 ← lift (py_getitem distances 0);
  foldM (search_step self) [] (enumerate 0 (zip indices0 distances0)).

(** One turn of the loop that builds the context. *)
Definition context_step (context : str) (item : Z * loc) : M str :=
  let '(i, chunk) := item in
  source ← dict_lookup chunk "source";
  let context := context ++ lit "[Extrait " ++ decimal i ++ lit " - Source: "
                         ++ py_str source ++ lit "]" ++ nl in
  text ← dict_lookup chunk "text";
  match text with
  | VStr s => mret (context ++ s ++ nl ++ nl)
  | _ => throw TypeError
  end.

Definition generate_answer (self : loc) (query : str) (context_chunks : list loc)
    (model : str) (max_tokens : Z) : M answer :=
  context ← foldM context_step [] (enumerate 1 context_chunks);
  completion ← chat_completions_create client model system_prompt
                 (user_prompt context query) max_tokens;
  srcs ← foldM (fun acc chunk => s ← dict_lookup chunk "source"; mret (acc ++ [s]))
               [] context_chunks;
  mret (mkAnswer query (content completion) srcs (len context_chunks) model
                 (prompt_tokens completion, completion_tokens completion,
                  total_tokens completion)).

Definition ask (self : loc) (query : str) (k : Z) (model : str) : M answer :=
  relevant_chunks ← search self query k;
  generate_answer self query relevant_chunks model 500.

End WithClient.

End RAGRetriever.

(** ** Observations used in the statements *)

Definition start_word (c : dict) : option Z := get_int c "start_word".
Definition end_word (c : dict) : option Z := get_int c "end_word".
Definition chunk_id (c : dict) : option Z := get_int c "chunk_id".

(** The chunk that the turn of [chunk_text] at offset [i] appends when [n]
    chunks exist. *)
Definition chunk_at (words : list str) (chunk_size : Z) (n : nat) (i : Z) : dict :=
  Chunker.new_chunk (join [SPACE] (py_slice words i (i + chunk_size))) (Z.of_nat n) i
                    (Z.min (i + chunk_size) (len words)).

(** A text in which every whitespace character is a single space that
    follows a non-whitespace character ([prev] tells whether the character
    before the text is whitespace). *)
Fixpoint single_spaced (prev : bool) (s : str) : bool :=
  match s with
  | [] => true
  | c :: s' =>
      if isspace c then (c =? SPACE)%N && negb prev && single_spaced true s'
      else single_spaced false s'
  end.

(** *** Shapes of the object store *)

(** [il] holds the index [index]. *)
Definition index_at (w : world) (il : loc) (index : faiss.IndexFlatL2) : Prop :=
  objs w !! il = Some (OIndex index).

(** [cl] holds a list of dicts whose items are, in order, [C]. *)
Definition chunks_at (w : world) (cl : loc) (C : list dict) : Prop :=
  exists cs, objs w !! cl = Some (OList cs)
             /\ Forall2 (fun c items => objs w !! c = Some (ODict items)) cs C.

(** [self] holds a retriever over the index [index] and the chunks [C]. *)
Definition retriever_at (w : world) (self : loc)
    (index : faiss.IndexFlatL2) (C : list dict) : Prop :=
  exists il cl, objs w !! self = Some (ORetriever il cl)
                /\ index_at w il index /\ chunks_at w cl C.

(** A chunk record as the build phase leaves it: [process_all_pdfs] has
    added the source to what [chunk_text] made. *)
Definition is_chunk (c : dict) : Prop :=
  is_Some (c !! "source"%string) /\ is_Some (c !! "chunk_id"%string).

(** *** What a search returns, as values *)

Fixpoint mapR {A B} (f : A -> result B) (l : list A) : result (list B) :=
  match l with
  | [] => Return []
  | a :: l' => b ← f a; bs ← mapR f l'; Return (b :: bs)
  end.

(** The stored record with the two fields that [search] adds to its copy. *)
Definition scored (stored : dict) (distance : scalar) (rank : Z) : dict :=
  <["rank"%string := VInt rank]> (<["distance"%string := VFloat distance]> stored).

(** The record that one turn of the loop of [search] appends, from the
    stored records [C]. *)
Definition result_chunk (C : list dict) (item : Z * (Z * scalar)) : result dict :=
  let '(i, (idx, distance)) := item in
  stored ← py_getitem C idx;
  let chunk := scored stored distance (i + 1) in
  _ ← dict_getitem chunk "source";
  _ ← dict_getitem chunk "chunk_id";
  Return chunk.

(** The records that [search] returns, from the index and the stored
    records as values. *)
Definition search_results {F : Float32} (client : OpenAI) (index : faiss.IndexFlatL2)
    (C : list dict) (query : str) (k : Z) : result (list dict) :=
  data ← embed client RAGRetriever.default_embedding_model [query];
  embedding ← py_getitem data 0;
  '(distances, indices) ← faiss.search index
                            (Array2 (len embedding) [map float32 embedding]) k;
  indices0 ← py_getitem indices 0;
  distances0 ← py_getitem distances 0;
  mapR (result_chunk C) (enumerate 0 (zip indices0 distances0)).

(** The outcome of a call that returns references, read in the world the
    call leaves. *)
Definition observe (run : result (list loc) * world) : result (list (option object)) :=
  match run with
  | (Return ls, w) => Return (map (fun l => objs w !! l) ls)
  | (Raise e, _) => Raise e
  end.

(** *** Query-time calls *)

Inductive call : Type :=
  | Search (query : str) (k : Z)
  | Ask (query : str) (k : Z) (model : str).

(** The world after a call on the retriever [self]; the caller keeps
    serving whether the call returned or raised. *)
Definition run_call {F : Float32} (client : OpenAI) (self : loc) (c : call) (w : world)
    : world :=
  match c with
  | Search query k => (RAGRetriever.search client self query k w).2
  | Ask query k model => (RAGRetriever.ask client self query k model w).2
  end.

Definition run_calls {F : Float32} (client : OpenAI) (self : loc) (calls : list call)
    (w : world) : world :=
  fold_left (fun w c => run_call client self c w) calls w.

(** *** Sample data *)

Module Sample.

(** Float arithmetic on the numbers of the samples: integers that
    [float32] holds exactly, with squared distances that [float32] holds
    exactly or that overflow it, and short enough for [repr] to print all
    their digits. *)
Definition exact : Float32 := {|
  float32 x := x;
  fvec_L2sqr x y := fold_right Z.add 0 (zip_with (fun a b => (a - b) * (a - b)) x y);
  float_repr x := decimal x ++ lit ".0"
|}.

(** A service that embeds a text by its length. *)
Definition service (input : list str) : list vec :=
  map (fun t => [len t; 0]) input.

Definition client : OpenAI :=
  mkClient (fun _ input => Return (service input))
           (fun _ _ _ _ => Return (mkCompletion (lit "ok") 10 5 15)).

Definition manager : EmbeddingManager.manager :=
  EmbeddingManager.mkManager (lit "text-embedding-3-small").

Definition chunk (n : Z) (source : string) : dict :=
  <["source"%string := VStr (lit source)]> (Chunker.new_chunk (lit "texte") n 0 1).

Definition index : faiss.IndexFlatL2 := faiss.mkIndex 2 [[1; 0]; [5; 0]].

Definition C : list dict := [chunk 0 "a.pdf"; chunk 1 "b.pdf"].

(** Two chunks, their list, the index over two vectors and a retriever. *)
Definition built : world :=
  mkWorld [ODict (chunk 0 "a.pdf"); ODict (chunk 1 "b.pdf");
           OList [0%nat; 1%nat]; OIndex index; ORetriever 3%nat 2%nat]
          ∅ ∅ [].

Definition self : loc := 4%nat.

(** Storage whose two artifacts disagree: two vectors, one chunk. *)
Definition mismatched : world :=
  mkWorld []
          (<["index/chunks.pkl"%string := PickleBlob [chunk 0 "a.pdf"]]>
             (<["index/legal.faiss"%string := FaissBlob index]> ∅))
          {["index"%string]} [].

End Sample.

(** *** Order of the hits *)

Definition by_distance (a b : faiss.hit) : Prop := a.2 <= b.2.

(** The stored record that [chunks[row]] reads. *)
Definition stored_at (C : list dict) (row : Z) : dict :=
  match py_getitem C row with
  | Return stored => stored
  | Raise _ => ∅
  end.

(** A computation that leaves the world as it finds it. *)
Definition read_only {A} (m : M A) : Prop := forall w, (m w).2 = w.


(** ** The rest of extract_pdf.py *)

(** A word of a text: at least one character, none of them whitespace. *)
Definition is_word (w : str) : Prop :=
  w <> [] /\ Forall (fun c => isspace c = false) w.

Module Extraction.

(** What the extractor reads, as the operating system and the PDF library
    answer it:
    - [listdir path] is [None] when [os.path.exists path] is false, and
      otherwise what [os.listdir path] gives, the entries in its order or
      its exception;
    - [open_pdf path] is what [fitz.open path] gives: the text of
      [page.get_text("text")] for each page in order, or its exception;
    - [read_text path] is what reading the file as UTF-8 gives. *)
Record library : Type := mkLibrary {
  listdir : string -> option (result (list string));
  open_pdf : string -> result (list str);
  read_text : string -> result str
}.

(** [name.endswith(suffix)] *)
Definition endswith (name suffix : string) : bool :=
  bool_decide (list_ascii_of_string suffix `suffix_of` list_ascii_of_string name).

(** [os.path.join(a, p)] *)
Definition starts_with_slash (p : string) : bool :=
  match list_ascii_of_string p with
  | c :: _ => is_slash c
  | [] => false
  end.

Definition path_join (a p : string) : string :=
  if starts_with_slash p then p
  else match last (list_ascii_of_string a) with
       | None => p
       | Some e => if is_slash e then (a ++ p)%string else (a ++ "/" ++ p)%string
       end.

Section WithLibrary.
Variable lib : library.

Definition extract_text_from_pdf (pdf_path : string) : result str :=
  pages ← open_pdf lib pdf_path;
  Return (fold_left (fun text page_text => text ++ page_text) pages []).

Definition extract_text_from_txt (txt_path : string) : result str :=
  read_text lib txt_path.

(** [chunk["source"] = file], on a chunk that [chunk_text] has just made. *)
Definition set_source (file : string) (chunk : dict) : dict :=
  <["source"%string := VStr (lit file)]> chunk.

(** One turn of either loop of [process_all_pdfs]. *)
Definition process_file (extract : string -> result str) (pdf_directory : string)
    (chunk_size overlap : Z) (all_chunks : list dict) (file : string)
    : result (list dict) :=
  raw_text ← extract (path_join pdf_directory file);
  let clean_text := PDFExtractor.clean_text raw_text in
  chunks ← Chunker.chunk_text clean_text chunk_size overlap;
  Return (all_chunks ++ map (set_source file) chunks).

(** A [for] loop that threads an accumulator and stops at an exception. *)
Fixpoint foldR {A B} (f : B -> A -> result B) (acc : B) (l : list A) : result B :=
  match l with
  | [] => Return acc
  | a :: l' => acc' ← f acc a; foldR f acc' l'
  end.

Definition process_all_pdfs (pdf_directory : string) (chunk_size overlap : Z)
    : result (list dict) :=
  match listdir lib pdf_directory with
  | None => Return []
  | Some listing =>
      names ← listing;
      let pdf_files := filter (fun f => endswith f ".pdf" = true) names in
      let txt_files := filter (fun f => endswith f ".txt" = true) names in
      match pdf_files ++ txt_files with
      | [] => Return []
      | _ =>
          all_chunks ← foldR (process_file extract_text_from_pdf pdf_directory
                                chunk_size overlap) [] pdf_files;
          foldR (process_file extract_text_from_txt pdf_directory
                   chunk_size overlap) all_chunks txt_files
      end
  end.

End WithLibrary.

Definition default_directory : string := "data/pdfs".

End Extraction.

(** The chunks that one turn of a loop of [process_all_pdfs] adds for the
    document [file]: those that [chunk_text] makes of the cleaned text, in
    their order, each with its source. *)
Definition file_chunks (extract : string -> result str) (pdf_directory : string)
    (chunk_size overlap : Z) (file : string) : result (list dict) :=
  raw_text ← extract (Extraction.path_join pdf_directory file);
  chunks ← Chunker.chunk_text (PDFExtractor.clean_text raw_text) chunk_size overlap;
  Return (map (Extraction.set_source file) chunks).

(** A document whose extraction gives a text with at least one word. *)
Definition has_words (extract : string -> result str) (path : string) : bool :=
  match extract path with
  | Return text => match split text with [] => false | _ => true end
  | Raise _ => false
  end.

(** A document whose extraction gives a text. *)
Definition extracts (extract : string -> result str) (path : string) : bool :=
  match extract path with Return _ => true | Raise _ => false end.

(** Sample documents: a directory with a text file, a PDF of two pages and
    a file that is neither; and the same with a PDF without text. *)
Module Shelf.

Definition lib : Extraction.library :=
  Extraction.mkLibrary
    (fun path => if String.eqb path "data/pdfs"
                 then Some (Return ["b.txt"; "a.pdf"; "notes.md"]%string)
                 else None)
    (fun path => if String.eqb path "data/pdfs/a.pdf"
                 then Return [lit "Article 1 "; lit "du code"]
                 else Raise FileNotFoundError)
    (fun path => if String.eqb path "data/pdfs/b.txt"
                 then Return (lit "texte  brut")
                 else Raise FileNotFoundError).

Definition scanned : Extraction.library :=
  Extraction.mkLibrary
    (fun path => if String.eqb path "data/pdfs"
                 then Some (Return ["b.txt"; "scan.pdf"]%string)
                 else None)
    (fun path => if String.eqb path "data/pdfs/scan.pdf"
                 then Return [[]; lit "  "]
                 else Raise FileNotFoundError)
    (fun path => if String.eqb path "data/pdfs/b.txt"
                 then Return (lit "texte  brut")
                 else Raise FileNotFoundError).

End Shelf.

(** ** The prompt of [generate_answer], on records *)

Definition source_of (c : dict) : value := default (VStr []) (c !! "source"%string).

Definition text_of (c : dict) : str := default [] (get_str c "text").

(** The header of extract number [i] and the extract itself. *)
Definition extract_header {F : Float32} (i : Z) (c : dict) : str :=
  lit "[Extrait " ++ decimal i ++ lit " - Source: " ++ py_str (source_of c)
      ++ lit "]" ++ RAGRetriever.nl.

Definition extract_block {F : Float32} (i : Z) (c : dict) : str :=
  extract_header i c ++ text_of c ++ RAGRetriever.nl ++ RAGRetriever.nl.

(** The context for records numbered from [start]. *)
Definition context_from {F : Float32} (start : Z) (records : list dict) : str :=
  concat (imap (fun i c => extract_block (start + Z.of_nat i) c) records).

Definition context_of {F : Float32} (records : list dict) : str :=
  context_from 1 records.

(** A record that [generate_answer] can quote. *)
Definition quotable (c : dict) : Prop :=
  is_Some (c !! "source"%string) /\ is_Some (get_str c "text").

(** ** The script of embeddings.py *)

Module Build.

(** How the script ends: [exit(code)], or the end of the file. *)
Inductive outcome : Type :=
  | Exited (code : Z)
  | Finished.

(** The list of dicts that [process_all_pdfs] has built, as objects. *)
Definition new_list (records : list dict) : M loc :=
  cs ← foldM (fun acc items => c ← alloc (ODict items); mret (acc ++ [c])) [] records;
  alloc (OList cs).

(** [[chunk["text"] for chunk in chunks]]; the embedding request takes
    strings, and another value is answered with [TypeError]. *)
Definition chunk_texts (chunks : loc) : M (list str) :=
  cs ← read_list chunks;
  foldM (fun acc c =>
           v ← dict_lookup c "text";
           match v with
           | VStr s => mret (acc ++ [s])
           | _ => throw TypeError
           end) [] cs.

Section WithServices.
Variable client : OpenAI.
Variable lib : Extraction.library.
Context {F : Float32}.

(** [api_key] is the key of the environment, empty when there is none. *)
Definition main (api_key : str) : M outcome :=
  records ← lift (Extraction.process_all_pdfs lib Extraction.default_directory 1000 200);
  chunks ← new_list records;
  match records with
  | [] => mret (Exited 1)
  | _ =>
      manager ← EmbeddingManager.init api_key RAGRetriever.default_embedding_model;
      texts ← chunk_texts chunks;
      embeddings ← EmbeddingManager.create_embeddings_batch client manager texts 100;
      index ← EmbeddingManager.create_faiss_index manager embeddings;
      _ ← EmbeddingManager.save_index manager index chunks
            EmbeddingManager.default_index_path EmbeddingManager.default_chunks_path;
      mret Finished
  end.

End WithServices.

End Build.

(** ** The start of api.py *)

Module Api.

(** The globals of the module. *)
Record app : Type := mkApp {
  retriever : option loc;
  embedding_manager : option EmbeddingManager.manager;
  startup_error : option str
}.

Definition blank : app := mkApp None None None.

Definition index_missing : str :=
  lit "Index FAISS non trouv" ++ RAGRetriever.e_acute
  ++ lit ". Lance 'python src/embeddings.py' pour cr" ++ RAGRetriever.e_acute
  ++ lit "er l'index.".

(** The answer of [health_check]: status, message, [index_loaded]. *)
Definition health_check (st : app) : str * str * bool :=
  match startup_error st with
  | Some (c :: message) => (lit "warning", c :: message, false)
  | _ =>
      match retriever st with
      | None => (lit "error", lit "Retriever non initialis" ++ RAGRetriever.e_acute, false)
      | Some _ => (lit "ok", lit "API op" ++ RAGRetriever.e_acute ++ lit "rationnelle", true)
      end
  end.

Section Startup.
(** [str(e)], the text of an exception, which the exception classes of this
    development do not carry. *)
Variable str_of_exn : exn -> str.

Definition startup_failed (e : exn) : str :=
  lit "Erreur au d" ++ RAGRetriever.e_acute ++ lit "marrage : " ++ str_of_exn e.

(** The [except Exception] clause, with the globals as they are when the
    exception arrives. *)
Definition on_exception (st : app) (e : exn) : M app :=
  mret (mkApp (retriever st) (embedding_manager st) (Some (startup_failed e))).

(** A statement of the [try] block, and the rest of the block. *)
Definition guarded {A} (st : app) (m : M A) (rest : A -> M app) : M app :=
  fun w => match m w with
           | (Return a, w') => rest a w'
           | (Raise e, w') => on_exception st e w'
           end.

(** [api_key] is the key of the environment, empty when there is none. *)
Definition startup_event (api_key : str) (st : app) : M app :=
  guarded st (match api_key with
              | [] => throw ValueError
              | _ => EmbeddingManager.init api_key RAGRetriever.default_embedding_model
              end) (fun manager =>
  let st := mkApp (retriever st) (Some manager) (startup_error st) in
  guarded st (EmbeddingManager.index_exists manager
                EmbeddingManager.default_index_path
                EmbeddingManager.default_chunks_path) (fun found : bool =>
  if negb found then
    mret (mkApp (retriever st) (embedding_manager st) (Some index_missing))
  else
  guarded st (EmbeddingManager.load_index manager
                EmbeddingManager.default_index_path
                EmbeddingManager.default_chunks_path) (fun loaded =>
  guarded st (RAGRetriever.init loaded.1 loaded.2 api_key) (fun r =>
  let st := mkApp (Some r) (embedding_manager st) (startup_error st) in
  guarded st (read_list loaded.2) (fun _ => mret st))))).

End Startup.

End Api.

(** * Properties *)

(** ** Python prelude *)

Lemma len_nonneg {A} (l : list A) : 0 <= len l.
Proof. unfold len. lia. Qed.

Lemma len_app {A} (l1 l2 : list A) : len (l1 ++ l2) = len l1 + len l2.
Proof. unfold len. rewrite length_app. lia. Qed.

Lemma range_length_up (stop step : Z) :
  0 < step -> 0 < stop -> range_length 0 stop step = (stop - 1) / step + 1.
Proof.
  intros Hs Hn. unfold range_length.
  destruct (Z.ltb_spec 0 step); [|lia].
  destruct (Z.ltb_spec 0 stop); [|lia].
  f_equal. f_equal. lia.
Qed.

Lemma range_length_empty (stop step : Z) :
  stop <= 0 -> 0 < step -> range_length 0 stop step = 0.
Proof.
  intros Hn Hs. unfold range_length.
  destruct (Z.ltb_spec 0 step); [|lia].
  destruct (Z.ltb_spec 0 stop); [lia|done].
Qed.

Lemma range_length_down (stop step : Z) :
  0 <= stop -> step < 0 -> range_length 0 stop step = 0.
Proof.
  intros Hn Hs. unfold range_length.
  destruct (Z.ltb_spec 0 step); [lia|].
  destruct (Z.ltb_spec stop 0); [lia|done].
Qed.

Lemma range_length_zero (step : Z) : range_length 0 0 step = 0.
Proof. unfold range_length. destruct (0 <? step); done. Qed.

Lemma py_range_up (stop step : Z) :
  0 < step ->
  py_range 0 stop step =
    Return (map (fun j : nat => Z.of_nat j * step)
                (seq 0 (Z.to_nat (range_length 0 stop step)))).
Proof.
  intros Hs. unfold py_range.
  destruct (Z.eqb_spec step 0); [lia|]. done.
Qed.

(** A slice that starts inside the list and has a positive width. *)
Lemma py_slice_window {A} (l : list A) (i w : Z) :
  0 <= i -> 0 <= w ->
  py_slice l i (i + w) = take (Z.to_nat w) (drop (Z.to_nat i) l).
Proof.
  intros Hi Hw. unfold py_slice, adjust_index.
  destruct (Z.ltb_spec i 0); [lia|].
  destruct (Z.ltb_spec (i + w) 0); [lia|].
  pose proof (len_nonneg l) as Hl. unfold len in *.
  destruct (Z_le_gt_dec i (Z.of_nat (length l))) as [Hin|Hout].
  - rewrite (Z.min_l i) by lia.
    destruct (Z_le_gt_dec (i + w) (Z.of_nat (length l))).
    + rewrite Z.min_l by lia. f_equal. lia.
    + rewrite Z.min_r by lia.
      rewrite !take_ge; [done| |]; rewrite length_drop; lia.
  - rewrite !Z.min_r by lia.
    rewrite !drop_ge by lia. by rewrite !take_nil.
Qed.

(** ** Chunker *)

Import Chunker.

Lemma new_chunk_fields (t : str) (n s e : Z) :
  get_str (new_chunk t n s e) "text" = Some t
  /\ chunk_id (new_chunk t n s e) = Some n
  /\ start_word (new_chunk t n s e) = Some s
  /\ end_word (new_chunk t n s e) = Some e.
Proof. repeat split; reflexivity. Qed.

Lemma fold_chunk_step (words : list str) (chunk_size : Z) (offsets : list Z) :
  forall chunks,
    fold_left (chunk_step words chunk_size) offsets chunks
    = chunks ++ imap (fun j i => chunk_at words chunk_size (length chunks + j) i) offsets.
Proof.
  induction offsets as [|i offsets IH]; intros chunks; simpl.
  - by rewrite app_nil_r.
  - rewrite IH. unfold chunk_step. rewrite <- app_assoc. simpl.
    f_equal. f_equal.
    + unfold chunk_at, len. by rewrite Nat.add_0_r.
    + apply imap_ext. intros j x _. simpl. rewrite length_app. simpl.
      f_equal. lia.
Qed.


Lemma chunk_loop_offsets (words : list str) (W V : Z) :
  0 < W - V ->
  chunk_loop words W V =
    Return (imap (chunk_at words W)
                 (map (fun j : nat => Z.of_nat j * (W - V))
                      (seq 0 (Z.to_nat (range_length 0 (len words) (W - V)))))).
Proof.
  intros Hstep. unfold chunk_loop. rewrite py_range_up by done. simpl.
  by rewrite fold_chunk_step.
Qed.

Lemma lookup_chunks (words : list str) (W step : Z) (n j : nat) (c : dict) :
  imap (chunk_at words W) (map (fun j : nat => Z.of_nat j * step) (seq 0 n)) !! j = Some c
  <-> (j < n)%nat /\ c = chunk_at words W j (Z.of_nat j * step).
Proof.
  rewrite list_lookup_imap, list_lookup_fmap.
  destruct (decide (j < n)%nat) as [Hlt|Hge].
  - rewrite lookup_seq_lt by done. simpl. split.
    + intros [= <-]. done.
    + intros [_ ->]. done.
  - rewrite lookup_seq_ge by lia. simpl. split; [done|]. intros [? _]. lia.
Qed.

Lemma sum_text_len_chunks (chunks : list dict) :
  Forall (fun c => is_Some (get_str c "text")) chunks ->
  exists n, sum_text_len chunks = Return n.
Proof.
  induction 1 as [|c cs [s Hs] _ [n IH]]; simpl; [by eexists|].
  unfold text_len, dict_getitem. unfold get_str in Hs.
  destruct (c !! "text"%string) as [[t| |]|]; try done.
  simpl. rewrite IH. simpl. by eexists.
Qed.

Lemma report_nonempty (chunks : list dict) :
  chunks <> [] ->
  Forall (fun c => is_Some (get_str c "text")) chunks ->
  report chunks = Return tt.
Proof.
  intros Hne Hall. unfold report.
  destruct (sum_text_len_chunks chunks Hall) as [n ->]. simpl.
  unfold floordiv. destruct (Z.eqb_spec (len chunks) 0) as [H0|]; [|done].
  destruct chunks; [done|]. unfold len in H0. simpl in H0. lia.
Qed.

Lemma report_empty : report [] = Raise ZeroDivisionError.
Proof. reflexivity. Qed.

(** C2.  On the empty text [chunk_text] raises for every window size and
    overlap: [ValueError] from [range] when the two are equal, and
    otherwise [ZeroDivisionError] from the average that the second [print]
    takes over zero chunks.  It never returns the empty list. *)
Theorem chunk_text_empty_text_raises (chunk_size overlap : Z) :
  chunk_text [] chunk_size overlap
  = Raise (if chunk_size =? overlap then ValueError else ZeroDivisionError).
Proof.
  unfold chunk_text, chunk_loop, py_range. simpl. change (len []) with 0.
  rewrite range_length_zero.
  destruct (Z.eqb_spec (chunk_size - overlap) 0) as [H0|Hne].
  - destruct (Z.eqb_spec chunk_size overlap); [done|lia].
  - destruct (Z.eqb_spec chunk_size overlap); [lia|done].
Qed.

(** The loop itself is not what fails on the empty text. *)
Lemma chunk_loop_empty_text (chunk_size overlap : Z) :
  chunk_size <> overlap -> chunk_loop [] chunk_size overlap = Return [].
Proof.
  intros Hne. unfold chunk_loop, py_range.
  destruct (Z.eqb_spec (chunk_size - overlap) 0); [lia|]. simpl.
  change (len []) with 0. by rewrite range_length_zero.
Qed.

Example chunk_text_empty_default :
  chunk_text (lit "") 1000 200 = Raise ZeroDivisionError.
Proof. reflexivity. Qed.

(** C3, as stated, fails: with the window equal to the overlap the call
    ends in [ValueError], not in [InvalidConfigError]. *)
Lemma chunk_text_equal_window_not_invalid_config :
  chunk_text (lit "a b c") 2 2 = Raise ValueError
  /\ chunk_text (lit "a b c") 2 2 <> Raise InvalidConfigError.
Proof. split; [reflexivity|discriminate]. Qed.

(** C3, amended.  With the window at most the overlap the loop of
    [chunk_text] never runs a turn: when the two are equal the call ends in
    the [ValueError] of [range] before any chunk is built, and when the
    window is smaller the range is empty and the loop emits no chunk. *)
Theorem chunk_text_window_le_overlap (text : str) (chunk_size overlap : Z) :
  chunk_size <= overlap ->
  (chunk_size = overlap -> chunk_text text chunk_size overlap = Raise ValueError)
  /\ (chunk_size < overlap -> chunk_loop (split text) chunk_size overlap = Return []).
Proof.
  intros Hle. split.
  - intros ->. unfold chunk_text, chunk_loop, py_range.
    by rewrite Z.sub_diag.
  - intros Hlt. unfold chunk_loop, py_range.
    destruct (Z.eqb_spec (chunk_size - overlap) 0); [lia|].
    rewrite range_length_down; [done|apply len_nonneg|lia].
Qed.

Lemma chunk_text_window_le_overlap_witness :
  chunk_text (lit "a b c") 2 2 = Raise ValueError
  /\ chunk_loop (split (lit "a b c")) 2 5 = Return [].
Proof.
  split.
  - apply (chunk_text_window_le_overlap (lit "a b c") 2 2); lia.
  - apply (chunk_text_window_le_overlap (lit "a b c") 2 5); lia.
Defined.

Lemma chunk_at_fields (words : list str) (W : Z) (j : nat) (i : Z) :
  chunk_id (chunk_at words W j i) = Some (Z.of_nat j)
  /\ start_word (chunk_at words W j i) = Some i
  /\ end_word (chunk_at words W j i) = Some (Z.min (i + W) (len words))
  /\ get_str (chunk_at words W j i) "text"
     = Some (join [SPACE] (py_slice words i (i + W))).
Proof. repeat split; reflexivity. Qed.

(** How many offsets [range(0, N, step)] has, for a non-empty text. *)
Lemma offsets_count (N step : Z) :
  0 < N -> 0 < step ->
  Z.of_nat (Z.to_nat (range_length 0 N step)) = (N - 1) / step + 1.
Proof.
  intros HN Hs. rewrite range_length_up by done.
  pose proof (Z.div_pos (N - 1) step). lia.
Qed.

(** C5.  For a text with at least one word and a window [W] with overlap
    [V], [0 <= V < W], [chunk_text] returns chunks numbered in order whose
    start offsets are [0], [W - V], [2 (W - V)], ...; chunk [j] spans
    [[start, min (start + W) N)] and holds the words of that span; each
    chunk starts [W - V] words after the one before it and not after that
    one's end; every word offset below [N] lies in some chunk.  For 2500
    words, [W = 1000] and [V = 200], the starts are 0, 800, 1600, 2400 and
    the last chunk spans [[2400, 2500)]. *)
Theorem chunk_text_covers (text : str) (W V : Z) :
  0 <= V < W ->
  split text <> [] ->
  exists chunks,
    chunk_text text W V = Return chunks
    /\ len chunks = (len (split text) - 1) / (W - V) + 1
    /\ (forall (j : nat) c, chunks !! j = Some c ->
          chunk_id c = Some (Z.of_nat j)
          /\ start_word c = Some (Z.of_nat j * (W - V))
          /\ end_word c = Some (Z.min (Z.of_nat j * (W - V) + W) (len (split text)))
          /\ get_str c "text"
             = Some (join [SPACE] (take (Z.to_nat W)
                                        (drop (Z.to_nat (Z.of_nat j * (W - V))) (split text)))))
    /\ (forall (j : nat) c c', chunks !! j = Some c -> chunks !! S j = Some c' ->
          exists s e, start_word c = Some s /\ end_word c = Some e
                      /\ start_word c' = Some (s + (W - V)) /\ s + (W - V) <= e)
    /\ (forall p, 0 <= p < len (split text) ->
          exists c s e, c ∈ chunks /\ start_word c = Some s /\ end_word c = Some e
                        /\ s <= p < e)
    /\ (len (split text) = 2500 -> W = 1000 -> V = 200 ->
          map start_word chunks = [Some 0; Some 800; Some 1600; Some 2400]
          /\ exists c, last chunks = Some c
                       /\ start_word c = Some 2400 /\ end_word c = Some 2500).
Proof.
  intros HV Hwords.
  set (words := split text) in *. set (N := len words).
  set (step := W - V).
  assert (0 < step) as Hstep by (unfold step; lia).
  assert (0 < N) as HN.
  { unfold N, len. destruct words; [done|]. simpl. lia. }
  set (n := Z.to_nat (range_length 0 N step)).
  pose proof (offsets_count N step HN Hstep) as Hn. fold n in Hn.
  pose proof (Z.div_pos (N - 1) step ltac:(lia) Hstep) as Hdiv.
  set (chunks := imap (chunk_at words W)
                      (map (fun j : nat => Z.of_nat j * step) (seq 0 n))).
  assert (length chunks = n) as Hlen.
  { unfold chunks. by rewrite length_imap, length_map, length_seq. }
  assert (forall (j : nat) c, chunks !! j = Some c ->
            (j < n)%nat /\ c = chunk_at words W j (Z.of_nat j * step)) as Hget.
  { intros j c. apply lookup_chunks. }
  (* an offset below the count lies below N *)
  assert (forall j : nat, (j < n)%nat -> Z.of_nat j * step <= N - 1) as Hbelow.
  { intros j Hj.
    assert (Z.of_nat j <= (N - 1) / step) as Hjd by lia.
    pose proof (Z.mul_div_le (N - 1) step Hstep). nia. }
  exists chunks. split; [|split; [|split; [|split; [|split]]]].
  - unfold chunk_text. fold words.
    rewrite (chunk_loop_offsets words W V Hstep). fold step N n chunks. simpl.
    rewrite report_nonempty; [done| |].
    + intros Hnil. rewrite Hnil in Hlen. simpl in Hlen. lia.
    + apply Forall_forall. intros c Hc.
      apply list_elem_of_lookup in Hc as [j Hj].
      apply Hget in Hj as [_ ->]. by eexists.
  - unfold len at 1. rewrite Hlen. lia.
  - intros j c Hj. apply Hget in Hj as [Hjn ->].
    destruct (chunk_at_fields words W j (Z.of_nat j * step)) as (H1 & H2 & H3 & H4).
    repeat split; [done..|].
    rewrite H4. rewrite py_slice_window by lia. done.
  - intros j c c' Hj Hj'.
    apply Hget in Hj as [Hjn ->]. apply Hget in Hj' as [Hjn' ->].
    exists (Z.of_nat j * step), (Z.min (Z.of_nat j * step + W) N).
    split; [reflexivity|]. split; [reflexivity|]. split.
    + change (start_word (chunk_at words W (S j) (Z.of_nat (S j) * step)))
        with (Some (Z.of_nat (S j) * step)).
      f_equal. unfold step. lia.
    + pose proof (Hbelow (S j) Hjn'). unfold step in *. lia.
  - intros p Hp.
    set (j := Z.to_nat (p / step)).
    assert (0 <= p / step) as Hq by (apply Z.div_pos; lia).
    assert (p / step <= (N - 1) / step) as Hq'
      by (apply Z.div_le_mono; lia).
    assert (j < n)%nat as Hjn by (unfold j; lia).
    exists (chunk_at words W j (Z.of_nat j * step)),
           (Z.of_nat j * step), (Z.min (Z.of_nat j * step + W) N).
    split; [|split; [done|split; [done|]]].
    + apply list_elem_of_lookup. exists j. by apply lookup_chunks.
    + unfold j. rewrite Z2Nat.id by done.
      pose proof (Z.mul_div_le p step Hstep).
      pose proof (Z.mul_succ_div_gt p step Hstep).
      unfold step in *. lia.
  - intros HN' -> ->. unfold chunks, n, step, N in *. rewrite HN'.
    change (Z.to_nat (range_length 0 2500 (1000 - 200))) with 4%nat.
    split; [reflexivity|].
    eexists. split; [reflexivity|]. split; [reflexivity|].
    simpl. unfold end_word, chunk_at. simpl.
    fold words. rewrite HN'. reflexivity.
Qed.

Lemma chunk_text_covers_witness :
  exists chunks,
    chunk_text (lit "a b c d e") 3 1 = Return chunks /\ len chunks = 3.
Proof.
  destruct (chunk_text_covers (lit "a b c d e") 3 1) as (chunks & H & Hn & _).
  - lia.
  - discriminate.
  - exists chunks. split; [exact H|exact Hn].
Defined.

(** The scenario on a concrete text of 2500 words. *)
Example chunk_text_2500_words :
  match chunk_text (concat (replicate 2500 (lit "mot "))) 1000 200 with
  | Return chunks =>
      map (fun c => (start_word c, end_word c)) chunks
      = [(Some 0, Some 1000); (Some 800, Some 1800);
         (Some 1600, Some 2500); (Some 2400, Some 2500)]
  | Raise _ => False
  end.
Proof. vm_compute. reflexivity. Qed.

(** ** Text cleaning *)

Import PDFExtractor.

Lemma sub_spaces_single_spaced (s : str) :
  forall b, single_spaced b (sub_spaces b s) = true.
Proof.
  induction s as [|c s IH]; intros b; simpl; [done|].
  destruct (isspace c) eqn:Hc.
  - destruct b; [apply IH|]. simpl.
    change (isspace SPACE) with true. simpl. apply IH.
  - simpl. rewrite Hc. apply IH.
Qed.

Lemma single_spaced_fixed (s : str) :
  forall b, single_spaced b s = true -> sub_spaces b s = s.
Proof.
  induction s as [|c s IH]; intros b H; simpl in *; [done|].
  destruct (isspace c) eqn:Hc.
  - apply andb_prop in H as [H Hs]. apply andb_prop in H as [Heq Hb].
    apply N.eqb_eq in Heq. destruct b; [done|]. subst c.
    f_equal. by apply IH.
  - f_equal. by apply IH.
Qed.

Lemma single_spaced_weaken (s : str) (b : bool) :
  single_spaced b s = true -> single_spaced false s = true.
Proof.
  destruct s as [|c s]; simpl; [done|].
  destruct (isspace c); [|done].
  intros H. apply andb_prop in H as [H Hs]. apply andb_prop in H as [Heq _].
  by rewrite Heq, Hs.
Qed.

Lemma single_spaced_no_newline (s : str) :
  forall b, single_spaced b s = true -> Forall (fun c => c <> NEWLINE) s.
Proof.
  induction s as [|c s IH]; intros b H; simpl in *; [constructor|].
  destruct (isspace c) eqn:Hc.
  - apply andb_prop in H as [H Hs]. apply andb_prop in H as [Heq _].
    apply N.eqb_eq in Heq. constructor; [by subst c|by eapply IH].
  - constructor; [|by eapply IH]. intros ->. done.
Qed.

Lemma single_spaced_adjacent (s : str) :
  forall b (i : nat) c1 c2,
    single_spaced b s = true ->
    s !! i = Some c1 -> s !! S i = Some c2 ->
    isspace c1 && isspace c2 = false.
Proof.
  induction s as [|c s IH]; intros b i c1 c2 H H1 H2; [done|].
  destruct i as [|i].
  - simpl in H1, H2. injection H1 as ->.
    destruct s as [|c' s]; [done|]. simpl in H2. injection H2 as ->.
    simpl in H. destruct (isspace c1); [|done].
    destruct (isspace c2); [|done].
    rewrite !andb_false_r in H. done.
  - simpl in H. destruct (isspace c).
    + apply andb_prop in H as [_ Hs]. by eapply (IH true i).
    + by eapply (IH false i).
Qed.

Lemma lstrip_single_spaced (s : str) :
  forall b, single_spaced b s = true -> single_spaced false (lstrip s) = true.
Proof.
  induction s as [|c s IH]; intros b H; [done|].
  simpl. destruct (isspace c) eqn:Hc.
  - simpl in H. rewrite Hc in H. apply andb_prop in H as [_ Hs]. by eapply IH.
  - by eapply single_spaced_weaken.
Qed.

Lemma lstrip_head (s : str) (c : char) :
  head (lstrip s) = Some c -> isspace c = false.
Proof.
  induction s as [|c' s IH]; simpl; [done|].
  destruct (isspace c') eqn:Hc; [done|]. simpl. by intros [= <-].
Qed.

Lemma lstrip_fixed (s : str) :
  (forall c, head s = Some c -> isspace c = false) -> lstrip s = s.
Proof.
  destruct s as [|c s]; simpl; [done|]. intros H. by rewrite (H c).
Qed.

Lemma rstrip_single_spaced (s : str) :
  forall b, single_spaced b s = true -> single_spaced b (rstrip s) = true.
Proof.
  induction s as [|c s IH]; intros b H; [done|].
  simpl in *. destruct (isspace c) eqn:Hc.
  - apply andb_prop in H as [H Hs]. specialize (IH true Hs).
    destruct (rstrip s) as [|c' r]; [done|].
    simpl. rewrite Hc, H. exact IH.
  - specialize (IH false H).
    destruct (rstrip s) as [|c' r]; simpl; by rewrite Hc.
Qed.

Lemma rstrip_head (s : str) (c : char) :
  head (rstrip s) = Some c -> head s = Some c.
Proof.
  destruct s as [|c' s]; simpl; [done|].
  destruct (rstrip s); [destruct (isspace c')|]; done.
Qed.

Lemma rstrip_last (s : str) (c : char) :
  last (rstrip s) = Some c -> isspace c = false.
Proof.
  induction s as [|c' s IH]; simpl; [done|].
  destruct (rstrip s) as [|c'' r] eqn:Hr.
  - destruct (isspace c') eqn:Hc; simpl; [done|]. by intros [= <-].
  - rewrite last_cons_cons. apply IH.
Qed.

Lemma rstrip_fixed (s : str) :
  (forall c, last s = Some c -> isspace c = false) -> rstrip s = s.
Proof.
  induction s as [|c s IH]; simpl; [done|]. intros H.
  destruct s as [|c' s'].
  - simpl. by rewrite (H c).
  - rewrite IH.
    + done.
    + intros c0 Hc0. apply H. by rewrite last_cons_cons.
Qed.

Lemma sub_newlines_fixed (s : str) :
  forall n, Forall (fun c => c <> NEWLINE) s -> sub_newlines n s = s.
Proof.
  induction s as [|c s IH]; intros n H; simpl; [done|].
  inversion H as [|? ? Hc Hs]; subst.
  destruct (N.eqb_spec c NEWLINE); [done|]. f_equal. by apply IH.
Qed.

(** What the first two steps of [clean_text] leave. *)
Lemma strip_sub_spaces (s : str) :
  let t := strip (sub_spaces false s) in
  single_spaced false t = true
  /\ (forall c, head t = Some c -> isspace c = false)
  /\ (forall c, last t = Some c -> isspace c = false).
Proof.
  simpl. unfold strip. split; [|split].
  - apply rstrip_single_spaced. eapply lstrip_single_spaced.
    apply sub_spaces_single_spaced.
  - intros c Hc. apply rstrip_head in Hc. by eapply lstrip_head.
  - intros c. apply rstrip_last.
Qed.

(** C10.  [clean_text] is idempotent.  Its output has no two adjacent
    whitespace characters, does not start and does not end with whitespace,
    and its only whitespace character is the space; hence the last step,
    which collapses runs of newlines, leaves the stripped text as it is. *)
Theorem clean_text_idempotent (text : str) :
  clean_text (clean_text text) = clean_text text
  /\ (forall (i : nat) c1 c2,
        clean_text text !! i = Some c1 -> clean_text text !! S i = Some c2 ->
        isspace c1 && isspace c2 = false)
  /\ (forall c, head (clean_text text) = Some c -> isspace c = false)
  /\ (forall c, last (clean_text text) = Some c -> isspace c = false)
  /\ (forall c, c ∈ clean_text text -> isspace c = true -> c = SPACE)
  /\ sub_newlines 0 (strip (sub_spaces false text)) = strip (sub_spaces false text).
Proof.
  destruct (strip_sub_spaces text) as (Hss & Hhd & Hlast).
  set (t := strip (sub_spaces false text)) in *.
  assert (sub_newlines 0 t = t) as Hnl
    by (eapply sub_newlines_fixed, single_spaced_no_newline, Hss).
  assert (clean_text text = t) as Hclean by exact Hnl.
  rewrite Hclean.
  split; [|split; [|split; [|split; [|split]]]]; try done.
  - unfold clean_text. rewrite (single_spaced_fixed t false Hss).
    unfold strip. rewrite (lstrip_fixed t Hhd), (rstrip_fixed t Hlast). exact Hnl.
  - intros i c1 c2. by apply (single_spaced_adjacent t false).
  - clear -Hss. revert Hss. generalize false. induction t as [|c' t IH]; intros b Hss c Hin Hc.
    + by apply elem_of_nil in Hin.
    + apply elem_of_cons in Hin as [->|Hin].
      * simpl in Hss. rewrite Hc in Hss.
        apply andb_prop in Hss as [H _]. apply andb_prop in H as [H _].
        by apply N.eqb_eq in H.
      * simpl in Hss. destruct (isspace c').
        -- apply andb_prop in Hss as [_ Hs]. by eapply IH.
        -- by eapply IH.
Qed.

Example clean_text_sample :
  clean_text ([9; 32]%N ++ lit "Art. 1" ++ [10; 10; 10; 160]%N ++ lit "RGPD" ++ [13; 10]%N)
  = lit "Art. 1 RGPD".
Proof. reflexivity. Qed.

(** ** The monad *)

Lemma foldM_app {A B} (f : B -> A -> M B) (l1 l2 : list A) :
  forall acc w,
    foldM f acc (l1 ++ l2) w
    = match foldM f acc l1 w with
      | (Return acc', w') => foldM f acc' l2 w'
      | (Raise e, w') => (Raise e, w')
      end.
Proof.
  induction l1 as [|a l1 IH]; intros acc w; simpl; [done|].
  unfold mbind, M_bind. destruct (f acc a w) as [[acc'|e] w']; [apply IH|done].
Qed.

(** ** Batched embedding *)

Import EmbeddingManager.

(** The [j]-th batch of [texts] for batches of [b] texts. *)
Lemma concat_batches {A} (l : list A) (b m : nat) :
  concat (map (fun j : nat => take b (drop (j * b) l)) (seq 0 m)) = take (m * b) l.
Proof.
  induction m as [|m IH]; [done|].
  rewrite seq_S, map_app, concat_app, IH. simpl. rewrite app_nil_r.
  rewrite take_take_drop. f_equal. lia.
Qed.

Lemma ceil_div (N B : Z) :
  0 <= N -> 0 < B ->
  range_length 0 N B = (N + B - 1) / B.
Proof.
  intros HN HB. destruct (Z.eq_dec N 0) as [->|Hne].
  - rewrite range_length_zero. rewrite Z.div_small; lia.
  - rewrite range_length_up by lia.
    replace (N + B - 1) with (N - 1 + 1 * B) by lia.
    rewrite Z.div_add by lia. done.
Qed.

(** ** Steps of the monad *)

Lemma bind_run {A B} (m : M A) (f : A -> M B) (w : world) :
  (m ≫= f) w
  = match m w with
    | (Return a, w') => f a w'
    | (Raise e, w') => (Raise e, w')
    end.
Proof. reflexivity. Qed.

Lemma return_bind {A B} (a : A) (f : A -> result B) : Return a ≫= f = f a.
Proof. reflexivity. Qed.

Lemma raise_bind {A B} (e : exn) (f : A -> result B) : Raise e ≫= f = Raise e.
Proof. reflexivity. Qed.

Lemma lift_run {A} (r : result A) (w : world) : lift r w = (r, w).
Proof. reflexivity. Qed.

Lemma mret_run {A} (a : A) (w : world) : (mret a : M A) w = (Return a, w).
Proof. reflexivity. Qed.

(** [np.array] on at least one row, the rows of one length. *)
Lemma np_array_rows (rows : list vec) (D : Z) :
  rows <> [] -> Forall (fun v => len v = D) rows ->
  np_array rows = Return (Array2 D rows).
Proof.
  intros Hne Hall. destruct rows as [|row rows]; [done|]. unfold np_array.
  assert (len row = D) as Hrow by (by inversion Hall).
  assert (forallb (fun r => len r =? len row) (row :: rows) = true) as ->.
  { apply forallb_forall. intros r Hr. apply Z.eqb_eq.
    rewrite Forall_forall in Hall. rewrite Hrow. apply Hall.
    by apply list_elem_of_In. }
  by rewrite Hrow.
Qed.

Lemma concat_answers_length {A B} (service : list A -> list B) (batches : list (list A)) :
  (forall input, length (service input) = length input) ->
  length (concat (map service batches)) = length (concat batches).
Proof.
  intros Haligned. induction batches as [|x l IH]; simpl; [done|].
  rewrite !length_app, IH. by rewrite Haligned.
Qed.

Lemma concat_answers_pointwise {A B C} (service : list A -> list B) (e : A -> B)
    (g : B -> C) (batches : list (list A)) :
  (forall input, service input = map e input) ->
  map g (concat (map service batches)) = map (fun t => g (e t)) (concat batches).
Proof.
  intros He. induction batches as [|x l IH]; [done|].
  cbn [map concat]. by rewrite !map_app, IH, He, map_map.
Qed.

Section Batching.
Context {F : Float32}.
Variable client : OpenAI.
Variable self : manager.
Variable service : list str -> list vec.
Hypothesis service_answers :
  forall input, embed client (model self) input = Return (service input).

Lemma batch_step_run (texts : list str) (B : Z) (j : nat) (acc : list vec) o f dr s :
  0 < B -> 0 < len texts ->
  batch_step client self texts B (len texts) acc (Z.of_nat j * B) (mkWorld o f dr s)
  = (Return (acc ++ service (take (Z.to_nat B) (drop (j * Z.to_nat B) texts))),
     mkWorld o f dr (s ++ [take (Z.to_nat B) (drop (j * Z.to_nat B) texts)])).
Proof.
  intros HB HN. unfold batch_step.
  rewrite py_slice_window by lia.
  replace (Z.to_nat (Z.of_nat j * B)) with (j * Z.to_nat B)%nat by lia.
  unfold mbind, M_bind, embeddings_create. rewrite service_answers.
  unfold lift, floordiv. simpl.
  destruct (Z.eqb_spec (len texts) 0); [lia|]. done.
Qed.

Lemma batches_run (texts : list str) (B : Z) o f dr s :
  0 < B ->
  forall m : nat,
    (m <= Z.to_nat (range_length 0 (len texts) B))%nat ->
    foldM (batch_step client self texts B (len texts)) []
          (map (fun j : nat => Z.of_nat j * B) (seq 0 m)) (mkWorld o f dr s)
    = (Return (concat (map service
                 (map (fun j : nat => take (Z.to_nat B) (drop (j * Z.to_nat B) texts))
                      (seq 0 m)))),
       mkWorld o f dr
         (s ++ map (fun j : nat => take (Z.to_nat B) (drop (j * Z.to_nat B) texts))
                   (seq 0 m))).
Proof.
  intros HB. induction m as [|m IH]; intros Hm.
  - simpl. by rewrite app_nil_r.
  - assert (0 < len texts) as HN.
    { destruct (Z_lt_le_dec 0 (len texts)) as [|Hle]; [done|].
      rewrite range_length_empty in Hm by lia. simpl in Hm. lia. }
    rewrite seq_S, !map_app, foldM_app, IH by lia. simpl.
    unfold mbind at 1, M_bind at 1.
    rewrite batch_step_run by done.
    rewrite concat_app. simpl. rewrite app_nil_r, app_assoc. done.
Qed.

(** C7.  With a batch size [B > 0] and an embedding service that answers
    every request [input] with the vectors [service input], one per text
    and in the order of the texts, all of one length [D],
    [create_embeddings_batch] sends [ceil (len texts / B)] requests; each
    carries at least one and at most [B] texts, and together they carry the
    texts in order.  The result is the array of the answers, one after the
    other, as [float32]: one row per text, in the order of the texts; when
    the service embeds each text by itself with [e], row [i] is the
    [float32] of [e] of text [i].  Without texts the result is the array
    of one axis that [np.array] makes of the empty list.  Nothing else of
    the world changes. *)
Theorem create_embeddings_batch_aligned (texts : list str) (B D : Z) (w : world) :
  0 < B ->
  (forall input, length (service input) = length input) ->
  (forall input, Forall (fun v => len v = D) (service input)) ->
  exists batches,
    create_embeddings_batch client self texts B w
    = (Return (match texts with
               | [] => Array1 []
               | _ => Array2 D (map (map float32) (concat (map service batches)))
               end),
       mkWorld (objs w) (files w) (dirs w) (sent w ++ batches))
    /\ len batches = (len texts + B - 1) / B
    /\ Forall (fun batch => 0 < len batch <= B) batches
    /\ concat batches = texts
    /\ length (concat (map service batches)) = length texts
    /\ (forall e : str -> vec, (forall input, service input = map e input) ->
          map (map float32) (concat (map service batches))
          = map (fun t => map float32 (e t)) texts).
Proof.
  intros HB Haligned Hwidth. destruct w as [o f dr s]. simpl.
  set (b := Z.to_nat B). set (N := len texts).
  set (n := Z.to_nat (range_length 0 N B)).
  set (batches := map (fun j : nat => take b (drop (j * b) texts)) (seq 0 n)).
  assert (Z.of_nat n = (N + B - 1) / B) as Hn.
  { unfold n. rewrite ceil_div by (unfold N; pose proof (len_nonneg texts); lia).
    pose proof (len_nonneg texts).
    assert (0 <= (N + B - 1) / B) by (apply Z.div_pos; unfold N; lia). lia. }
  assert (concat batches = texts) as Hcat.
  { unfold batches. rewrite concat_batches. apply take_ge.
    pose proof (Z.mul_succ_div_gt (N + B - 1) B HB) as Hgt.
    unfold N, len in *. nia. }
  exists batches. split; [|split; [|split; [|split; [|split]]]].
  - unfold create_embeddings_batch, py_range.
    destruct (Z.eqb_spec B 0); [lia|].
    unfold mbind at 1, M_bind at 1, lift at 1.
    unfold mbind at 1, M_bind at 1.
    replace (map (fun j : nat => 0 + Z.of_nat j * B)) with
            (map (fun j : nat => Z.of_nat j * B)) by done.
    fold N n. unfold N. rewrite batches_run by (fold N n; lia).
    fold b batches. rewrite bind_run, lift_run.
    assert (length (concat (map service batches)) = length texts) as Hlen
      by (by rewrite (concat_answers_length service batches Haligned), Hcat).
    destruct texts as [|t texts'].
    + destruct (concat (map service batches)); [done|done].
    + rewrite (np_array_rows _ D); [done| |].
      * intros Hnil. by rewrite Hnil in Hlen.
      * apply Forall_concat, Forall_forall. intros vs Hvs.
        apply list_elem_of_fmap in Hvs as (input & -> & _). apply Hwidth.
  - unfold len at 1, batches. rewrite length_map, length_seq. done.
  - unfold batches. apply Forall_forall. intros batch Hin.
    apply list_elem_of_fmap in Hin as (j & -> & Hj).
    apply elem_of_seq in Hj.
    unfold len. rewrite length_take, length_drop.
    assert (Z.of_nat j * B < N) as Hlt.
    { assert (Z.of_nat j <= (N + B - 1) / B - 1) as Hj' by lia.
      pose proof (Z.mul_div_le (N + B - 1) B HB). nia. }
    unfold N, len, b in *. nia.
  - exact Hcat.
  - by rewrite (concat_answers_length service batches Haligned), Hcat.
  - intros e He.
    transitivity (map (fun t => map float32 (e t)) (concat batches));
      [by apply concat_answers_pointwise|by rewrite Hcat].
Qed.

End Batching.

Lemma create_embeddings_batch_aligned_witness :
  exists batches,
    create_embeddings_batch (F := Sample.exact) Sample.client Sample.manager
      [lit "a"; lit "bb"; lit "ccc"; lit "d"; lit "e"] 2 Sample.built
    = (Return (Array2 2 (concat (map Sample.service batches))),
       mkWorld (objs Sample.built) (files Sample.built) (dirs Sample.built)
               (sent Sample.built ++ batches))
    /\ len batches = 3.
Proof.
  destruct (create_embeddings_batch_aligned (F := Sample.exact)
              Sample.client Sample.manager
              Sample.service (fun _ => eq_refl)
              [lit "a"; lit "bb"; lit "ccc"; lit "d"; lit "e"] 2 2 Sample.built)
    as (batches & Hrun & Hcount & _).
  - lia.
  - intros input. apply length_map.
  - intros input. apply Forall_forall. intros v Hv.
    apply list_elem_of_fmap in Hv as (t & -> & _). reflexivity.
  - exists batches. split; [|exact Hcount].
    rewrite Hrun. cbn [float32 Sample.exact]. f_equal. f_equal. f_equal.
    rewrite <- (map_id (concat (map Sample.service batches))) at 2.
    apply map_ext. intros v. apply map_id.
Defined.

(** ** The object store *)

Lemma index_at_grows (w : world) (more : list object) il index :
  index_at w il index -> index_at (set_objs (fun h => h ++ more) w) il index.
Proof. unfold index_at. simpl. intros H. by apply lookup_app_l_Some. Qed.

Lemma chunks_at_grows (w : world) (more : list object) cl C :
  chunks_at w cl C -> chunks_at (set_objs (fun h => h ++ more) w) cl C.
Proof.
  intros (cs & Hcl & Hcs). exists cs. simpl. split.
  - by apply lookup_app_l_Some.
  - eapply Forall2_impl; [exact Hcs|]. intros c d H. by apply lookup_app_l_Some.
Qed.

Lemma retriever_at_grows (w : world) (more : list object) self index C :
  retriever_at w self index C ->
  retriever_at (set_objs (fun h => h ++ more) w) self index C.
Proof.
  intros (il & cl & Hself & Hi & Hc). exists il, cl. split; [|split].
  - simpl. by apply lookup_app_l_Some.
  - by apply index_at_grows.
  - by apply chunks_at_grows.
Qed.

(** Indexing the list of references and indexing the list of records
    agree. *)
Lemma py_getitem_chunks (w : world) (cs : list loc) (C : list dict) (idx : Z) :
  Forall2 (fun c items => objs w !! c = Some (ODict items)) cs C ->
  match py_getitem C idx with
  | Return items =>
      exists c, py_getitem cs idx = Return c /\ objs w !! c = Some (ODict items)
  | Raise e => py_getitem cs idx = Raise e
  end.
Proof.
  intros H. pose proof (Forall2_length _ _ _ H) as Hlen.
  unfold py_getitem, len. rewrite Hlen.
  destruct (_ <? 0); [done|].
  set (j := Z.to_nat _).
  destruct (C !! j) as [items|] eqn:HC.
  - destruct (Forall2_lookup_r _ _ _ _ _ H HC) as (c & Hc & Hobj).
    exists c. by rewrite Hc.
  - apply lookup_ge_None in HC. rewrite <- Hlen in HC.
    apply lookup_ge_None in HC. by rewrite HC.
Qed.

Ltac step_with H := rewrite bind_run, H; cbv beta iota.

Lemma dict_copy_run (w : world) (l : loc) (items : dict) :
  objs w !! l = Some (ODict items) ->
  dict_copy l w
  = (Return (length (objs w)), set_objs (fun h => h ++ [ODict items]) w).
Proof.
  intros H. unfold dict_copy. rewrite bind_run. unfold read_dict. by rewrite H.
Qed.

Lemma dict_setitem_fresh (h : list object) fs dr log (items : dict) key v :
  dict_setitem (length h) key v (mkWorld (h ++ [ODict items]) fs dr log)
  = (Return tt, mkWorld (h ++ [ODict (<[key := v]> items)]) fs dr log).
Proof.
  unfold dict_setitem, set_objs. cbn [objs files dirs sent].
  rewrite list_lookup_middle by done.
  rewrite insert_app_r_alt by lia. by rewrite Nat.sub_diag.
Qed.

Lemma dict_lookup_fresh (h : list object) fs dr log (items : dict) key :
  dict_lookup (length h) key (mkWorld (h ++ [ODict items]) fs dr log)
  = (dict_getitem items key, mkWorld (h ++ [ODict items]) fs dr log).
Proof.
  unfold dict_lookup. rewrite bind_run. unfold read_dict. cbn [objs].
  rewrite list_lookup_middle by done. done.
Qed.

Import RAGRetriever.

(** One turn of the loop of [search] on a well-formed retriever: it adds
    one object, the scored copy, and changes nothing else. *)
Lemma search_step_run (w : world) (self : loc) index C (acc : list loc)
    (i idx : Z) (distance : scalar) :
  retriever_at w self index C ->
  search_step self acc (i, (idx, distance)) w
  = match py_getitem C idx with
    | Raise e => (Raise e, w)
    | Return stored =>
        let chunk := scored stored distance (i + 1) in
        (match result_chunk C (i, (idx, distance)) with
         | Return _ => Return (acc ++ [length (objs w)])
         | Raise e => Raise e
         end,
         set_objs (fun h => h ++ [ODict chunk]) w)
    end.
Proof.
  intros (il & cl & Hself & Hi & cs & Hcl & Hcs).
  pose proof (py_getitem_chunks w cs C idx Hcs) as Hget.
  unfold search_step, result_chunk.
  rewrite bind_run. unfold self_chunks. rewrite Hself.
  rewrite bind_run. unfold read_list. rewrite Hcl.
  rewrite bind_run. unfold lift at 1.
  destruct (py_getitem C idx) as [stored|e].
  2: { by rewrite Hget. }
  destruct Hget as (c & -> & Hc).
  step_with (dict_copy_run w c stored Hc).
  destruct w as [h fs dr log]. unfold set_objs. cbn [objs files dirs sent].
  step_with dict_setitem_fresh.
  step_with dict_setitem_fresh.
  rewrite bind_run, dict_lookup_fresh. fold (scored stored distance (i + 1)).
  cbn [mbind result_bind].
  destruct (dict_getitem (scored stored distance (i + 1)) "source"); [|done].
  rewrite bind_run, dict_lookup_fresh.
  destruct (dict_getitem (scored stored distance (i + 1)) "chunk_id"); done.
Qed.

Lemma set_objs_none (w : world) :
  set_objs (fun h => h ++ map ODict []) w = w.
Proof. destruct w. unfold set_objs. cbn. by rewrite app_nil_r. Qed.

Lemma result_chunk_inv (C : list dict) (i idx : Z) (distance : scalar) (c : dict) :
  result_chunk C (i, (idx, distance)) = Return c ->
  exists stored, py_getitem C idx = Return stored
                 /\ c = scored stored distance (i + 1)
                 /\ is_Some (c !! "source"%string)
                 /\ is_Some (c !! "chunk_id"%string).
Proof.
  unfold result_chunk. destruct (py_getitem C idx) as [stored|e]; [|done].
  cbn [mbind result_bind]. unfold dict_getitem.
  destruct (scored stored distance (i + 1) !! "source"%string) eqn:H1; [|done].
  destruct (scored stored distance (i + 1) !! "chunk_id"%string) eqn:H2; [|done].
  intros [= <-]. exists stored. rewrite H1, H2. eauto.
Qed.

Lemma result_chunk_of_chunk (C : list dict) (i idx : Z) (distance : scalar) stored :
  py_getitem C idx = Return stored -> is_chunk stored ->
  result_chunk C (i, (idx, distance)) = Return (scored stored distance (i + 1)).
Proof.
  intros Hget [[s Hs] [n Hn]]. unfold result_chunk. rewrite Hget.
  cbn [mbind result_bind]. unfold dict_getitem, scored.
  rewrite !lookup_insert_ne by done. by rewrite Hs, Hn.
Qed.

(** The loop of [search] on a well-formed retriever: the new objects are
    the scored copies, at consecutive fresh addresses, and the loop returns
    these addresses. *)
Lemma search_loop_run (self : loc) index C (items : list (Z * (Z * scalar))) :
  forall (acc : list loc) (w : world),
    retriever_at w self index C ->
    exists new : list dict,
      foldM (search_step self) acc items w
      = (match mapR (result_chunk C) items with
         | Return ds => Return (acc ++ seq (length (objs w)) (length ds))
         | Raise e => Raise e
         end,
         set_objs (fun h => h ++ map ODict new) w)
      /\ (forall ds, mapR (result_chunk C) items = Return ds -> new = ds)
      /\ Forall (fun c => exists stored distance rank,
                            stored ∈ C /\ c = scored stored distance rank) new.
Proof.
  induction items as [|[i [idx distance]] items IH]; intros acc w Hwf.
  - exists []. rewrite set_objs_none. cbn. rewrite app_nil_r.
    split; [done|]. split; [by intros ds [= <-]|constructor].
  - cbn [foldM mapR]. rewrite bind_run, (search_step_run w self index C) by done.
    destruct (py_getitem C idx) as [stored|e] eqn:Hget.
    2: { exists []. rewrite set_objs_none.
         unfold result_chunk. rewrite Hget. cbn. split; [done|]. split; [done|constructor]. }
    assert (stored ∈ C) as Hin.
    { unfold py_getitem in Hget. destruct (_ <? 0); [done|].
      destruct (C !! _) eqn:HC; [|done]. injection Hget as <-.
      by eapply list_elem_of_lookup_2. }
    cbv zeta.
    destruct (result_chunk C (i, (idx, distance))) as [c|e] eqn:Hrc.
    2: { exists [scored stored distance (i + 1)]. cbn [mbind result_bind map].
         split; [done|]. split; [done|]. repeat constructor. eauto. }
    apply result_chunk_inv in Hrc as (stored' & Hget' & -> & _).
    rewrite Hget in Hget'. injection Hget' as <-.
    destruct (IH (acc ++ [length (objs w)])
                 (set_objs (fun h => h ++ [ODict (scored stored distance (i + 1))]) w))
      as (new & Hrun & Hnew & Hall).
    { by apply retriever_at_grows. }
    exists (scored stored distance (i + 1) :: new).
    rewrite Hrun. cbn [mbind result_bind].
    destruct w as [h fs dr log]. unfold set_objs. cbn [objs files dirs sent map].
    split; [|split].
    + rewrite <- !app_assoc. cbn [app].
      destruct (mapR (result_chunk C) items) as [ds|e]; [|done].
      cbn [length seq]. rewrite length_app, <- app_assoc. cbn [length app].
      replace (length h + 1)%nat with (S (length h)) by lia. done.
    + intros ds'. destruct (mapR (result_chunk C) items) as [ds|e]; [|done].
      intros [= <-]. f_equal. by apply Hnew.
    + constructor; [eauto|done].
Qed.

Lemma create_query_embedding_run {F : Float32} (client : OpenAI) (self : loc)
    (query model : str) (w : world) :
  create_query_embedding client self query model w
  = (match embed client model [query] ≫= (fun data => py_getitem data 0) with
     | Return embedding => Return (Array2 (len embedding) [map float32 embedding])
     | Raise e => Raise e
     end,
     set_sent (fun log => log ++ [[query]]) w).
Proof.
  unfold create_query_embedding. rewrite bind_run. unfold embeddings_create.
  destruct (embed client model [query]) as [data|e]; [|done].
  rewrite bind_run, lift_run. cbn [mbind result_bind].
  destruct (py_getitem data 0); done.
Qed.

(** [search] on a well-formed retriever.  The call logs one request, adds
    the scored copies at fresh addresses and returns these addresses, or
    raises what the computation on values raises. *)
Lemma search_run {F : Float32} (client : OpenAI) (w : world) (self : loc) index C
    (query : str) (k : Z) :
  retriever_at w self index C ->
  exists new : list dict,
    search client self query k w
    = (match search_results client index C query k with
       | Return ds => Return (seq (length (objs w)) (length ds))
       | Raise e => Raise e
       end,
       mkWorld (objs w ++ map ODict new) (files w) (dirs w) (sent w ++ [[query]]))
    /\ (forall ds, search_results client index C query k = Return ds -> new = ds)
    /\ Forall (fun c => exists stored distance rank,
                          stored ∈ C /\ c = scored stored distance rank) new.
Proof.
  intros Hwf. pose proof Hwf as (il & cl & Hself & Hi & Hc).
  unfold search, search_results.
  rewrite bind_run, create_query_embedding_run.
  set (w1 := set_sent (fun log => log ++ [[query]]) w).
  assert (retriever_at w1 self index C) as Hwf1.
  { destruct Hwf as (il' & cl' & ?). exists il', cl'. done. }
  assert (forall e : exn, (Raise e : result (list loc), w1)
            = (Raise e, mkWorld (objs w ++ map ODict []) (files w) (dirs w) (sent w ++ [[query]])))
    as Hnone.
  { intros e. destruct w. cbn. by rewrite app_nil_r. }
  destruct (embed client default_embedding_model [query]) as [data|e].
  2: { exists []. rewrite raise_bind. split; [apply Hnone|]. split; [done|constructor]. }
  rewrite !return_bind.
  destruct (py_getitem data 0) as [embedding|e].
  2: { exists []. rewrite raise_bind. split; [apply Hnone|]. split; [done|constructor]. }
  rewrite return_bind. cbv beta iota. rewrite bind_run.
  assert (self_index self w1 = (Return il, w1)) as ->.
  { unfold self_index. change (objs w1) with (objs w). by rewrite Hself. }
  rewrite bind_run.
  assert (read_index_object il w1 = (Return index, w1)) as ->.
  { unfold read_index_object. change (objs w1) with (objs w). by rewrite Hi. }
  rewrite bind_run, lift_run.
  destruct (faiss.search index (Array2 (len embedding) [map float32 embedding]) k)
    as [[distances indices]|e].
  2: { exists []. rewrite raise_bind. split; [apply Hnone|]. split; [done|constructor]. }
  rewrite return_bind, bind_run, lift_run.
  destruct (py_getitem indices 0) as [indices0|e].
  2: { exists []. rewrite raise_bind. split; [apply Hnone|]. split; [done|constructor]. }
  rewrite return_bind, bind_run, lift_run.
  destruct (py_getitem distances 0) as [distances0|e].
  2: { exists []. rewrite raise_bind. split; [apply Hnone|]. split; [done|constructor]. }
  rewrite return_bind.
  destruct (search_loop_run self index C (enumerate 0 (zip indices0 distances0)) [] w1 Hwf1)
    as (new & Hrun & Hnew & Hall).
  exists new. rewrite Hrun. split; [|split; [exact Hnew|exact Hall]].
  destruct w. done.
Qed.

(** ** The index library *)

Import faiss.

Lemma insert_hit_perm (h : hit) (l : list hit) : insert_hit h l ≡ₚ h :: l.
Proof.
  induction l as [|h' l IH]; simpl; [done|].
  destruct (h.2 <? h'.2); [done|]. rewrite IH. apply Permutation_swap.
Qed.

Lemma insert_hit_sorted (h : hit) (l : list hit) :
  StronglySorted by_distance l -> StronglySorted by_distance (insert_hit h l).
Proof.
  induction 1 as [|h' l Hl IH Hall]; simpl.
  - repeat constructor.
  - destruct (Z.ltb_spec h.2 h'.2) as [Hlt|Hge].
    + constructor; [by constructor|].
      constructor; [unfold by_distance; lia|].
      eapply Forall_impl; [exact Hall|]. unfold by_distance. intros; lia.
    + constructor; [done|].
      rewrite insert_hit_perm. constructor; [exact Hge|done].
Qed.

Lemma fold_insert_hit (hits : list hit) :
  forall best,
    StronglySorted by_distance best ->
    let out := fold_left (fun best h => insert_hit h best) hits best in
    out ≡ₚ hits ++ best /\ StronglySorted by_distance out.
Proof.
  induction hits as [|h hits IH]; intros best Hs; simpl; [done|].
  destruct (IH (insert_hit h best) (insert_hit_sorted h best Hs)) as [Hp Hs'].
  split; [|done]. rewrite Hp, insert_hit_perm. by rewrite Permutation_middle.
Qed.

Lemma filter_all {A} (P : A -> Prop) `{!forall x, Decision (P x)} (l : list A) :
  Forall P l -> filter P l = l.
Proof.
  induction 1 as [|x l Hx _ IH]; [done|].
  by rewrite filter_cons_True, IH.
Qed.

Section Scan.
Context {F : Float32}.

Lemma scan_perm (rows : list vec) (x : vec) :
  scan rows x
  ≡ₚ filter (fun h : hit => h.2 < FLT_MAX)
            (imap (fun i y => (Z.of_nat i, fvec_L2sqr x y)) rows).
Proof.
  unfold scan.
  destruct (fold_insert_hit
              (filter (fun h : hit => h.2 < FLT_MAX)
                      (imap (fun i y => (Z.of_nat i, fvec_L2sqr x y)) rows)) [])
    as [Hp _]; [constructor|].
  by rewrite app_nil_r in Hp.
Qed.


(** No more hits than stored rows, and as many when every distance is
    below [FLT_MAX]. *)
Lemma scan_length_le (rows : list vec) (x : vec) :
  (length (scan rows x) <= length rows)%nat.
Proof.
  rewrite scan_perm.
  rewrite <- (length_imap (fun i y => (Z.of_nat i, fvec_L2sqr x y)) rows).
  apply length_filter.
Qed.

Lemma scan_length (rows : list vec) (x : vec) :
  Forall (fun y => fvec_L2sqr x y < FLT_MAX) rows ->
  length (scan rows x) = length rows.
Proof.
  intros Hall. rewrite scan_perm, filter_all; [by rewrite length_imap|].
  apply Forall_forall. intros h Hh. apply list_elem_of_lookup in Hh as [i Hi].
  rewrite list_lookup_imap in Hi.
  destruct (rows !! i) as [y|] eqn:Hy; [|done]. injection Hi as <-.
  rewrite Forall_forall in Hall. apply Hall. by eapply list_elem_of_lookup_2.
Qed.

(** Every hit of the scan is a stored row with its distance to the
    query, which is below [FLT_MAX]. *)
Lemma scan_hit (rows : list vec) (x : vec) (h : hit) :
  h ∈ scan rows x <->
  exists (row : nat) y, rows !! row = Some y
                        /\ h = (Z.of_nat row, fvec_L2sqr x y)
                        /\ fvec_L2sqr x y < FLT_MAX.
Proof.
  rewrite scan_perm. rewrite list_elem_of_filter, list_elem_of_lookup. split.
  - intros [Hlt [i Hi]]. rewrite list_lookup_imap in Hi.
    destruct (rows !! i) as [y|] eqn:Hy; [|done].
    injection Hi as <-. eauto.
  - intros (row & y & Hy & -> & Hlt). split; [done|]. exists row.
    by rewrite list_lookup_imap, Hy.
Qed.


(** With enough stored vectors, each at a distance below [FLT_MAX], no
    slot is left over. *)
Lemma knn_enough (rows : list vec) (x : vec) (k : nat) :
  (k <= length rows)%nat ->
  Forall (fun y => fvec_L2sqr x y < FLT_MAX) rows ->
  knn rows x k = take k (scan rows x).
Proof.
  intros Hk Hall. unfold knn.
  rewrite length_take, scan_length by done.
  replace (k - k `min` length rows)%nat with 0%nat by lia.
  simpl. by rewrite app_nil_r.
Qed.

Lemma search_enough (index : IndexFlatL2) (x : vec) (k : Z) :
  len x = d index -> 0 < k <= ntotal index ->
  Forall (fun y => fvec_L2sqr x y < FLT_MAX) (xb index) ->
  faiss.search index (Array2 (len x) [x]) k
  = Return ([map snd (take (Z.to_nat k) (scan (xb index) x))],
            [map fst (take (Z.to_nat k) (scan (xb index) x))]).
Proof.
  intros Hd Hk Hall. unfold faiss.search.
  destruct (Z.eqb_spec (len x) (d index)); [|done]. simpl.
  destruct (Z.ltb_spec 0 k); [|lia]. simpl.
  rewrite knn_enough; [done| |done]. unfold ntotal, len in Hk. lia.
Qed.

End Scan.

(** ** Search on values *)

Lemma mapR_enumerate {A B} (f : Z * A -> result B) (l : list A) :
  forall (start : Z) (g : nat -> A -> B),
    (forall (i : nat) a, l !! i = Some a -> f (start + Z.of_nat i, a) = Return (g i a)) ->
    mapR f (enumerate start l) = Return (imap g l).
Proof.
  induction l as [|a l IH]; intros start g Hf; [done|].
  unfold enumerate. rewrite !imap_cons. cbn [mapR].
  rewrite (Hf 0%nat a eq_refl). rewrite return_bind.
  assert (imap ((fun (i : nat) (a : A) => (start + Z.of_nat i, a)) ∘ S) l
          = enumerate (start + 1) l) as ->.
  { apply imap_ext. intros i a' _. simpl. f_equal. lia. }
  rewrite (IH (start + 1) (g ∘ S)); [done|].
  intros i a' Ha. simpl. rewrite <- (Hf (S i) a' Ha). f_equal. f_equal. lia.
Qed.

Lemma py_getitem_row {A} (l : list A) (row : nat) (a : A) :
  l !! row = Some a -> py_getitem l (Z.of_nat row) = Return a.
Proof.
  intros H. unfold py_getitem.
  destruct (Z.ltb_spec (Z.of_nat row) 0); [lia|].
  destruct (Z.ltb_spec (Z.of_nat row) 0); [lia|].
  by rewrite Nat2Z.id, H.
Qed.

Section SearchFacts.
Context {F : Float32}.
Variable client : OpenAI.
Variable index : IndexFlatL2.
Variable C : list dict.
Variable query : str.
Variables (embedding : vec) (rest : list vec).
Hypothesis aligned : len C = ntotal index.
Hypothesis chunks_built : Forall is_chunk C.
Hypothesis embedded :
  embed client default_embedding_model [query] = Return (embedding :: rest).
Hypothesis same_dimension : len embedding = d index.

(** The records of a search over a non-empty index: one per slot of the
    answer of the index. *)
Lemma search_results_slots (k : Z) :
  0 < k -> 0 < ntotal index ->
  search_results client index C query k
  = Return (imap (fun i (h : hit) => scored (stored_at C h.1) h.2 (Z.of_nat i + 1))
                 (knn (xb index) (map float32 embedding) (Z.to_nat k))).
Proof.
  intros Hk HN. unfold search_results. rewrite embedded, return_bind.
  change (py_getitem (embedding :: rest) 0) with (Return embedding).
  rewrite return_bind. unfold faiss.search. cbn [map].
  destruct (Z.eqb_spec (len embedding) (d index)); [|done]. cbn [negb].
  destruct (Z.ltb_spec 0 k); [|lia]. cbn [negb].
  rewrite return_bind.
  change (py_getitem [?l] 0) with (Return l). rewrite !return_bind.
  rewrite zip_fst_snd.
  apply mapR_enumerate. intros i [label distance] Hi. cbn [fst snd].
  rewrite Z.add_0_l.
  assert (exists stored, py_getitem C label = Return stored /\ is_chunk stored)
    as (stored & Hget & Hchunk).
  { unfold knn in Hi. apply list_elem_of_lookup_2, elem_of_app in Hi as [Hin|Hin].
    - apply elem_of_take in Hin as (i' & Hin & _).
      apply list_elem_of_lookup_2, scan_hit in Hin as (row & y & Hy & [= -> ->] & _).
      assert (is_Some (C !! row)) as [stored Hstored].
      { apply lookup_lt_is_Some. apply lookup_lt_Some in Hy.
        unfold ntotal, len in aligned. lia. }
      exists stored. split; [by apply py_getitem_row|].
      rewrite Forall_forall in chunks_built. apply chunks_built.
      by eapply list_elem_of_lookup_2.
    - apply elem_of_replicate in Hin as [[= -> ->] _].
      assert (is_Some (C !! Z.to_nat (-1 + len C))) as [stored Hstored].
      { apply lookup_lt_is_Some. unfold len in *. lia. }
      exists stored. split.
      + unfold py_getitem. cbn [Z.ltb Z.compare].
        destruct (Z.ltb_spec (-1 + len C) 0); [lia|]. by rewrite Hstored.
      + rewrite Forall_forall in chunks_built. apply chunks_built.
        by eapply list_elem_of_lookup_2. }
  unfold stored_at. rewrite Hget. by apply result_chunk_of_chunk.
Qed.


End SearchFacts.

Lemma scored_fields (stored : dict) (distance : scalar) (rank : Z) :
  get_int (scored stored distance rank) "rank" = Some rank
  /\ get_float (scored stored distance rank) "distance" = Some distance.
Proof.
  unfold get_int, get_float, scored. split.
  - by rewrite lookup_insert_eq.
  - rewrite lookup_insert_ne by done. by rewrite lookup_insert_eq.
Qed.




(** The index answers with [k] slots whatever it stores. *)
Lemma knn_length {F : Float32} (rows : list vec) (x : vec) (k : nat) :
  length (knn rows x k) = k.
Proof.
  unfold knn. rewrite length_app, length_replicate, length_take. lia.
Qed.

(** The slots past the stored rows hold label [-1]. *)
Lemma knn_left_over {F : Float32} (rows : list vec) (x : vec) (k i : nat) :
  (length rows <= i < k)%nat -> knn rows x k !! i = Some (-1, FLT_MAX).
Proof.
  intros Hi. unfold knn. cbv zeta.
  pose proof (scan_length_le rows x) as Hle. unfold hit in *.
  rewrite lookup_app_r; rewrite !length_take; [|lia].
  apply lookup_replicate_2. lia.
Qed.

Lemma stored_at_last (C : list dict) (last_chunk : dict) :
  last C = Some last_chunk -> stored_at C (-1) = last_chunk.
Proof.
  intros Hlast. rewrite last_lookup in Hlast.
  assert (0 < length C)%nat as Hpos by (destruct C; [done|simpl; lia]).
  unfold stored_at, py_getitem, len. cbn [Z.ltb Z.compare].
  destruct (Z.ltb_spec (-1 + Z.of_nat (length C)) 0); [lia|].
  replace (Z.to_nat (-1 + Z.of_nat (length C))) with (pred (length C)) by lia.
  by rewrite Hlast.
Qed.

(** Asking for more than is stored, in general: [search] returns [k]
    records, and each one past the stored rows is a copy of the last chunk
    with distance [FLT_MAX]. *)
Lemma search_pads_with_last_chunk {F : Float32} (client : OpenAI) (w : world)
    (self : loc)
    (index : IndexFlatL2) (C : list dict) (query : str) (k : Z)
    (embedding : vec) (rest : list vec) (last_chunk : dict) :
  retriever_at w self index C ->
  len C = ntotal index ->
  Forall is_chunk C ->
  embed client default_embedding_model [query] = Return (embedding :: rest) ->
  len embedding = d index ->
  last C = Some last_chunk ->
  ntotal index < k ->
  exists ls w',
    RAGRetriever.search client self query k w = (Return ls, w')
    /\ len ls = k
    /\ (forall (i : nat) l, ntotal index <= Z.of_nat i -> ls !! i = Some l ->
          objs w' !! l = Some (ODict (scored last_chunk FLT_MAX (Z.of_nat i + 1)))).
Proof.
  intros Hwf Hal Hchunks Hemb Hdim Hlast Hk.
  assert (0 < ntotal index) as HN.
  { rewrite <- Hal. unfold len. destruct C; [done|simpl; lia]. }
  destruct (search_run client w self index C query k Hwf) as (new & Hrun & Hnew & _).
  pose proof (search_results_slots client index C query embedding rest
                Hal Hchunks Hemb Hdim k ltac:(lia) HN) as Hres.
  set (hits := knn (xb index) (map float32 embedding) (Z.to_nat k)) in *.
  set (g := fun (i : nat) (h : hit) => scored (stored_at C h.1) h.2 (Z.of_nat i + 1)) in *.
  rewrite Hres in Hrun. rewrite (Hnew _ Hres) in Hrun. clear Hnew new.
  assert (length hits = Z.to_nat k) as Hlen by apply knn_length.
  eexists _, _. split; [exact Hrun|]. split.
  - unfold len. rewrite length_seq, length_imap, Hlen. lia.
  - intros i l Hi Hl. apply lookup_seq in Hl as [-> Hlt].
    rewrite length_imap, Hlen in Hlt. cbn [objs].
    rewrite lookup_app_r by lia.
    replace (length (objs w) + i - length (objs w))%nat with i by lia.
    rewrite list_lookup_fmap, list_lookup_imap.
    unfold hits. rewrite knn_left_over by (unfold ntotal, len in Hi; lia).
    cbn. unfold g. cbn [fst snd]. by rewrite (stored_at_last C last_chunk Hlast).
Qed.

(** C1 at the failing input: a retriever over two chunks and their two
    vectors, asked for the three results of the default [k].  The index
    answers rows 0 and 1 and then label [-1] with distance [FLT_MAX];
    [search] returns three records, not two, and the third is a copy of
    the last chunk, which is what [chunks[-1]] reads. *)
Theorem search_past_stored_rows :
  faiss.search (F := Sample.exact) Sample.index (Array2 2 [[2; 0]]) 3
  = Return ([[1; 9; FLT_MAX]], [[0; 1; -1]])
  /\ observe (RAGRetriever.search (F := Sample.exact) Sample.client Sample.self
                (lit "ab") 3 Sample.built)
     = Return [ Some (ODict (scored (Sample.chunk 0 "a.pdf") 1 1));
                Some (ODict (scored (Sample.chunk 1 "b.pdf") 9 2));
                Some (ODict (scored (Sample.chunk 1 "b.pdf") FLT_MAX 3)) ]
  /\ len Sample.C = 2.
Proof. split; [reflexivity|]. split; [vm_compute; reflexivity|reflexivity]. Qed.

(** ** Query time leaves the store alone *)

Lemma read_only_ret {A} (a : A) : read_only (mret a : M A).
Proof. done. Qed.

Lemma read_only_lift {A} (r : result A) : read_only (lift r).
Proof. done. Qed.

Lemma read_only_throw {A} (e : exn) : read_only (throw e : M A).
Proof. done. Qed.

Lemma read_only_bind {A B} (m : M A) (f : A -> M B) :
  read_only m -> (forall a, read_only (f a)) -> read_only (m ≫= f).
Proof.
  intros Hm Hf w. rewrite bind_run. specialize (Hm w).
  destruct (m w) as [[a|e] w']; simpl in Hm; subst w'; [apply Hf|done].
Qed.

Lemma read_only_foldM {A B} (f : B -> A -> M B) (l : list A) :
  (forall acc a, read_only (f acc a)) -> forall acc, read_only (foldM f acc l).
Proof.
  intros Hf. induction l as [|a l IH]; intros acc; simpl.
  - apply read_only_ret.
  - apply read_only_bind; [apply Hf|apply IH].
Qed.

Lemma read_only_read_dict (l : loc) : read_only (read_dict l).
Proof. intros w. unfold read_dict. by destruct (objs w !! l) as [[]|]. Qed.

Lemma read_only_dict_lookup (l : loc) (key : string) : read_only (dict_lookup l key).
Proof.
  apply read_only_bind; [apply read_only_read_dict|]. intros. apply read_only_lift.
Qed.

Lemma read_only_generate_answer {F : Float32} (client : OpenAI) (self : loc)
    (query : str)
    (context_chunks : list loc) (model : str) (max_tokens : Z) :
  read_only (generate_answer client self query context_chunks model max_tokens).
Proof.
  unfold generate_answer. apply read_only_bind.
  - apply read_only_foldM. intros acc [i chunk]. unfold context_step.
    apply read_only_bind; [apply read_only_dict_lookup|]. intros source.
    apply read_only_bind; [apply read_only_dict_lookup|]. intros [s|z|x];
      [apply read_only_ret|apply read_only_throw..].
  - intros context. apply read_only_bind; [apply read_only_lift|]. intros c.
    apply read_only_bind; [|intros; apply read_only_ret].
    apply read_only_foldM. intros acc chunk.
    apply read_only_bind; [apply read_only_dict_lookup|]. intros. apply read_only_ret.
Qed.

(** What one call leaves: the objects of before, then new records. *)
Lemma run_call_grows {F : Float32} (client : OpenAI) (w : world) (self : loc)
    index C (c : call) :
  retriever_at w self index C ->
  exists new : list dict,
    objs (run_call client self c w) = objs w ++ map ODict new
    /\ files (run_call client self c w) = files w.
Proof.
  intros Hwf. destruct c as [query k|query k model]; simpl.
  - destruct (search_run client w self index C query k Hwf) as (new & -> & _).
    by exists new.
  - unfold ask. rewrite bind_run.
    destruct (search_run client w self index C query k Hwf) as (new & -> & _).
    exists new. destruct (search_results client index C query k) as [ds|e]; [|done].
    by rewrite read_only_generate_answer.
Qed.

Lemma run_calls_grow {F : Float32} (client : OpenAI) (self : loc) index C
    (calls : list call) :
  forall w,
    retriever_at w self index C ->
    exists new : list dict,
      objs (run_calls client self calls w) = objs w ++ map ODict new
      /\ files (run_calls client self calls w) = files w.
Proof.
  induction calls as [|c calls IH]; intros w Hwf; simpl.
  - exists []. by rewrite app_nil_r.
  - destruct (run_call_grows client w self index C c Hwf) as (new1 & Ho1 & Hf1).
    assert (retriever_at (run_call client self c w) self index C) as Hwf1.
    { pose proof (retriever_at_grows w (map ODict new1) self index C Hwf) as H.
      destruct H as (il & cl & Hs & Hi & cs & Hcl & Hcs).
      exists il, cl. unfold index_at, chunks_at. rewrite Ho1.
      split; [done|]. split; [done|]. exists cs. done. }
    destruct (IH _ Hwf1) as (new2 & Ho2 & Hf2).
    exists (new1 ++ new2). unfold run_calls in *. rewrite Ho2, Ho1, Hf2, Hf1.
    by rewrite map_app, app_assoc.
Qed.

(** C9.  On a retriever over an index and its chunk records, after any
    sequence of [search] and [ask] calls, returned or raised, every object
    that existed before is what it was: the retriever, its index, its chunk
    list and each stored record, and so are the files.  What a [search]
    returns are new objects: each is a stored record with the [distance]
    and [rank] fields set, at an address that did not exist before. *)
Theorem queries_leave_store_unchanged {F : Float32} (client : OpenAI) (w : world)
    (self : loc) (index : IndexFlatL2) (C : list dict) (calls : list call) :
  retriever_at w self index C ->
  retriever_at (run_calls client self calls w) self index C
  /\ (forall l o, objs w !! l = Some o ->
        objs (run_calls client self calls w) !! l = Some o)
  /\ files (run_calls client self calls w) = files w
  /\ (forall query k ls w1,
        RAGRetriever.search client self query k w = (Return ls, w1) ->
        Forall (fun l => (length (objs w) <= l)%nat
                         /\ exists stored distance rank,
                              stored ∈ C
                              /\ objs w1 !! l = Some (ODict (scored stored distance rank)))
               ls).
Proof.
  intros Hwf.
  destruct (run_calls_grow client self index C calls w Hwf) as (new & Ho & Hf).
  split; [|split; [|split]].
  - pose proof (retriever_at_grows w (map ODict new) self index C Hwf) as H.
    destruct H as (il & cl & Hs & Hi & cs & Hcl & Hcs).
    exists il, cl. unfold index_at, chunks_at. rewrite Ho.
    split; [done|]. split; [done|]. exists cs. done.
  - intros l o Hl. rewrite Ho. by apply lookup_app_l_Some.
  - exact Hf.
  - intros query k ls w1 Hrun.
    destruct (search_run client w self index C query k Hwf) as (new1 & Hrun1 & Hnew & Hall).
    rewrite Hrun in Hrun1.
    destruct (search_results client index C query k) as [ds|e]; [|done].
    injection Hrun1 as -> ->. rewrite (Hnew ds eq_refl) in Hall.
    apply Forall_forall. intros l Hl.
    apply list_elem_of_lookup in Hl as [i Hi]. apply lookup_seq in Hi as [-> Hi].
    split; [lia|].
    destruct (lookup_lt_is_Some_2 ds i Hi) as [c Hc].
    rewrite Forall_forall in Hall.
    destruct (Hall c) as (stored & distance & rank & Hin & ->);
      [by eapply list_elem_of_lookup_2|].
    exists stored, distance, rank. split; [done|]. cbn [objs].
    rewrite lookup_app_r by lia.
    replace (length (objs w) + i - length (objs w))%nat with i by lia.
    rewrite list_lookup_fmap. rewrite (Hnew ds eq_refl), Hc. done.
Qed.

Lemma queries_leave_store_unchanged_witness :
  objs (run_calls (F := Sample.exact) Sample.client Sample.self
          [Search (lit "ab") 2; Ask (lit "abc") 3 (lit "gpt-4o-mini"); Search (lit "a") 0]
          Sample.built) !! 0%nat
  = Some (ODict (Sample.chunk 0 "a.pdf")).
Proof.
  apply (queries_leave_store_unchanged (F := Sample.exact)
           Sample.client Sample.built Sample.self Sample.index Sample.C).
  - exists 3%nat, 2%nat. split; [reflexivity|]. split; [reflexivity|].
    exists [0%nat; 1%nat]. split; [reflexivity|]. repeat constructor.
  - reflexivity.
Defined.

(** ** Saving and loading *)

Lemma dump_loop (w : world) (cs : list loc) (C : list dict) :
  Forall2 (fun c items => objs w !! c = Some (ODict items)) cs C ->
  forall acc,
    foldM (fun acc c => items ← read_dict c; mret (acc ++ [items])) acc cs w
    = (Return (acc ++ C), w).
Proof.
  induction 1 as [|c items cs C Hc _ IH]; intros acc; simpl.
  - by rewrite app_nil_r.
  - rewrite !bind_run. unfold read_dict at 1. rewrite Hc.
    rewrite mret_run, IH. by rewrite <- app_assoc.
Qed.

Lemma pickle_dump_run (w : world) (cl : loc) (C : list dict) (path : string) :
  chunks_at w cl C ->
  pickle_dump cl path w
  = (Return tt, set_files (fun fs => <[path := PickleBlob C]> fs) w).
Proof.
  intros (cs & Hcl & Hcs). unfold pickle_dump.
  rewrite bind_run. unfold read_list. rewrite Hcl.
  rewrite bind_run, (dump_loop w cs C Hcs). done.
Qed.

(** *** Directories *)

Lemma ancestors_self (name : string) :
  name <> ""%string -> name ∈ ancestors (String.length name) name.
Proof.
  intros Hne. destruct name as [|c name]; [done|]. cbn [String.length ancestors].
  destruct (String.eqb_spec (String c name) ""); [done|].
  destruct (String.eqb (dirname (String c name)) (String c name)).
  - apply list_elem_of_here.
  - apply elem_of_app. right. apply list_elem_of_here.
Qed.

Lemma dirname_empty : dirname "" = ""%string.
Proof. reflexivity. Qed.

(** After [makedirs] of its directory, a file can be created at a path. *)
Lemma writable_made (w : world) (path : string) :
  dirname path <> ""%string ->
  writable (set_dirs (made (dirname path)) w) path = true.
Proof.
  intros Hdir. unfold writable, dir_exists, made. cbn [dirs set_dirs].
  destruct (String.eqb_spec path "") as [->|_]; [done|]. cbn [negb andb].
  apply orb_true_iff. right. apply bool_decide_eq_true_2.
  apply elem_of_union. right. apply elem_of_list_to_set.
  by apply ancestors_self.
Qed.

Lemma writable_same_dir (w : world) (path other : string) :
  other <> ""%string -> dirname other = dirname path ->
  writable w path = true -> writable w other = true.
Proof.
  unfold writable. intros Hne ->.
  destruct (String.eqb_spec other ""); [done|].
  by destruct (String.eqb path "").
Qed.

Lemma load_loop (ds : list dict) :
  forall (acc : list loc) (w : world),
    foldM (fun acc items => c ← alloc (ODict items); mret (acc ++ [c])) acc ds w
    = (Return (acc ++ seq (length (objs w)) (length ds)),
       set_objs (fun h => h ++ map ODict ds) w).
Proof.
  induction ds as [|items ds IH]; intros acc w; simpl.
  - rewrite set_objs_none, mret_run. by rewrite app_nil_r.
  - rewrite !bind_run. unfold alloc at 1. rewrite mret_run, IH.
    destruct w as [h fs dr log]. unfold set_objs. cbn [objs files dirs sent].
    rewrite length_app. cbn [length]. rewrite <- !app_assoc. cbn [app].
    replace (length h + 1)%nat with (S (length h)) by lia. done.
Qed.

(** The records at consecutive addresses. *)
Lemma records_at (before : list object) (C : list dict) (after : list object) :
  Forall2 (fun c items => (before ++ map ODict C ++ after) !! c = Some (ODict items))
          (seq (length before) (length C)) C.
Proof.
  apply Forall2_same_length_lookup. split; [by rewrite length_seq|].
  intros i c items Hc Hi. apply lookup_seq in Hc as [-> Hlt].
  rewrite lookup_app_r by lia.
  replace (length before + i - length before)%nat with i by lia.
  rewrite lookup_app_l by (by rewrite length_map).
  by rewrite list_lookup_fmap, Hi.
Qed.

Import EmbeddingManager.

(** [load_index] when both files hold what [save_index] writes: the index
    and the records come back as new objects, whatever their sizes. *)
Lemma load_index_run (self : manager) (ip cp : string) (w : world) index C :
  files w !! ip = Some (FaissBlob index) ->
  files w !! cp = Some (PickleBlob C) ->
  load_index self ip cp w
  = (Return (length (objs w), (length (objs w) + 1 + length C)%nat),
     set_objs (fun h => h ++ [OIndex index] ++ map ODict C
                          ++ [OList (seq (length (objs w) + 1) (length C))]) w).
Proof.
  intros Hip Hcp. unfold load_index.
  rewrite bind_run. unfold read_index. rewrite Hip. unfold alloc at 1.
  destruct w as [h fs dr log]. unfold set_objs. cbn [objs files dirs sent] in *.
  rewrite bind_run. unfold read_index_object. cbn [objs].
  rewrite list_lookup_middle by done.
  rewrite bind_run. unfold open_rb. cbn [files]. rewrite Hcp.
  rewrite bind_run. unfold pickle_load. rewrite bind_run, load_loop.
  unfold set_objs, alloc. cbn [objs files dirs sent app].
  rewrite bind_run. unfold read_list, set_objs. cbn [objs files dirs sent].
  rewrite !length_app, length_map. cbn [length].
  rewrite list_lookup_middle by (rewrite !length_app, length_map; simpl; lia).
  rewrite mret_run. rewrite <- !app_assoc. done.
Qed.

Lemma loaded_shapes (w : world) index C :
  let w' := set_objs (fun h => h ++ [OIndex index] ++ map ODict C
                                 ++ [OList (seq (length (objs w) + 1) (length C))]) w in
  index_at w' (length (objs w)) index
  /\ chunks_at w' (length (objs w) + 1 + length C)%nat C
  /\ (forall l o, objs w !! l = Some o -> objs w' !! l = Some o).
Proof.
  destruct w as [h fs dr log]. unfold set_objs. cbn [objs files dirs sent].
  split; [|split].
  - unfold index_at. cbn [objs]. by apply list_lookup_middle.
  - exists (seq (length h + 1) (length C)). cbn [objs]. split.
    + rewrite (app_assoc h), (app_assoc (h ++ _)).
      apply list_lookup_middle. rewrite !length_app, length_map. simpl. lia.
    + rewrite (app_assoc h).
      replace (length h + 1)%nat with (length (h ++ [OIndex index]))
        by (rewrite length_app; simpl; lia).
      apply records_at.
  - intros l o Hl. cbn [objs]. by apply lookup_app_l_Some.
Qed.

(** [save_index] when the directory of the chunk file is there once the
    directory of the index file has been made: both files are written, and
    the directory of the index file is made. *)
Lemma save_index_run (self : manager) (il cl : loc) (ip cp : string) (w : world)
    index C :
  index_at w il index -> chunks_at w cl C -> dirname ip <> ""%string ->
  writable (set_dirs (made (dirname ip)) w) cp = true ->
  save_index self il cl ip cp w
  = (Return tt,
     set_files (fun fs => <[cp := PickleBlob C]> (<[ip := FaissBlob index]> fs))
               (set_dirs (made (dirname ip)) w)).
Proof.
  intros Hi Hc Hdir Hcp. unfold save_index.
  rewrite bind_run. unfold makedirs.
  destruct (String.eqb_spec (dirname ip) ""); [done|].
  pose proof (writable_made w ip Hdir) as Hip.
  set (w1 := set_dirs (made (dirname ip)) w) in *.
  rewrite bind_run. unfold write_index. rewrite bind_run.
  unfold read_index_object. change (objs w1) with (objs w).
  unfold index_at in Hi. rewrite Hi.
  unfold write_file at 1. rewrite Hip.
  rewrite bind_run. unfold open_wb, write_file.
  change (writable (set_files _ w1) cp) with (writable w1 cp). rewrite Hcp.
  rewrite bind_run.
  rewrite (pickle_dump_run _ cl C cp) by (destruct Hc as (cs & ? & ?); by exists cs).
  unfold file_write.
  destruct w1 as [h fs dr log]. unfold set_files, getsize. cbn [objs files dirs sent].
  rewrite insert_insert_eq.
  rewrite bind_run. cbn [files].
  assert (is_Some ((<[cp := PickleBlob C]> (<[ip := FaissBlob index]> fs)) !! ip))
    as [b ->].
  { destruct (decide (ip = cp)) as [->|Hne].
    - rewrite lookup_insert_eq. by eexists.
    - rewrite lookup_insert_ne by done. rewrite lookup_insert_eq. by eexists. }
  rewrite bind_run. cbn [files]. rewrite lookup_insert_eq. done.
Qed.

Lemma init_run (il cl : loc) (api_key : str) (w : world) index C :
  api_key <> [] -> index_at w il index -> chunks_at w cl C ->
  RAGRetriever.init il cl api_key w
  = (Return (length (objs w)), set_objs (fun h => h ++ [ORetriever il cl]) w)
  /\ retriever_at (set_objs (fun h => h ++ [ORetriever il cl]) w)
                  (length (objs w)) index C.
Proof.
  intros Hkey Hi Hc. split.
  - destruct Hc as (cs & Hcl & _). unfold RAGRetriever.init.
    destruct api_key; [done|].
    rewrite bind_run. unfold read_list. rewrite Hcl.
    rewrite bind_run. unfold read_index_object. unfold index_at in Hi. by rewrite Hi.
  - exists il, cl. split; [|split].
    + destruct w. cbn. by apply list_lookup_middle.
    + by apply index_at_grows.
    + by apply chunks_at_grows.
Qed.

(** What a search shows depends on the index and the records as values,
    not on where the objects are. *)
Lemma observe_search {F : Float32} (client : OpenAI) (w : world) (self : loc)
    index C (query : str) (k : Z) :
  retriever_at w self index C ->
  observe (RAGRetriever.search client self query k w)
  = match search_results client index C query k with
    | Return ds => Return (map (fun items => Some (ODict items)) ds)
    | Raise e => Raise e
    end.
Proof.
  intros Hwf.
  destruct (search_run client w self index C query k Hwf) as (new & -> & Hnew & _).
  destruct (search_results client index C query k) as [ds|e]; [|done].
  rewrite (Hnew ds eq_refl). cbn [observe objs]. f_equal.
  apply list_eq. intros i. rewrite !list_lookup_fmap.
  destruct (decide (i < length ds)%nat) as [Hlt|Hge].
  - rewrite lookup_seq_lt by done. cbn.
    rewrite lookup_app_r by lia.
    replace (length (objs w) + i - length (objs w))%nat with i by lia.
    destruct (lookup_lt_is_Some_2 ds i Hlt) as [c Hc].
    by rewrite list_lookup_fmap, Hc.
  - rewrite lookup_seq_ge by lia. by rewrite (lookup_ge_None_2 ds) by lia.
Qed.

(** C4, as stated, fails: storage whose vector file holds two vectors and
    whose chunk file holds one record is loaded without complaint; and
    with no file at all the error is the reader's [RuntimeError]. *)
Lemma load_index_accepts_mismatch :
  (EmbeddingManager.load_index Sample.manager
     EmbeddingManager.default_index_path EmbeddingManager.default_chunks_path
     Sample.mismatched).1
  = Return (0%nat, 2%nat)
  /\ ntotal Sample.index = 2
  /\ len [Sample.chunk 0 "a.pdf"] = 1
  /\ (EmbeddingManager.load_index Sample.manager
        EmbeddingManager.default_index_path EmbeddingManager.default_chunks_path
        (mkWorld [] ∅ ∅ [])).1
     = Raise RuntimeError.
Proof. repeat split; reflexivity. Qed.

(** C4, amended.  [load_index] fails whenever one of the two files is
    missing, with the error of the reader that misses its file:
    [RuntimeError] from the index reader when the vector file is missing,
    [FileNotFoundError] from [open] when the vector file is there and the
    chunk file is not.  When both files hold what [save_index] writes, it
    returns the index and the records as stored, and does not compare how
    many vectors and how many records there are.  [index_exists] tells
    whether both files exist. *)
Theorem load_index_outcomes (self : manager) (ip cp : string) (w : world) :
  (files w !! ip = None \/ files w !! cp = None ->
     exists e, (EmbeddingManager.load_index self ip cp w).1 = Raise e
               /\ (e = RuntimeError \/ e = FileNotFoundError))
  /\ (files w !! ip = None ->
        EmbeddingManager.load_index self ip cp w = (Raise RuntimeError, w))
  /\ (forall index, files w !! ip = Some (FaissBlob index) -> files w !! cp = None ->
        (EmbeddingManager.load_index self ip cp w).1 = Raise FileNotFoundError)
  /\ (forall index C,
        files w !! ip = Some (FaissBlob index) ->
        files w !! cp = Some (PickleBlob C) ->
        exists il cl w',
          EmbeddingManager.load_index self ip cp w = (Return (il, cl), w')
          /\ index_at w' il index /\ chunks_at w' cl C
          /\ files w' = files w
          /\ (forall l o, objs w !! l = Some o -> objs w' !! l = Some o))
  /\ (EmbeddingManager.index_exists self ip cp w).1
     = Return (bool_decide (is_Some (files w !! ip))
               && bool_decide (is_Some (files w !! cp))).
Proof.
  assert (files w !! ip = None ->
          EmbeddingManager.load_index self ip cp w = (Raise RuntimeError, w)) as Hno_index.
  { intros Hip. unfold load_index. rewrite bind_run. unfold read_index. by rewrite Hip. }
  assert (forall index, files w !! ip = Some (FaissBlob index) -> files w !! cp = None ->
          (EmbeddingManager.load_index self ip cp w).1 = Raise FileNotFoundError)
    as Hno_chunks.
  { intros index Hip Hcp. unfold load_index. rewrite bind_run.
    unfold read_index. rewrite Hip. unfold alloc at 1.
    destruct w as [h fs dr log]. unfold set_objs. cbn [objs files dirs sent] in *.
    rewrite bind_run. unfold read_index_object. cbn [objs].
    rewrite list_lookup_middle by done.
    rewrite bind_run. unfold open_rb. cbn [files]. by rewrite Hcp. }
  split; [|split; [exact Hno_index|split; [exact Hno_chunks|split]]].
  - intros Hmiss.
    destruct (files w !! ip) as [[|index|C]|] eqn:Hip.
    + exists RuntimeError. split; [|by left].
      unfold load_index. rewrite bind_run. unfold read_index. by rewrite Hip.
    + destruct Hmiss as [|Hcp]; [done|].
      exists FileNotFoundError. split; [|by right]. by eapply Hno_chunks.
    + exists RuntimeError. split; [|by left].
      unfold load_index. rewrite bind_run. unfold read_index. by rewrite Hip.
    + exists RuntimeError. split; [|by left]. by rewrite Hno_index.
  - intros index C Hip Hcp.
    rewrite (load_index_run self ip cp w index C Hip Hcp).
    destruct (loaded_shapes w index C) as (Hi & Hc & Hold).
    do 3 eexists. split; [reflexivity|]. split; [exact Hi|]. split; [exact Hc|].
    split; [by destruct w|exact Hold].
  - unfold index_exists. rewrite bind_run. unfold exists_. cbv beta iota.
    destruct (bool_decide (is_Some (files w !! ip))); done.
Qed.

Lemma load_index_outcomes_witness :
  EmbeddingManager.load_index Sample.manager
    EmbeddingManager.default_index_path EmbeddingManager.default_chunks_path
    Sample.built
  = (Raise RuntimeError, Sample.built)
  /\ exists il cl w',
       EmbeddingManager.load_index Sample.manager
         EmbeddingManager.default_index_path EmbeddingManager.default_chunks_path
         Sample.mismatched
       = (Return (il, cl), w')
       /\ index_at w' il Sample.index.
Proof.
  split.
  - apply (load_index_outcomes Sample.manager
             EmbeddingManager.default_index_path EmbeddingManager.default_chunks_path
             Sample.built).
    reflexivity.
  - destruct (load_index_outcomes Sample.manager
                EmbeddingManager.default_index_path EmbeddingManager.default_chunks_path
                Sample.mismatched) as (_ & _ & _ & Hboth & _).
    destruct (Hboth Sample.index [Sample.chunk 0 "a.pdf"] eq_refl eq_refl)
      as (il & cl & w' & Hrun & Hi & _).
    exists il, cl, w'. split; [exact Hrun|exact Hi].
Defined.

Lemma normal_nonempty (p : string) : normal p = true -> p <> ""%string.
Proof. by intros H ->. Qed.

(** C8.  Take an index and a chunk list in the store, and for the two
    files two different paths in normal form that name two entries of one
    directory, as the default paths do; the directory need not exist.  Then
    [save_index] returns, [load_index] on the same paths returns, and what
    it returns holds the same index and the same records.  For every
    query and every [k], a retriever made on the loaded pair and a
    retriever made on the pair that was saved show the same outcome of
    [search]: the same records with the same distances and ranks in the
    same order, or the same exception.  The objects that were saved are
    not changed. *)
Theorem save_load_round_trip {F : Float32} (client : OpenAI) (self : manager)
    (w : world) (il cl : loc) (index : IndexFlatL2) (C : list dict)
    (ip cp : string) (api_key : str) :
  index_at w il index -> chunks_at w cl C ->
  normal ip = true -> normal cp = true ->
  ip <> cp -> dirname ip <> ""%string -> dirname cp = dirname ip ->
  api_key <> [] ->
  exists w1 il' cl' w2,
    EmbeddingManager.save_index self il cl ip cp w = (Return tt, w1)
    /\ EmbeddingManager.load_index self ip cp w1 = (Return (il', cl'), w2)
    /\ index_at w2 il' index /\ chunks_at w2 cl' C
    /\ (forall l o, objs w !! l = Some o -> objs w2 !! l = Some o)
    /\ (forall query k,
          observe ((RAGRetriever.init il' cl' api_key
                      ≫= fun r => RAGRetriever.search client r query k) w2)
          = observe ((RAGRetriever.init il cl api_key
                        ≫= fun r => RAGRetriever.search client r query k) w)).
Proof.
  intros Hi Hc Hnip Hncp Hne Hdir Hsame Hkey.
  set (w1 := set_files (fun fs => <[cp := PickleBlob C]> (<[ip := FaissBlob index]> fs))
                       (set_dirs (made (dirname ip)) w)).
  assert (files w1 !! ip = Some (FaissBlob index)) as Hip.
  { unfold w1. destruct w. cbn. rewrite lookup_insert_ne by done.
    by rewrite lookup_insert_eq. }
  assert (files w1 !! cp = Some (PickleBlob C)) as Hcp.
  { unfold w1. destruct w. cbn. by rewrite lookup_insert_eq. }
  destruct (loaded_shapes w1 index C) as (Hi2 & Hc2 & Hold).
  eexists w1, _, _, _.
  split.
  { apply save_index_run; [done..|].
    apply (writable_same_dir _ ip cp);
      [by apply normal_nonempty|done|by apply writable_made]. }
  split; [by apply load_index_run|].
  split; [exact Hi2|]. split; [exact Hc2|].
  split; [intros l o Hl; apply Hold; by destruct w|].
  intros query k.
  destruct (init_run _ _ api_key _ index C Hkey Hi2 Hc2) as [Hinit2 Hwf2].
  destruct (init_run il cl api_key w index C Hkey Hi Hc) as [Hinit Hwf].
  rewrite !bind_run, Hinit2, Hinit.
  rewrite (observe_search client _ _ index C query k Hwf2).
  rewrite (observe_search client _ _ index C query k Hwf). done.
Qed.

Lemma save_load_round_trip_witness :
  exists w1 il' cl' w2,
    EmbeddingManager.save_index Sample.manager 3%nat 2%nat
      EmbeddingManager.default_index_path EmbeddingManager.default_chunks_path
      Sample.built
    = (Return tt, w1)
    /\ EmbeddingManager.load_index Sample.manager
         EmbeddingManager.default_index_path EmbeddingManager.default_chunks_path w1
       = (Return (il', cl'), w2)
    /\ index_at w2 il' Sample.index /\ chunks_at w2 cl' Sample.C.
Proof.
  destruct (save_load_round_trip (F := Sample.exact)
              Sample.client Sample.manager Sample.built
              3%nat 2%nat Sample.index Sample.C
              EmbeddingManager.default_index_path EmbeddingManager.default_chunks_path
              (lit "sk-test"))
    as (w1 & il' & cl' & w2 & Hsave & Hload & Hi & Hc & _).
  - reflexivity.
  - exists [0%nat; 1%nat]. split; [reflexivity|]. repeat constructor.
  - reflexivity.
  - reflexivity.
  - discriminate.
  - discriminate.
  - reflexivity.
  - discriminate.
  - exists w1, il', cl', w2. auto.
Defined.

(** * Further properties *)

(** ** Words *)

Lemma rstrip_app_space (p : str) : rstrip (p ++ [SPACE]) = rstrip p.
Proof.
  induction p as [|c p IH]; [done|]. simpl. by rewrite IH.
Qed.

Lemma rstrip_app (a b : str) : rstrip b <> [] -> rstrip (a ++ b) = a ++ rstrip b.
Proof.
  intros Hb. induction a as [|c a IH]; [done|]. simpl. rewrite IH.
  destruct (a ++ rstrip b) eqn:E; [|done].
  apply app_eq_nil in E as [_ E]. done.
Qed.

Lemma rstrip_word_end (p : str) (c : char) :
  isspace c = false -> rstrip (p ++ [c]) = p ++ [c].
Proof.
  intros Hc. rewrite rstrip_app; simpl; by rewrite Hc.
Qed.

Lemma sub_spaces_after_space (s : str) :
  sub_spaces true s = sub_spaces false (lstrip s).
Proof.
  induction s as [|c s IH]; [done|]. simpl.
  destruct (isspace c) eqn:Hc; [done|]. simpl. by rewrite Hc.
Qed.

Lemma lstrip_sub_spaces (s : str) :
  lstrip (sub_spaces true s) = sub_spaces true s.
Proof.
  induction s as [|c s IH]; [done|]. cbn [sub_spaces].
  destruct (isspace c) eqn:Hc; [done|]. cbn [lstrip]. by rewrite Hc.
Qed.

Lemma strip_sub_spaces_start (s : str) :
  strip (sub_spaces false s) = rstrip (sub_spaces true s).
Proof.
  unfold strip. f_equal. destruct s as [|c s]; [done|]. cbn [sub_spaces].
  destruct (isspace c) eqn:Hc.
  - cbn [lstrip]. change (isspace SPACE) with true. cbv iota.
    apply lstrip_sub_spaces.
  - cbn [lstrip]. by rewrite Hc.
Qed.

Lemma split_from_nonempty (s : str) :
  forall cur, cur <> [] -> split_from cur s <> [].
Proof.
  induction s as [|c s IH]; intros cur Hcur; simpl.
  - by destruct cur.
  - destruct (isspace c); [by destruct cur|]. by apply IH.
Qed.

Lemma join_cons (sep w : str) (ws : list str) :
  join sep (w :: ws)
  = w ++ match ws with [] => [] | _ => sep ++ join sep ws end.
Proof. destruct ws; simpl; [by rewrite app_nil_r|done]. Qed.

(** The three states of the scan of [clean_text] against [split]: inside
    a word, after the whitespace that follows a word, and before the first
    word. *)
Lemma clean_scan (s : str) :
  (forall c0 cur, isspace c0 = false ->
     rstrip (rev (c0 :: cur) ++ sub_spaces false s)
     = join [SPACE] (split_from (c0 :: cur) s))
  /\ (forall p, p <> [] -> rstrip p = p ->
        rstrip (p ++ SPACE :: sub_spaces true s)
        = p ++ match split_from [] s with
               | [] => []
               | ws => SPACE :: join [SPACE] ws
               end)
  /\ rstrip (sub_spaces true s) = join [SPACE] (split_from [] s).
Proof.
  induction s as [|c s (IH1 & IH2 & IH3)].
  - split; [|split]; [|intros p _ Hp|done].
    + intros c0 cur Hc0. cbn [sub_spaces split_from join]. rewrite app_nil_r.
      cbn [rev]. by apply rstrip_word_end.
    + cbn. change (p ++ [SPACE]) with (p ++ [SPACE]).
      by rewrite rstrip_app_space, Hp, app_nil_r.
  - destruct (isspace c) eqn:Hc.
    + split; [|split].
      * intros c0 cur Hc0. cbn [sub_spaces split_from]. rewrite Hc.
        rewrite IH2.
        -- rewrite join_cons. f_equal. by destruct (split_from [] s).
        -- cbn [rev]. by destruct (rev cur).
        -- cbn [rev]. by apply rstrip_word_end.
      * intros p Hne Hp. cbn [sub_spaces split_from]. rewrite Hc. by apply IH2.
      * cbn [sub_spaces split_from]. by rewrite Hc.
    + split; [|split].
      * intros c0 cur Hc0. cbn [sub_spaces split_from]. rewrite Hc.
        rewrite <- (IH1 c (c0 :: cur) Hc). cbn [rev]. by rewrite <- !app_assoc.
      * intros p Hne Hp. cbn [sub_spaces split_from]. rewrite Hc.
        pose proof (IH1 c [] Hc) as H1. cbn [rev app] in H1.
        pose proof (split_from_nonempty s [c] ltac:(done)) as Hws.
        assert (rstrip (c :: sub_spaces false s) <> []) as Hr.
        { rewrite H1. destruct (split_from [c] s) as [|w ws] eqn:E; [done|].
          apply (f_equal (@length _)) in H1. intros Hnil. rewrite Hnil in H1.
          simpl in H1. destruct (rstrip (sub_spaces false s)); destruct (isspace c); done. }
        rewrite (rstrip_app p (SPACE :: c :: sub_spaces false s)).
        -- f_equal. change (SPACE :: c :: sub_spaces false s)
             with ([SPACE] ++ c :: sub_spaces false s).
           rewrite rstrip_app by done. rewrite H1.
           by destruct (split_from [c] s).
        -- change (SPACE :: c :: sub_spaces false s)
             with ([SPACE] ++ c :: sub_spaces false s).
           by rewrite rstrip_app.
      * cbn [sub_spaces split_from]. rewrite Hc. apply (IH1 c [] Hc).
Qed.

Lemma split_from_words (s : str) :
  forall cur, Forall (fun c => isspace c = false) cur ->
              Forall is_word (split_from cur s).
Proof.
  induction s as [|c s IH]; intros cur Hcur; simpl.
  - destruct cur as [|c0 cur]; [constructor|]. repeat constructor.
    + simpl. by destruct (rev cur).
    + apply Forall_forall. intros x Hx. rewrite Forall_forall in Hcur.
      apply Hcur. apply list_elem_of_In. apply in_rev. by apply list_elem_of_In.
  - destruct (isspace c) eqn:Hc.
    + destruct cur as [|c0 cur]; [by apply IH|]. constructor; [|by apply IH].
      split.
      * simpl. by destruct (rev cur).
      * apply Forall_forall. intros x Hx. rewrite Forall_forall in Hcur.
        apply Hcur. apply list_elem_of_In. apply in_rev. by apply list_elem_of_In.
    + apply IH. by constructor.
Qed.

Lemma split_words (s : str) : Forall is_word (split s).
Proof. apply split_from_words. constructor. Qed.

Lemma split_from_word (w rest : str) :
  Forall (fun c => isspace c = false) w ->
  forall cur, split_from cur (w ++ rest) = split_from (rev w ++ cur) rest.
Proof.
  induction 1 as [|c w Hc _ IH]; intros cur; [done|].
  simpl. rewrite Hc, IH. by rewrite <- app_assoc.
Qed.

(** Splitting what [join] made of words gives the words back. *)
Lemma split_join (ws : list str) :
  Forall is_word ws -> split (join [SPACE] ws) = ws.
Proof.
  unfold split. induction 1 as [|w ws [Hne Hw] _ IH]; [done|].
  rewrite join_cons. rewrite (split_from_word w _ Hw). rewrite app_nil_r.
  assert (rev w <> []) as Hrev.
  { intros E. apply (f_equal (@rev _)) in E. rewrite rev_involutive in E. done. }
  destruct ws as [|w' ws].
  - simpl. destruct (rev w) eqn:E; [done|]. rewrite <- E. by rewrite rev_involutive.
  - cbn [app split_from]. change (isspace SPACE) with true. cbv iota.
    rewrite IH. destruct (rev w) eqn:E; [done|]. rewrite <- E.
    by rewrite rev_involutive.
Qed.

Lemma clean_text_join (text : str) :
  clean_text text = join [SPACE] (split text).
Proof.
  destruct (strip_sub_spaces text) as (Hss & _).
  unfold clean_text.
  rewrite (sub_newlines_fixed _ 0 (single_spaced_no_newline _ _ Hss)).
  rewrite strip_sub_spaces_start. apply clean_scan.
Qed.

(** X1.  [clean_text] gives the words of the text joined by single spaces,
    and so cleaning does not change the words that [chunk_text] sees. *)
Theorem clean_text_joins_words (text : str) :
  clean_text text = join [SPACE] (split text)
  /\ split (clean_text text) = split text.
Proof.
  split; [apply clean_text_join|].
  rewrite clean_text_join. apply split_join, split_words.
Qed.

(** ** More on chunking *)

Lemma words_nonempty_len (words : list str) : words <> [] -> 0 < len words.
Proof. intros H. unfold len. destruct words; [done|]. simpl. lia. Qed.

(** What [chunk_text] returns when the window exceeds the overlap and the
    text has a word. *)
Lemma chunk_text_returns (text : str) (W V : Z) :
  0 < W - V -> split text <> [] ->
  chunk_text text W V
  = Return (imap (chunk_at (split text) W)
                 (map (fun j : nat => Z.of_nat j * (W - V))
                      (seq 0 (Z.to_nat (range_length 0 (len (split text)) (W - V)))))).
Proof.
  intros Hstep Hwords. unfold chunk_text.
  rewrite (chunk_loop_offsets _ W V Hstep). cbn [mbind result_bind].
  pose proof (words_nonempty_len _ Hwords) as HN.
  pose proof (offsets_count _ _ HN Hstep) as Hn.
  pose proof (Z.div_pos (len (split text) - 1) (W - V) ltac:(lia) Hstep).
  rewrite report_nonempty; [done| |].
  - intros Hnil. apply (f_equal (@length _)) in Hnil.
    rewrite length_imap, length_map, length_seq in Hnil. simpl in Hnil. lia.
  - apply Forall_forall. intros c Hc.
    apply list_elem_of_lookup in Hc as [j Hj].
    apply lookup_chunks in Hj as [_ ->]. by eexists.
Qed.

(** X2.  [chunk_text] returns exactly when the window exceeds the overlap
    and the text has at least one word.  With window equal to overlap it
    raises [ValueError]; in every other case it raises
    [ZeroDivisionError]. *)
Theorem chunk_text_outcome (text : str) (W V : Z) :
  ((exists chunks, chunk_text text W V = Return chunks)
     <-> V < W /\ split text <> [])
  /\ (W = V -> chunk_text text W V = Raise ValueError)
  /\ (W <> V -> (W < V \/ split text = []) ->
        chunk_text text W V = Raise ZeroDivisionError).
Proof.
  assert (W = V -> chunk_text text W V = Raise ValueError) as Heq.
  { intros ->. unfold chunk_text, chunk_loop, py_range. by rewrite Z.sub_diag. }
  assert (W <> V -> (W < V \/ split text = []) ->
          chunk_text text W V = Raise ZeroDivisionError) as Hzero.
  { intros Hne Hcase. unfold chunk_text, chunk_loop, py_range.
    destruct (Z.eqb_spec (W - V) 0); [lia|]. cbn [mbind result_bind].
    replace (range_length 0 (len (split text)) (W - V)) with 0; [done|].
    destruct Hcase as [Hlt|Hnil].
    - symmetry. apply range_length_down; [apply len_nonneg|lia].
    - rewrite Hnil. change (len []) with 0. by rewrite range_length_zero. }
  split; [|split; [exact Heq|exact Hzero]].
  split.
  - intros [chunks Hret].
    destruct (Z.eq_dec W V) as [HWV|HWV]; [by rewrite Heq in Hret|].
    destruct (Z_lt_le_dec V W) as [Hlt|Hle].
    + split; [done|]. intros Hnil. rewrite Hzero in Hret; [done..|by right].
    + rewrite Hzero in Hret; [done..|left; lia].
  - intros [Hlt Hwords]. eexists. apply chunk_text_returns; [lia|done].
Qed.

Lemma is_word_sublist (ws : list str) (a b : nat) :
  Forall is_word ws -> Forall is_word (take a (drop b ws)).
Proof. intros H. by apply Forall_take, Forall_drop. Qed.

(** X3.  With a positive window that exceeds the overlap, splitting the
    text of a chunk gives back exactly the words of its span: the chunk
    holds [end_word - start_word] words, at least one and at most [W]. *)
Theorem chunk_text_words (text : str) (W V : Z) :
  0 < W -> V < W -> split text <> [] ->
  exists chunks,
    chunk_text text W V = Return chunks
    /\ forall (j : nat) c, chunks !! j = Some c ->
         exists t s e,
           get_str c "text" = Some t
           /\ start_word c = Some s /\ end_word c = Some e
           /\ split t = take (Z.to_nat (e - s)) (drop (Z.to_nat s) (split text))
           /\ len (split t) = e - s
           /\ 0 < e - s <= W.
Proof.
  intros HW HV Hwords. eexists. split; [apply chunk_text_returns; [lia|done]|].
  intros j c Hj. apply lookup_chunks in Hj as [Hjn ->].
  set (words := split text) in *. set (N := len words). set (step := W - V) in *.
  pose proof (words_nonempty_len _ Hwords) as HN. fold N in HN.
  assert (0 < step) as Hstep by (unfold step; lia).
  pose proof (offsets_count N step HN Hstep) as Hn.
  pose proof (Z.div_pos (N - 1) step ltac:(lia) Hstep) as Hdiv.
  assert (Z.of_nat j * step <= N - 1) as Hbelow.
  { assert (Z.of_nat j <= (N - 1) / step) by (fold N in Hjn; lia).
    pose proof (Z.mul_div_le (N - 1) step Hstep). nia. }
  set (s := Z.of_nat j * step) in *.
  assert (take (Z.to_nat W) (drop (Z.to_nat s) words)
          = take (Z.to_nat (Z.min (s + W) N - s)) (drop (Z.to_nat s) words)) as Htake.
  { destruct (Z_le_gt_dec (s + W) N).
    - rewrite Z.min_l by lia. f_equal. lia.
    - rewrite Z.min_r by lia. rewrite !take_ge; [done| |];
        rewrite length_drop; unfold N, len in *; lia. }
  exists (join [SPACE] (py_slice words s (s + W))), s, (Z.min (s + W) N).
  split; [reflexivity|]. split; [reflexivity|]. split; [reflexivity|].
  assert (0 <= s) by (unfold s; lia).
  rewrite py_slice_window by lia. rewrite Htake.
  rewrite split_join by (apply is_word_sublist, split_words).
  split; [done|]. split; [|lia].
  unfold len. rewrite length_take, length_drop. unfold N, len in *. lia.
Qed.

Lemma chunk_text_words_witness :
  exists chunks, chunk_text (lit "a b  c d e") 3 1 = Return chunks.
Proof.
  destruct (chunk_text_words (lit "a b  c d e") 3 1) as (chunks & Hret & _);
    [lia|lia|discriminate|].
  exists chunks. exact Hret.
Defined.

Lemma chunk_text_outcome_witness :
  chunk_text (lit "a b") 2 2 = Raise ValueError
  /\ chunk_text (lit "  ") 3 1 = Raise ZeroDivisionError.
Proof.
  split.
  - apply (chunk_text_outcome (lit "a b") 2 2). reflexivity.
  - apply (chunk_text_outcome (lit "  ") 3 1); [lia|]. right. reflexivity.
Defined.

(** X4.  Without overlap the chunks cut the text into consecutive pieces:
    the words of the chunks, one chunk after the other, are the words of
    the text, none lost and none repeated. *)
Theorem chunk_text_partition (text : str) (W : Z) :
  0 < W -> split text <> [] ->
  exists chunks texts,
    chunk_text text W 0 = Return chunks
    /\ Forall2 (fun c t => get_str c "text" = Some t) chunks texts
    /\ concat (map split texts) = split text.
Proof.
  intros HW Hwords.
  set (words := split text) in *. set (N := len words).
  pose proof (words_nonempty_len _ Hwords) as HN. fold N in HN.
  set (n := Z.to_nat (range_length 0 N (W - 0))).
  set (b := Z.to_nat W).
  exists (imap (chunk_at words W) (map (fun j : nat => Z.of_nat j * (W - 0)) (seq 0 n))),
         (map (fun j : nat => join [SPACE] (take b (drop (j * b) words))) (seq 0 n)).
  split; [apply chunk_text_returns; [lia|done]|]. split.
  - apply Forall2_same_length_lookup. split.
    + by rewrite length_imap, !length_map.
    + intros j c t Hc Ht. apply lookup_chunks in Hc as [Hjn ->].
      rewrite list_lookup_fmap, lookup_seq_lt in Ht by done. injection Ht as <-.
      cbn. unfold get_str, chunk_at. cbn. do 2 f_equal.
      rewrite py_slice_window by lia. do 2 f_equal. unfold b. lia.
  - rewrite map_map.
    erewrite map_ext_in.
    2: { intros j _. apply split_join, is_word_sublist, split_words. }
    rewrite concat_batches. apply take_ge.
    unfold n. rewrite Z.sub_0_r.
    pose proof (offsets_count N W HN HW) as Hn.
    pose proof (Z.mul_succ_div_gt (N - 1) W HW).
    pose proof (Z.div_pos (N - 1) W ltac:(lia) HW).
    unfold N, len, b in *. nia.
Qed.

Lemma chunk_text_partition_witness :
  exists chunks, chunk_text (lit "a b c d e") 2 0 = Return chunks.
Proof.
  destruct (chunk_text_partition (lit "a b c d e") 2) as (chunks & texts & Hret & _);
    [lia|discriminate|].
  exists chunks. exact Hret.
Defined.

(** X5.  A text that fits in one window still gives one chunk per step of
    [W - V] words: the first chunk holds the whole cleaned text, and every
    further chunk repeats the text from its start offset to the end.  So
    only a text of at most [W - V] words gives a single chunk. *)
Theorem chunk_text_short_text (text : str) (W V : Z) :
  0 <= V < W -> split text <> [] -> len (split text) <= W ->
  exists chunks,
    chunk_text text W V = Return chunks
    /\ len chunks = (len (split text) - 1) / (W - V) + 1
    /\ (exists c, chunks !! 0%nat = Some c
                  /\ get_str c "text" = Some (clean_text text))
    /\ (forall (j : nat) c, chunks !! j = Some c ->
          get_str c "text"
          = Some (join [SPACE] (drop (Z.to_nat (Z.of_nat j * (W - V))) (split text)))
          /\ end_word c = Some (len (split text)))
    /\ (len (split text) <= W - V -> len chunks = 1).
Proof.
  intros HV Hwords Hfit.
  set (words := split text) in *. set (N := len words) in *.
  pose proof (words_nonempty_len _ Hwords) as HN. fold N in HN.
  set (step := W - V). assert (0 < step) as Hstep by (unfold step; lia).
  pose proof (offsets_count N step HN Hstep) as Hn.
  pose proof (Z.div_pos (N - 1) step ltac:(lia) Hstep) as Hdiv.
  eexists. split; [apply chunk_text_returns; [lia|done]|].
  fold words N step.
  assert (forall (j : nat) c,
            imap (chunk_at words W)
              (map (fun j : nat => Z.of_nat j * step)
                 (seq 0 (Z.to_nat (range_length 0 N step)))) !! j = Some c ->
            get_str c "text"
            = Some (join [SPACE] (drop (Z.to_nat (Z.of_nat j * step)) words))
            /\ end_word c = Some N) as Hall.
  { intros j c Hj. apply lookup_chunks in Hj as [Hjn ->]. split.
    - unfold get_str, chunk_at. cbn. do 2 f_equal.
      rewrite py_slice_window by lia. apply take_ge.
      rewrite length_drop. unfold N, len in *. lia.
    - unfold end_word, get_int, chunk_at. cbn. do 2 f_equal. fold N. lia. }
  split; [|split; [|split; [exact Hall|]]].
  - unfold len at 1. rewrite length_imap, length_map, length_seq. exact Hn.
  - assert (0 < Z.to_nat (range_length 0 N step))%nat as Hpos by lia.
    eexists. split; [by apply lookup_chunks|].
    unfold get_str, chunk_at. cbn. do 2 f_equal.
    rewrite clean_text_join. fold words. f_equal.
    change (0 * step) with 0.
    rewrite py_slice_window by lia. simpl. apply take_ge. unfold N, len in *. lia.
  - intros Hone. unfold len at 1. rewrite length_imap, length_map, length_seq, Hn.
    rewrite Z.div_small by lia. done.
Qed.

Lemma chunk_text_short_text_witness :
  exists chunks, chunk_text (lit "a b c") 4 1 = Return chunks /\ len chunks = 1.
Proof.
  destruct (chunk_text_short_text (lit "a b c") 4 1)
    as (chunks & Hret & _ & _ & _ & Hone).
  - lia.
  - discriminate.
  - vm_compute. discriminate.
  - exists chunks. split; [exact Hret|]. apply Hone. vm_compute. discriminate.
Defined.

(** ** The corpus *)

Import Extraction.

Lemma split_clean_text (text : str) : split (clean_text text) = split text.
Proof. rewrite clean_text_join. apply split_join, split_words. Qed.

Lemma set_source_chunk (file : string) (words : list str) (W : Z) (j : nat) (i : Z) :
  is_chunk (set_source file (chunk_at words W j i))
  /\ get_str (set_source file (chunk_at words W j i)) "source" = Some (lit file)
  /\ is_Some (get_str (set_source file (chunk_at words W j i)) "text").
Proof.
  split; [|split].
  - split; by eexists.
  - reflexivity.
  - by eexists.
Qed.

Lemma process_all_pdfs_folds (lib : library) (dir : string) (W V : Z)
    (names : list string) :
  listdir lib dir = Some (Return names) ->
  process_all_pdfs lib dir W V
  = (all_chunks ← foldR (process_file (extract_text_from_pdf lib) dir W V) []
                    (filter (fun f => endswith f ".pdf" = true) names);
     foldR (process_file (extract_text_from_txt lib) dir W V) all_chunks
           (filter (fun f => endswith f ".txt" = true) names)).
Proof.
  intros Hls. unfold process_all_pdfs. rewrite Hls. cbn [mbind result_bind].
  destruct (filter _ names ++ filter _ names) eqn:E; [|done].
  apply app_eq_nil in E as [-> ->]. done.
Qed.

Lemma process_file_run (extract : string -> result str) (dir : string) (W V : Z)
    (acc : list dict) (f : string) (text : str) :
  extract (path_join dir f) = Return text ->
  process_file extract dir W V acc f
  = (chunks ← chunk_text (clean_text text) W V;
     Return (acc ++ map (set_source f) chunks)).
Proof. intros H. unfold process_file. by rewrite H. Qed.

(** One loop of [process_all_pdfs] over documents that all have words. *)
Lemma process_files_ok (extract : string -> result str) (dir : string) (W V : Z)
    (files : list string) :
  0 < W - V ->
  Forall (fun f => has_words extract (path_join dir f) = true) files ->
  forall acc, exists new,
    foldR (process_file extract dir W V) acc files = Return (acc ++ new)
    /\ Forall (fun c => is_chunk c
                        /\ is_Some (get_str c "text")
                        /\ exists f, f ∈ files /\ get_str c "source" = Some (lit f)) new
    /\ (forall f, f ∈ files -> exists c, c ∈ new /\ get_str c "source" = Some (lit f)).
Proof.
  intros Hstep Hall. induction Hall as [|f files Hf _ IH]; intros acc.
  - exists []. rewrite app_nil_r. split; [done|]. split; [constructor|].
    intros f Hf. by apply elem_of_nil in Hf.
  - cbn [foldR]. unfold has_words in Hf.
    destruct (extract (path_join dir f)) as [text|e] eqn:Hex; [|done].
    destruct (split text) eqn:Hsplit; [done|].
    rewrite (process_file_run _ _ _ _ _ _ _ Hex).
    rewrite chunk_text_returns; [|done|by rewrite split_clean_text, Hsplit].
    rewrite !return_bind.
    set (chunks := imap _ _).
    destruct (IH (acc ++ map (set_source f) chunks)) as (new & Hrun & Hshape & Hcover).
    exists (map (set_source f) chunks ++ new). rewrite Hrun, app_assoc.
    assert (chunks <> []) as Hne.
    { unfold chunks. intros Hnil. apply (f_equal (@length _)) in Hnil.
      rewrite length_imap, length_map, length_seq in Hnil.
      rewrite split_clean_text, Hsplit in Hnil.
      pose proof (offsets_count (len (s :: l)) (W - V)) as Hn.
      pose proof (Z.div_pos (len (s :: l) - 1) (W - V)).
      unfold len in *. simpl in *. lia. }
    split; [done|]. split.
    + apply Forall_app. split.
      * apply Forall_forall. intros c Hc.
        apply list_elem_of_fmap in Hc as (c0 & -> & Hc0).
        apply list_elem_of_lookup in Hc0 as [j Hj].
        apply lookup_chunks in Hj as [_ ->].
        destruct (set_source_chunk f (split (clean_text text)) W j
                    (Z.of_nat j * (W - V))) as (H1 & H2 & H3).
        split; [done|]. split; [done|]. exists f. split; [by left|done].
      * eapply Forall_impl; [exact Hshape|].
        intros c (H1 & H2 & f' & Hf' & H3). split; [done|]. split; [done|].
        exists f'. split; [by right|done].
    + intros f' Hf'. apply elem_of_cons in Hf' as [->|Hf'].
      * destruct chunks as [|c0 chunks'] eqn:Hchunks; [done|].
        exists (set_source f c0). split; [apply elem_of_app; left; by left|].
        assert (c0 ∈ chunks) as Hin by (rewrite Hchunks; by left).
        apply list_elem_of_lookup in Hin as [j Hj]. unfold chunks in Hj.
        apply lookup_chunks in Hj as [_ ->]. reflexivity.
      * destruct (Hcover f' Hf') as (c & Hc & Hsrc).
        exists c. split; [apply elem_of_app; by right|done].
Qed.

(** What a loop of [process_all_pdfs] returns is what it had, then the
    chunks of each document, in the order of the documents. *)
Lemma process_files_concat (extract : string -> result str) (dir : string) (W V : Z)
    (files : list string) :
  forall acc out,
    foldR (process_file extract dir W V) acc files = Return out ->
    exists per : list (list dict),
      Forall2 (fun f cs => file_chunks extract dir W V f = Return cs) files per
      /\ out = acc ++ concat per.
Proof.
  induction files as [|f files IH]; intros acc out Hrun.
  - injection Hrun as <-. exists []. split; [constructor|]. by rewrite app_nil_r.
  - cbn [foldR] in Hrun. unfold process_file in Hrun.
    destruct (extract (path_join dir f)) as [text|e] eqn:Hext; [|done].
    rewrite return_bind in Hrun. cbv zeta in Hrun.
    destruct (chunk_text (clean_text text) W V) as [chunks|e] eqn:Hchunks; [|done].
    rewrite !return_bind in Hrun.
    destruct (IH _ _ Hrun) as (per & Hper & ->).
    exists (map (set_source f) chunks :: per). split.
    + constructor; [|done]. unfold file_chunks. by rewrite Hext, return_bind, Hchunks.
    + cbn [concat]. by rewrite app_assoc.
Qed.

Lemma chunk_text_no_words (text : str) (W V : Z) :
  W <> V -> split text = [] -> chunk_text text W V = Raise ZeroDivisionError.
Proof.
  intros Hne Hnil. unfold chunk_text, chunk_loop, py_range.
  destruct (Z.eqb_spec (W - V) 0); [lia|]. cbn [mbind result_bind].
  rewrite Hnil. change (len []) with 0. by rewrite range_length_zero.
Qed.

(** One loop of [process_all_pdfs] over documents that all extract, one of
    them without a word. *)
Lemma process_files_wordless (extract : string -> result str) (dir : string)
    (W V : Z) (files : list string) :
  0 < W - V ->
  Forall (fun f => extracts extract (path_join dir f) = true) files ->
  Exists (fun f => has_words extract (path_join dir f) = false) files ->
  forall acc,
    foldR (process_file extract dir W V) acc files = Raise ZeroDivisionError.
Proof.
  intros Hstep Hall. induction Hall as [|f files Hf Hall IH]; intros Hex acc.
  - by apply Exists_nil in Hex.
  - cbn [foldR]. unfold extracts in Hf.
    destruct (extract (path_join dir f)) as [text|e] eqn:Hext; [|done].
    rewrite (process_file_run _ _ _ _ _ _ _ Hext).
    destruct (split text) eqn:Hsplit.
    + rewrite chunk_text_no_words; [done|lia|by rewrite split_clean_text].
    + rewrite chunk_text_returns; [|done|by rewrite split_clean_text, Hsplit].
      rewrite !return_bind. apply IH.
      apply Exists_cons in Hex as [Hhd|Htl]; [|done].
      unfold has_words in Hhd. by rewrite Hext, Hsplit in Hhd.
Qed.

Lemma process_files_extracted (extract : string -> result str) (dir : string)
    (W V : Z) (files : list string) (acc : list dict) :
  0 < W - V ->
  Forall (fun f => extracts extract (path_join dir f) = true) files ->
  (exists new, foldR (process_file extract dir W V) acc files = Return (acc ++ new))
  \/ foldR (process_file extract dir W V) acc files = Raise ZeroDivisionError.
Proof.
  intros Hstep Hall.
  destruct (decide (Forall (fun f => has_words extract (path_join dir f) = true) files))
    as [Hok|Hnot].
  - left. destruct (process_files_ok extract dir W V files Hstep Hok acc)
      as (new & Hrun & _). by exists new.
  - right. apply process_files_wordless; [done..|].
    apply not_Forall_Exists in Hnot; [|apply _].
    eapply Exists_impl; [exact Hnot|]. intros f Hf. cbn in Hf.
    by destruct (has_words extract (path_join dir f)).
Qed.

Lemma filter_no_suffix (suffix : string) (names : list string) :
  Forall (fun f => endswith f suffix = false) names ->
  filter (fun f => endswith f suffix = true) names = [].
Proof.
  induction 1 as [|f fs Hf _ IH]; [done|].
  rewrite filter_cons. case_decide as E; [|exact IH].
  by rewrite Hf in E.
Qed.

(** X6.  Without the directory, or with a directory that holds no [.pdf]
    and no [.txt] entry, [process_all_pdfs] returns the empty list; when
    the directory cannot be listed it raises what [os.listdir] raises. *)
Theorem process_all_pdfs_nothing (lib : library) (dir : string) (W V : Z) :
  (listdir lib dir = None -> process_all_pdfs lib dir W V = Return [])
  /\ (forall names,
        listdir lib dir = Some (Return names) ->
        Forall (fun f => endswith f ".pdf" = false /\ endswith f ".txt" = false) names ->
        process_all_pdfs lib dir W V = Return [])
  /\ (forall e, listdir lib dir = Some (Raise e) ->
        process_all_pdfs lib dir W V = Raise e).
Proof.
  split; [|split].
  - intros H. unfold process_all_pdfs. by rewrite H.
  - intros names Hls Hall. rewrite (process_all_pdfs_folds lib dir W V names Hls).
    rewrite !filter_no_suffix; [done| |];
      eapply Forall_impl; try exact Hall; by intros f [? ?].
  - intros e H. unfold process_all_pdfs. by rewrite H.
Qed.

Lemma process_all_pdfs_nothing_witness :
  process_all_pdfs Shelf.lib "elsewhere" 1000 200 = Return [].
Proof.
  apply (process_all_pdfs_nothing Shelf.lib "elsewhere" 1000 200). reflexivity.
Defined.

(** X7.  When every listed [.pdf] and [.txt] document extracts to a text
    with at least one word and the window exceeds the overlap,
    [process_all_pdfs] returns the chunks of the PDFs followed by the
    chunks of the text files: for each PDF in the order of the listing,
    then for each text file in the order of the listing, the chunks that
    [chunk_text] makes of the cleaned text of the document, in their order,
    each with the name of the file as its [source].  Every chunk carries
    its [source] with its [chunk_id] and [text]; and every such file has at
    least one chunk. *)
Theorem process_all_pdfs_chunks (lib : library) (dir : string) (W V : Z)
    (names : list string) :
  listdir lib dir = Some (Return names) ->
  V < W ->
  (forall f, f ∈ names -> endswith f ".pdf" = true ->
     has_words (extract_text_from_pdf lib) (path_join dir f) = true) ->
  (forall f, f ∈ names -> endswith f ".txt" = true ->
     has_words (extract_text_from_txt lib) (path_join dir f) = true) ->
  exists from_pdfs from_txts,
    process_all_pdfs lib dir W V = Return (from_pdfs ++ from_txts)
    /\ Forall is_chunk (from_pdfs ++ from_txts)
    /\ Forall (fun c => is_Some (get_str c "text")
                        /\ exists f, f ∈ names /\ endswith f ".pdf" = true
                                     /\ get_str c "source" = Some (lit f)) from_pdfs
    /\ Forall (fun c => is_Some (get_str c "text")
                        /\ exists f, f ∈ names /\ endswith f ".txt" = true
                                     /\ get_str c "source" = Some (lit f)) from_txts
    /\ (forall f, f ∈ names -> endswith f ".pdf" = true \/ endswith f ".txt" = true ->
          exists c, c ∈ from_pdfs ++ from_txts /\ get_str c "source" = Some (lit f))
    /\ (exists per_pdf per_txt : list (list dict),
          Forall2 (fun f cs =>
                     file_chunks (extract_text_from_pdf lib) dir W V f = Return cs)
                  (filter (fun f => endswith f ".pdf" = true) names) per_pdf
          /\ Forall2 (fun f cs =>
                        file_chunks (extract_text_from_txt lib) dir W V f = Return cs)
                     (filter (fun f => endswith f ".txt" = true) names) per_txt
          /\ from_pdfs = concat per_pdf /\ from_txts = concat per_txt).
Proof.
  intros Hls HV Hpdf Htxt.
  rewrite (process_all_pdfs_folds lib dir W V names Hls).
  set (pdfs := filter (fun f => endswith f ".pdf" = true) names).
  set (txts := filter (fun f => endswith f ".txt" = true) names).
  destruct (process_files_ok (extract_text_from_pdf lib) dir W V pdfs ltac:(lia))
    with (acc := @nil dict) as (from_pdfs & Hrun1 & Hshape1 & Hcover1).
  { apply Forall_forall. intros f Hf. apply list_elem_of_filter in Hf as [? ?]. by apply Hpdf. }
  destruct (process_files_ok (extract_text_from_txt lib) dir W V txts ltac:(lia))
    with (acc := from_pdfs) as (from_txts & Hrun2 & Hshape2 & Hcover2).
  { apply Forall_forall. intros f Hf. apply list_elem_of_filter in Hf as [? ?]. by apply Htxt. }
  exists from_pdfs, from_txts. rewrite Hrun1, return_bind. cbn [app].
  split; [exact Hrun2|]. split; [|split; [|split; [|split]]].
  - apply Forall_app. split; (eapply Forall_impl; [eassumption|]); by intros c [? _].
  - eapply Forall_impl; [exact Hshape1|]. intros c (_ & Ht & f & Hf & Hs).
    apply list_elem_of_filter in Hf as [? ?]. eauto.
  - eapply Forall_impl; [exact Hshape2|]. intros c (_ & Ht & f & Hf & Hs).
    apply list_elem_of_filter in Hf as [? ?]. eauto.
  - intros f Hf [Hp|Ht].
    + destruct (Hcover1 f) as (c & Hc & Hs); [by apply list_elem_of_filter|].
      exists c. split; [apply elem_of_app; by left|done].
    + destruct (Hcover2 f) as (c & Hc & Hs); [by apply list_elem_of_filter|].
      exists c. split; [apply elem_of_app; by right|done].
  - destruct (process_files_concat _ _ _ _ _ _ _ Hrun1) as (per_pdf & Hper1 & E1).
    destruct (process_files_concat _ _ _ _ _ _ _ Hrun2) as (per_txt & Hper2 & E2).
    exists per_pdf, per_txt. split; [done|]. split; [done|].
    split; [exact E1|]. by apply app_inv_head in E2.
Qed.

Lemma process_all_pdfs_chunks_witness :
  exists from_pdfs from_txts,
    process_all_pdfs Shelf.lib "data/pdfs" 1000 200 = Return (from_pdfs ++ from_txts).
Proof.
  destruct (process_all_pdfs_chunks Shelf.lib "data/pdfs" 1000 200
              ["b.txt"; "a.pdf"; "notes.md"]%string)
    as (from_pdfs & from_txts & Hrun & _).
  - reflexivity.
  - lia.
  - intros f Hf Hp. repeat (apply elem_of_cons in Hf as [->|Hf]); try done.
    by apply elem_of_nil in Hf.
  - intros f Hf Hp. repeat (apply elem_of_cons in Hf as [->|Hf]); try done.
    by apply elem_of_nil in Hf.
  - exists from_pdfs, from_txts. exact Hrun.
Defined.

(** X8.  When every listed document extracts but one of them has no word,
    a scanned PDF without a text layer or an empty file,
    [process_all_pdfs] raises [ZeroDivisionError] and returns no chunk of
    any document. *)
Theorem process_all_pdfs_wordless (lib : library) (dir : string) (W V : Z)
    (names : list string) :
  listdir lib dir = Some (Return names) ->
  V < W ->
  (forall f, f ∈ names -> endswith f ".pdf" = true ->
     extracts (extract_text_from_pdf lib) (path_join dir f) = true) ->
  (forall f, f ∈ names -> endswith f ".txt" = true ->
     extracts (extract_text_from_txt lib) (path_join dir f) = true) ->
  (exists f, f ∈ names
             /\ (endswith f ".pdf" = true
                 /\ has_words (extract_text_from_pdf lib) (path_join dir f) = false
                 \/ endswith f ".txt" = true
                    /\ has_words (extract_text_from_txt lib) (path_join dir f) = false)) ->
  process_all_pdfs lib dir W V = Raise ZeroDivisionError.
Proof.
  intros Hls HV Hpdf Htxt (f & Hf & Hcase).
  rewrite (process_all_pdfs_folds lib dir W V names Hls).
  set (pdfs := filter (fun f => endswith f ".pdf" = true) names).
  set (txts := filter (fun f => endswith f ".txt" = true) names).
  assert (Forall (fun f => extracts (extract_text_from_pdf lib) (path_join dir f) = true)
                 pdfs) as Hall1.
  { apply Forall_forall. intros g Hg. apply list_elem_of_filter in Hg as [? ?]. by apply Hpdf. }
  assert (Forall (fun f => extracts (extract_text_from_txt lib) (path_join dir f) = true)
                 txts) as Hall2.
  { apply Forall_forall. intros g Hg. apply list_elem_of_filter in Hg as [? ?]. by apply Htxt. }
  destruct Hcase as [[Hp Hw]|[Ht Hw]].
  - rewrite process_files_wordless; [done|lia|done|].
    apply Exists_exists. exists f. split; [by apply list_elem_of_filter|done].
  - destruct (process_files_extracted (extract_text_from_pdf lib) dir W V pdfs []
                ltac:(lia) Hall1) as [[new ->]| ->]; [|done].
    rewrite return_bind. apply process_files_wordless; [lia|done|].
    apply Exists_exists. exists f. split; [by apply list_elem_of_filter|done].
Qed.

Lemma process_all_pdfs_wordless_witness :
  process_all_pdfs Shelf.scanned "data/pdfs" 1000 200 = Raise ZeroDivisionError.
Proof.
  apply (process_all_pdfs_wordless Shelf.scanned "data/pdfs" 1000 200
           ["b.txt"; "scan.pdf"]%string).
  - reflexivity.
  - lia.
  - intros f Hf Hp. repeat (apply elem_of_cons in Hf as [->|Hf]); try done.
    by apply elem_of_nil in Hf.
  - intros f Hf Hp. repeat (apply elem_of_cons in Hf as [->|Hf]); try done.
    by apply elem_of_nil in Hf.
  - exists "scan.pdf"%string. split; [by right; left|]. left. split; reflexivity.
Defined.

(** ** More on embeddings *)

(** X9.  [create_embeddings_batch] with a batch size of zero raises
    [ValueError], and with a negative batch size returns an empty array,
    whatever the texts; in both cases no request is sent and the world is
    as before. *)
Theorem create_embeddings_batch_bad_size {F : Float32} (client : OpenAI)
    (self : EmbeddingManager.manager) (texts : list str) (B : Z) (w : world) :
  (B = 0 -> EmbeddingManager.create_embeddings_batch client self texts B w
            = (Raise ValueError, w))
  /\ (B < 0 -> EmbeddingManager.create_embeddings_batch client self texts B w
               = (Return (Array1 []), w)).
Proof.
  split.
  - intros ->. reflexivity.
  - intros HB. unfold EmbeddingManager.create_embeddings_batch, py_range.
    destruct (Z.eqb_spec B 0); [lia|].
    rewrite range_length_down by (auto using len_nonneg). reflexivity.
Qed.

Lemma create_embeddings_batch_bad_size_witness :
  EmbeddingManager.create_embeddings_batch (F := Sample.exact)
    Sample.client Sample.manager [lit "a"; lit "b"] (-1) Sample.built
  = (Return (Array1 []), Sample.built).
Proof.
  apply (create_embeddings_batch_bad_size (F := Sample.exact)
           Sample.client Sample.manager [lit "a"; lit "b"] (-1) Sample.built).
  lia.
Defined.

Section FailingService.
Context {F : Float32}.
Variable client : OpenAI.
Variable self : EmbeddingManager.manager.
Variable texts : list str.
Variable B : Z.
Hypothesis positive : 0 < B.

(** The [j]-th batch. *)
Let batch (j : nat) : list str := take (Z.to_nat B) (drop (j * Z.to_nat B) texts).

Lemma batch_step_answer (j : nat) (acc : list vec) (answer : list vec) o f dr s :
  0 < len texts ->
  embed client (EmbeddingManager.model self) (batch j) = Return answer ->
  EmbeddingManager.batch_step client self texts B (len texts) acc (Z.of_nat j * B)
    (mkWorld o f dr s)
  = (Return (acc ++ answer), mkWorld o f dr (s ++ [batch j])).
Proof.
  intros HN Hans. unfold EmbeddingManager.batch_step.
  rewrite py_slice_window by lia.
  replace (Z.to_nat (Z.of_nat j * B)) with (j * Z.to_nat B)%nat by lia.
  rewrite bind_run. unfold embeddings_create. fold (batch j). rewrite Hans.
  rewrite bind_run, lift_run. unfold floordiv.
  destruct (Z.eqb_spec (len texts) 0); [lia|]. done.
Qed.

Lemma batch_step_failure (j : nat) (acc : list vec) (e : exn) o f dr s :
  embed client (EmbeddingManager.model self) (batch j) = Raise e ->
  EmbeddingManager.batch_step client self texts B (len texts) acc (Z.of_nat j * B)
    (mkWorld o f dr s)
  = (Raise e, mkWorld o f dr (s ++ [batch j])).
Proof.
  intros Hans. unfold EmbeddingManager.batch_step.
  rewrite py_slice_window by lia.
  replace (Z.to_nat (Z.of_nat j * B)) with (j * Z.to_nat B)%nat by lia.
  rewrite bind_run. unfold embeddings_create. fold (batch j). by rewrite Hans.
Qed.

Lemma batches_answered (answers : nat -> list vec) o f dr s :
  0 < len texts ->
  forall m : nat,
    (forall j : nat, (j < m)%nat ->
       embed client (EmbeddingManager.model self) (batch j) = Return (answers j)) ->
    foldM (EmbeddingManager.batch_step client self texts B (len texts)) []
          (map (fun j : nat => Z.of_nat j * B) (seq 0 m)) (mkWorld o f dr s)
    = (Return (concat (map answers (seq 0 m))),
       mkWorld o f dr (s ++ map batch (seq 0 m))).
Proof.
  intros HN. induction m as [|m IH]; intros Hans.
  - simpl. by rewrite app_nil_r.
  - rewrite seq_S, !map_app, foldM_app, IH by (intros; apply Hans; lia).
    cbn [map foldM]. rewrite bind_run.
    rewrite (batch_step_answer m _ (answers m)) by (auto with lia).
    rewrite mret_run, concat_app. cbn [concat]. by rewrite app_nil_r, app_assoc.
Qed.

(** X10.  When the embedding service answers the first [m] batches and
    fails on the next one, [create_embeddings_batch] raises that failure:
    it returns no vector, not even those of the answered batches, and
    sends no request after the failed one. *)
Theorem create_embeddings_batch_failure (answers : nat -> list vec) (m : nat)
    (e : exn) (w : world) :
  Z.of_nat m * B < len texts ->
  (forall j : nat, (j < m)%nat ->
     embed client (EmbeddingManager.model self) (batch j) = Return (answers j)) ->
  embed client (EmbeddingManager.model self) (batch m) = Raise e ->
  EmbeddingManager.create_embeddings_batch client self texts B w
  = (Raise e, mkWorld (objs w) (files w) (dirs w) (sent w ++ map batch (seq 0 (S m)))).
Proof.
  intros Hm Hans Hfail. destruct w as [o f dr s]. cbn [objs files dirs sent].
  assert (0 < len texts) as HN by lia.
  unfold EmbeddingManager.create_embeddings_batch, py_range.
  destruct (Z.eqb_spec B 0) as [|_]; [lia|].
  rewrite bind_run, lift_run.
  set (n := Z.to_nat (range_length 0 (len texts) B)).
  assert (m < n)%nat as Hmn.
  { pose proof (offsets_count (len texts) B HN positive) as Hn. fold n in Hn.
    assert (Z.of_nat m <= (len texts - 1) / B); [|lia].
    apply Z.div_le_lower_bound; lia. }
  assert (seq 0 n = seq 0 m ++ m :: seq (S m) (n - S m)) as ->.
  { replace n with (m + S (n - S m))%nat at 1 by lia. by rewrite seq_app. }
  rewrite map_app.
  erewrite (map_ext (fun j : nat => 0 + Z.of_nat j * B) (fun j : nat => Z.of_nat j * B))
    by done.
  rewrite bind_run, foldM_app.
  rewrite (batches_answered answers o f dr s HN m Hans).
  rewrite map_cons. cbn [foldM]. rewrite bind_run. rewrite Z.add_0_l.
  rewrite (batch_step_failure m _ e) by done.
  rewrite seq_S, map_app. cbn [map]. by rewrite app_assoc.
Qed.

End FailingService.

Lemma create_embeddings_batch_failure_witness :
  EmbeddingManager.create_embeddings_batch (F := Sample.exact)
    (mkClient (fun _ input => match input with
                              | [_; _] => Return (Sample.service input)
                              | _ => Raise RuntimeError
                              end)
              (fun _ _ _ _ => Raise RuntimeError))
    Sample.manager [lit "a"; lit "b"; lit "c"] 2 Sample.built
  = (Raise RuntimeError,
     mkWorld (objs Sample.built) (files Sample.built) (dirs Sample.built)
             (sent Sample.built ++ [[lit "a"; lit "b"]; [lit "c"]])).
Proof.
  apply (create_embeddings_batch_failure (F := Sample.exact) _ Sample.manager
           [lit "a"; lit "b"; lit "c"] 2 ltac:(lia)
           (fun _ => Sample.service [lit "a"; lit "b"]) 1%nat RuntimeError Sample.built).
  - vm_compute. reflexivity.
  - intros j Hj. assert (j = 0%nat) as -> by lia. reflexivity.
  - reflexivity.
Defined.



(** ** More on saving and loading *)






(** X25.  When the directory of the chunk file is missing once the
    directory of the index file has been made (the two paths lie in
    different directories, and nothing has made the second), [save_index]
    raises [FileNotFoundError] from [open], after it has made the first
    directory and written the index file: the index file is there, and
    the chunk file is not written. *)
Theorem save_index_missing_directory (self : EmbeddingManager.manager) (w : world)
    (il cl : loc) (index : IndexFlatL2) (C : list dict) (ip cp : string) :
  index_at w il index -> chunks_at w cl C -> dirname ip <> ""%string ->
  writable (set_dirs (made (dirname ip)) w) cp = false ->
  exists w1,
    EmbeddingManager.save_index self il cl ip cp w = (Raise FileNotFoundError, w1)
    /\ files w1 = <[ip := FaissBlob index]> (files w)
    /\ dirs w1 = made (dirname ip) (dirs w)
    /\ objs w1 = objs w /\ sent w1 = sent w.
Proof.
  intros Hi Hc Hdir Hcp.
  exists (set_files (fun fs => <[ip := FaissBlob index]> fs)
                    (set_dirs (made (dirname ip)) w)).
  split.
  - unfold EmbeddingManager.save_index.
    rewrite bind_run. unfold makedirs.
    destruct (String.eqb_spec (dirname ip) ""); [done|].
    pose proof (writable_made w ip Hdir) as Hip.
    set (w1 := set_dirs (made (dirname ip)) w) in *.
    rewrite bind_run. unfold write_index. rewrite bind_run.
    unfold read_index_object. change (objs w1) with (objs w).
    unfold index_at in Hi. rewrite Hi.
    unfold write_file at 1. rewrite Hip.
    rewrite bind_run. unfold open_wb, write_file.
    change (writable (set_files _ w1) cp) with (writable w1 cp). rewrite Hcp.
    reflexivity.
  - by destruct w.
Qed.

Lemma save_index_missing_directory_witness :
  exists w1,
    EmbeddingManager.save_index Sample.manager 3%nat 2%nat
      "index/legal.faiss" "other/chunks.pkl" Sample.built
    = (Raise FileNotFoundError, w1)
    /\ files w1 = <["index/legal.faiss"%string := FaissBlob Sample.index]>
                    (files Sample.built).
Proof.
  destruct (save_index_missing_directory Sample.manager Sample.built 3%nat 2%nat
              Sample.index Sample.C "index/legal.faiss" "other/chunks.pkl")
    as (w1 & Hrun & Hfiles & _).
  - reflexivity.
  - exists [0%nat; 1%nat]. split; [reflexivity|]. repeat constructor.
  - discriminate.
  - vm_compute. reflexivity.
  - exists w1. split; [exact Hrun|exact Hfiles].
Defined.

(** ** Failures of a search *)

(** X14.  On a well-formed retriever, a query whose embedding has another
    dimension than the index, or a [k] that is not positive, makes
    [search] raise [AssertionError] after its one embedding request; no
    object is created and no file changes. *)
Theorem search_refused {F : Float32} (client : OpenAI) (w : world) (self : loc)
    (index : IndexFlatL2) (C : list dict) (query : str) (k : Z)
    (embedding : vec) (rest : list vec) :
  retriever_at w self index C ->
  embed client default_embedding_model [query] = Return (embedding :: rest) ->
  len embedding <> d index \/ k <= 0 ->
  RAGRetriever.search client self query k w
  = (Raise AssertionError, mkWorld (objs w) (files w) (dirs w) (sent w ++ [[query]])).
Proof.
  intros (il & cl & Hself & Hi & _) Hemb Hbad.
  unfold RAGRetriever.search. rewrite bind_run, create_query_embedding_run, Hemb.
  rewrite return_bind. change (py_getitem (embedding :: rest) 0) with (Return embedding).
  cbv beta iota. rewrite bind_run.
  set (w1 := set_sent (fun log => log ++ [[query]]) w).
  assert (self_index self w1 = (Return il, w1)) as ->.
  { unfold self_index. change (objs w1) with (objs w). by rewrite Hself. }
  rewrite bind_run.
  assert (read_index_object il w1 = (Return index, w1)) as ->.
  { unfold read_index_object. change (objs w1) with (objs w). by rewrite Hi. }
  rewrite bind_run, lift_run.
  assert (faiss.search index (Array2 (len embedding) [map float32 embedding]) k
          = Raise AssertionError) as ->.
  { unfold faiss.search.
    destruct (Z.eqb_spec (len embedding) (d index)) as [Hd|Hd]; [|done].
    cbn [negb]. destruct (Z.ltb_spec 0 k); [|done].
    destruct Hbad; [done|lia]. }
  by destruct w.
Qed.

Lemma search_refused_witness :
  RAGRetriever.search (F := Sample.exact) Sample.client Sample.self (lit "ab") (-1)
    Sample.built
  = (Raise AssertionError,
     mkWorld (objs Sample.built) (files Sample.built) (dirs Sample.built)
             (sent Sample.built ++ [[lit "ab"]])).
Proof.
  apply (search_refused (F := Sample.exact) Sample.client Sample.built Sample.self
           Sample.index Sample.C (lit "ab") (-1) [2; 0] []).
  - exists 3%nat, 2%nat. split; [reflexivity|]. split; [reflexivity|].
    exists [0%nat; 1%nat]. split; [reflexivity|]. repeat constructor.
  - reflexivity.
  - right. lia.
Defined.

(** Every slot of an answer of a non-empty index reads a stored record. *)
Lemma hit_stored {F : Float32} (index : IndexFlatL2) (C : list dict) (x : vec)
    (k : nat) (h : hit) :
  len C = ntotal index -> 0 < ntotal index ->
  h ∈ knn (xb index) x k ->
  exists stored, py_getitem C h.1 = Return stored /\ stored ∈ C.
Proof.
  intros Hal HN Hh. unfold knn in Hh. apply elem_of_app in Hh as [Hin|Hin].
  - apply elem_of_take in Hin as (i' & Hin & _).
    apply list_elem_of_lookup_2, scan_hit in Hin as (row & y & Hy & -> & _).
    assert (is_Some (C !! row)) as [stored Hstored].
    { apply lookup_lt_is_Some. apply lookup_lt_Some in Hy.
      unfold ntotal, len in Hal. lia. }
    exists stored. split; [by apply py_getitem_row|by eapply list_elem_of_lookup_2].
  - apply elem_of_replicate in Hin as [-> _]. cbn [fst].
    assert (is_Some (C !! Z.to_nat (-1 + len C))) as [stored Hstored].
    { apply lookup_lt_is_Some. unfold len in *. lia. }
    exists stored. split; [|by eapply list_elem_of_lookup_2].
    unfold py_getitem. cbn [Z.ltb Z.compare].
    destruct (Z.ltb_spec (-1 + len C) 0); [lia|]. by rewrite Hstored.
Qed.

Lemma search_results_first {F : Float32} (client : OpenAI) (index : IndexFlatL2)
    (C : list dict) (query : str) (k : Z) (embedding : vec) (rest : list vec) :
  embed client default_embedding_model [query] = Return (embedding :: rest) ->
  len embedding = d index -> 0 < k ->
  exists h hits,
    knn (xb index) (map float32 embedding) (Z.to_nat k) = h :: hits
    /\ search_results client index C query k
       = mapR (result_chunk C) (enumerate 0 (h :: hits)).
Proof.
  intros Hemb Hdim Hk.
  destruct (knn (xb index) (map float32 embedding) (Z.to_nat k)) as [|h hits] eqn:Hknn.
  { apply (f_equal (@length _)) in Hknn. rewrite knn_length in Hknn. simpl in Hknn. lia. }
  exists h, hits. split; [done|].
  unfold search_results. rewrite Hemb, return_bind.
  change (py_getitem (embedding :: rest) 0) with (Return embedding).
  rewrite return_bind. unfold faiss.search. cbn [map].
  destruct (Z.eqb_spec (len embedding) (d index)); [|done]. cbn [negb].
  destruct (Z.ltb_spec 0 k); [|lia]. cbn [negb].
  rewrite return_bind.
  change (py_getitem [?l] 0) with (Return l). rewrite !return_bind.
  by rewrite zip_fst_snd, Hknn.
Qed.

(** X15.  On a retriever over an index without vectors and an empty chunk
    list, [search] raises [IndexError] for every positive [k]: the index
    answers label [-1] in every slot, and the empty list has no last
    item. *)
Theorem search_empty_index {F : Float32} (client : OpenAI) (w : world) (self : loc)
    (index : IndexFlatL2) (query : str) (k : Z) (embedding : vec) (rest : list vec) :
  retriever_at w self index [] ->
  xb index = [] ->
  embed client default_embedding_model [query] = Return (embedding :: rest) ->
  len embedding = d index ->
  0 < k ->
  (RAGRetriever.search client self query k w).1 = Raise IndexError.
Proof.
  intros Hwf Hxb Hemb Hdim Hk.
  destruct (search_run client w self index [] query k Hwf) as (new & -> & _).
  destruct (search_results_first client index [] query k embedding rest Hemb Hdim Hk)
    as (h & hits & Hknn & ->).
  cbn [fst]. unfold enumerate. rewrite imap_cons. cbn [mapR].
  destruct h as [label distance]. unfold result_chunk.
  assert (py_getitem (@nil dict) label = Raise IndexError) as ->; [|done].
  unfold py_getitem. destruct (_ <? 0); [done|]. by rewrite lookup_nil.
Qed.

Lemma search_empty_index_witness :
  (RAGRetriever.search (F := Sample.exact) Sample.client 2%nat (lit "ab") 3
     (mkWorld [OList []; OIndex (mkIndex 2 []); ORetriever 1%nat 0%nat] ∅ ∅ [])).1
  = Raise IndexError.
Proof.
  apply (search_empty_index (F := Sample.exact) Sample.client _ 2%nat (mkIndex 2 [])
           (lit "ab") 3 [2; 0] []).
  - exists 1%nat, 0%nat. split; [reflexivity|]. split; [reflexivity|].
    exists []. split; [reflexivity|]. constructor.
  - reflexivity.
  - reflexivity.
  - reflexivity.
  - lia.
Defined.

Lemma scored_no_source (stored : dict) (distance : scalar) (rank : Z) :
  stored !! "source"%string = None ->
  dict_getitem (scored stored distance rank) "source" = Raise KeyError.
Proof.
  intros H. unfold dict_getitem, scored.
  rewrite !lookup_insert_ne by done. by rewrite H.
Qed.

(** X16.  [search] needs the [source] that [process_all_pdfs] adds: on a
    retriever whose stored records have no [source], as [chunk_text]
    leaves them, every search that reaches the index raises [KeyError]. *)
Theorem search_without_source {F : Float32} (client : OpenAI) (w : world)
    (self : loc)
    (index : IndexFlatL2) (C : list dict) (query : str) (k : Z)
    (embedding : vec) (rest : list vec) :
  retriever_at w self index C ->
  len C = ntotal index -> 0 < ntotal index ->
  Forall (fun c => c !! "source"%string = None) C ->
  embed client default_embedding_model [query] = Return (embedding :: rest) ->
  len embedding = d index ->
  0 < k ->
  (RAGRetriever.search client self query k w).1 = Raise KeyError.
Proof.
  intros Hwf Hal HN Hnone Hemb Hdim Hk.
  destruct (search_run client w self index C query k Hwf) as (new & -> & _).
  destruct (search_results_first client index C query k embedding rest Hemb Hdim Hk)
    as (h & hits & Hknn & ->).
  cbn [fst]. unfold enumerate. rewrite imap_cons. cbn [mapR].
  destruct (hit_stored index C (map float32 embedding) (Z.to_nat k) h Hal HN)
    as (stored & Hget & Hin); [rewrite Hknn; by left|].
  destruct h as [label distance]. unfold result_chunk. cbn [fst] in Hget.
  rewrite Hget, return_bind.
  rewrite Forall_forall in Hnone.
  by rewrite (scored_no_source _ _ _ (Hnone stored Hin)).
Qed.

Lemma search_without_source_witness :
  (RAGRetriever.search (F := Sample.exact) Sample.client 2%nat (lit "ab") 1
     (mkWorld [ODict (Chunker.new_chunk (lit "texte") 0 0 1); OList [0%nat];
               ORetriever 3%nat 1%nat; OIndex (mkIndex 2 [[1; 0]])] ∅ ∅ [])).1
  = Raise KeyError.
Proof.
  apply (search_without_source (F := Sample.exact) Sample.client _ 2%nat
           (mkIndex 2 [[1; 0]])
           [Chunker.new_chunk (lit "texte") 0 0 1] (lit "ab") 1 [2; 0] []).
  - exists 3%nat, 1%nat. split; [reflexivity|]. split; [reflexivity|].
    exists [0%nat]. split; [reflexivity|]. repeat constructor.
  - reflexivity.
  - reflexivity.
  - repeat constructor.
  - reflexivity.
  - reflexivity.
  - lia.
Defined.

(** ** Asking *)

Lemma context_step_run {F : Float32} (w : world) (context : str) (i : Z) (l : loc)
    (c : dict) :
  objs w !! l = Some (ODict c) -> quotable c ->
  context_step context (i, l) w = (Return (context ++ extract_block i c), w).
Proof.
  intros Hl [[v Hv] [s Hs]]. unfold context_step.
  rewrite bind_run. unfold dict_lookup at 1. rewrite bind_run. unfold read_dict at 1.
  rewrite Hl, lift_run. unfold dict_getitem at 1. rewrite Hv.
  rewrite bind_run. unfold dict_lookup at 1. rewrite bind_run. unfold read_dict at 1.
  rewrite Hl, lift_run. unfold dict_getitem at 1.
  unfold get_str in Hs. destruct (c !! "text"%string) as [[t| |]|] eqn:Ht; try done.
  injection Hs as ->. rewrite mret_run.
  unfold extract_block, extract_header, source_of, text_of, get_str.
  rewrite Hv, Ht. cbn [default]. by rewrite <- !app_assoc.
Qed.

Lemma context_loop {F : Float32} (w : world) (ls : list loc) (records : list dict) :
  Forall2 (fun l c => objs w !! l = Some (ODict c)) ls records ->
  Forall quotable records ->
  forall (start : Z) (context : str),
    foldM context_step context (enumerate start ls) w
    = (Return (context ++ context_from start records), w).
Proof.
  induction 1 as [|l c ls records Hl _ IH]; intros Hq start context.
  - cbn. by rewrite app_nil_r.
  - inversion Hq as [|? ? Hc Hrest]; subst.
    unfold enumerate, context_from. rewrite !imap_cons. cbn [foldM concat].
    rewrite bind_run, (context_step_run w context _ l c Hl Hc).
    assert (imap ((fun (i : nat) (a : loc) => (start + Z.of_nat i, a)) ∘ S) ls
            = enumerate (start + 1) ls) as ->.
    { apply imap_ext. intros i a' _. simpl. f_equal. lia. }
    rewrite (IH Hrest (start + 1)). rewrite <- app_assoc. do 4 f_equal.
    unfold context_from. apply (f_equal (@concat _)).
    apply imap_ext. intros i a' _. simpl. f_equal. lia.
Qed.

Lemma sources_loop (w : world) (ls : list loc) (records : list dict) :
  Forall2 (fun l c => objs w !! l = Some (ODict c)) ls records ->
  Forall quotable records ->
  forall acc,
    foldM (fun acc chunk => s ← dict_lookup chunk "source"; mret (acc ++ [s])) acc ls w
    = (Return (acc ++ map source_of records), w).
Proof.
  induction 1 as [|l c ls records Hl _ IH]; intros Hq acc.
  - cbn. by rewrite app_nil_r.
  - inversion Hq as [|? ? [[v Hv] _] Hrest]; subst.
    cbn [foldM map]. rewrite bind_run.
    rewrite bind_run. unfold dict_lookup at 1. rewrite bind_run. unfold read_dict at 1.
    rewrite Hl, lift_run. unfold dict_getitem at 1. rewrite Hv, mret_run.
    rewrite (IH Hrest). unfold source_of. rewrite Hv. cbn [default].
    by rewrite <- app_assoc.
Qed.

(** [generate_answer] on references to quotable records: one completion
    request, whose outcome decides the outcome. *)
Lemma generate_answer_run {F : Float32} (client : OpenAI) (w : world) (self : loc)
    (query : str)
    (ls : list loc) (records : list dict) (model : str) (max_tokens : Z) :
  Forall2 (fun l c => objs w !! l = Some (ODict c)) ls records ->
  Forall quotable records ->
  generate_answer client self query ls model max_tokens w
  = (match complete client model system_prompt
             (user_prompt (context_of records) query) max_tokens with
     | Return c =>
         Return (mkAnswer query (content c) (map source_of records) (len ls) model
                          (prompt_tokens c, completion_tokens c, total_tokens c))
     | Raise e => Raise e
     end, w).
Proof.
  intros Hls Hq. unfold generate_answer.
  rewrite bind_run, (context_loop w ls records Hls Hq 1 []). cbn [app].
  rewrite bind_run. unfold chat_completions_create. rewrite lift_run.
  fold (context_of records).
  destruct (complete client model system_prompt _ max_tokens) as [c|e]; [|done].
  rewrite bind_run, (sources_loop w ls records Hls Hq []). done.
Qed.

Lemma scored_quotable (stored : dict) (distance : scalar) (rank : Z) :
  is_chunk stored -> is_Some (get_str stored "text") ->
  quotable (scored stored distance rank).
Proof.
  intros [[v Hv] _] [s Hs]. unfold quotable, scored, get_str in *.
  rewrite !lookup_insert_ne by done. rewrite Hv.
  destruct (stored !! "text"%string) as [[t| |]|]; try done.
Qed.

(** X17.  On a retriever over an index that is not empty and its chunk
    records, aligned by position, each with its source, chunk number and
    text, [ask] with [k >= 1] and a query whose embedding has the dimension
    of the index makes one completion request, whose prompt holds the [k]
    records that [search] returns, in rank order, each under its extract
    number and source.  If the request fails, [ask] raises that failure and
    gives no partial result.  Otherwise the answer carries the text and
    the three token counts of the response as they are, the sources of the
    [k] records in rank order, and [k] as the number of chunks used. *)
Theorem ask_answers {F : Float32} (client : OpenAI) (w : world) (self : loc)
    (index : IndexFlatL2) (C : list dict) (query : str) (k : Z) (model : str)
    (embedding : vec) (rest : list vec) :
  retriever_at w self index C ->
  len C = ntotal index ->
  Forall is_chunk C ->
  Forall (fun c => is_Some (get_str c "text")) C ->
  embed client default_embedding_model [query] = Return (embedding :: rest) ->
  len embedding = d index ->
  0 < ntotal index ->
  0 < k ->
  exists ls records w1,
    RAGRetriever.search client self query k w = (Return ls, w1)
    /\ Forall2 (fun l c => objs w1 !! l = Some (ODict c)) ls records
    /\ search_results client index C query k = Return records
    /\ len records = k
    /\ Forall (fun c => get_str c "text" <> None /\ c !! "source"%string <> None) records
    /\ (forall (i : nat) c, records !! i = Some c ->
          get_int c "rank" = Some (Z.of_nat i + 1))
    /\ ask client self query k model w
       = (match complete client model system_prompt
                  (user_prompt (context_of records) query) 500 with
          | Return c =>
              Return (mkAnswer query (content c) (map source_of records) k model
                               (prompt_tokens c, completion_tokens c, total_tokens c))
          | Raise e => Raise e
          end,
          mkWorld (objs w ++ map ODict records) (files w) (dirs w) (sent w ++ [[query]])).
Proof.
  intros Hwf Hal Hchunks Htexts Hemb Hdim HN Hk.
  destruct (search_run client w self index C query k Hwf) as (new & Hrun & Hnew & _).
  pose proof (search_results_slots client index C query embedding rest
                Hal Hchunks Hemb Hdim k Hk HN) as Hres.
  set (hits := knn (xb index) (map float32 embedding) (Z.to_nat k)) in *.
  set (g := fun (i : nat) (h : hit) => scored (stored_at C h.1) h.2 (Z.of_nat i + 1)) in *.
  rewrite Hres in Hrun. rewrite (Hnew _ Hres) in Hrun. clear Hnew new.
  assert (length hits = Z.to_nat k) as Hlen by apply knn_length.
  assert (Forall quotable (imap g hits)) as Hquot.
  { apply Forall_forall. intros c Hc.
    apply list_elem_of_lookup in Hc as [i Hi]. rewrite list_lookup_imap in Hi.
    destruct (hits !! i) as [h|] eqn:Hh; [|done]. injection Hi as <-.
    destruct (hit_stored index C (map float32 embedding) (Z.to_nat k) h Hal HN)
      as (stored & Hget & Hin); [by eapply list_elem_of_lookup_2|].
    unfold g, stored_at. rewrite Hget.
    rewrite Forall_forall in Hchunks, Htexts. apply scored_quotable; auto. }
  assert (Forall2 (fun l c => (objs w ++ map ODict (imap g hits)) !! l = Some (ODict c))
                  (seq (length (objs w)) (length (imap g hits))) (imap g hits)) as Hat.
  { rewrite <- (app_nil_r (map ODict (imap g hits))). apply records_at. }
  eexists _, (imap g hits), _. split; [exact Hrun|]. split; [exact Hat|].
  split; [exact Hres|]. split.
  { unfold len. rewrite length_imap, Hlen. lia. }
  split.
  { eapply Forall_impl; [exact Hquot|]. intros c [[v Hv] [t Ht]].
    split; [by rewrite Ht|by rewrite Hv]. }
  split.
  { intros i c Hi. rewrite list_lookup_imap in Hi.
    destruct (hits !! i) as [h|]; [|done]. injection Hi as <-.
    apply scored_fields. }
  unfold ask. rewrite bind_run, Hrun.
  rewrite (generate_answer_run client _ self query _ (imap g hits)); [|exact Hat|exact Hquot].
  unfold len at 1. rewrite length_seq, length_imap, Hlen.
  rewrite Z2Nat.id by lia. done.
Qed.

Lemma ask_answers_witness :
  exists records,
    search_results (F := Sample.exact) Sample.client Sample.index Sample.C (lit "ab") 2
    = Return records
    /\ len records = 2.
Proof.
  destruct (ask_answers (F := Sample.exact) Sample.client Sample.built Sample.self
              Sample.index Sample.C (lit "ab") 2 (lit "gpt-4o-mini") [2; 0] [])
    as (ls & records & w1 & _ & _ & Hres & Hlen & _).
  - exists 3%nat, 2%nat. split; [reflexivity|]. split; [reflexivity|].
    exists [0%nat; 1%nat]. split; [reflexivity|]. repeat constructor.
  - reflexivity.
  - repeat constructor; by eexists.
  - repeat constructor; by eexists.
  - reflexivity.
  - reflexivity.
  - unfold ntotal, len. simpl. lia.
  - lia.
  - exists records. split; [exact Hres|exact Hlen].
Defined.

(** ** The build script *)

Lemma chunk_text_inv (text : str) (W V : Z) (chunks : list dict) :
  chunk_text text W V = Return chunks ->
  exists offsets, chunks = imap (chunk_at (split text) W) offsets.
Proof.
  intros Hret.
  destruct (Z.eq_dec W V) as [->|Hne].
  { unfold chunk_text, chunk_loop, py_range in Hret. by rewrite Z.sub_diag in Hret. }
  destruct (Z_lt_le_dec V W) as [Hlt|Hle].
  - destruct (split text) eqn:Hsplit.
    + by rewrite chunk_text_no_words in Hret.
    + rewrite chunk_text_returns in Hret; [|lia|by rewrite Hsplit].
      injection Hret as <-. rewrite Hsplit. by eexists.
  - unfold chunk_text, chunk_loop, py_range in Hret.
    destruct (Z.eqb_spec (W - V) 0); [lia|].
    rewrite range_length_down in Hret; [done|apply len_nonneg|lia].
Qed.

Lemma process_files_inv (extract : string -> result str) (dir : string) (W V : Z)
    (files : list string) :
  forall acc out,
    foldR (process_file extract dir W V) acc files = Return out ->
    Forall (fun c => is_chunk c /\ is_Some (get_str c "text")) acc ->
    Forall (fun c => is_chunk c /\ is_Some (get_str c "text")) out.
Proof.
  induction files as [|f files IH]; intros acc out Hrun Hacc.
  - by injection Hrun as <-.
  - cbn [foldR] in Hrun.
    destruct (extract (path_join dir f)) as [text|e] eqn:Hext.
    2: { unfold process_file in Hrun. by rewrite Hext in Hrun. }
    rewrite (process_file_run _ _ _ _ _ _ _ Hext) in Hrun.
    destruct (chunk_text (clean_text text) W V) as [chunks|e] eqn:Hchunks; [|done].
    rewrite !return_bind in Hrun. apply (IH _ _ Hrun).
    apply Forall_app. split; [done|].
    apply chunk_text_inv in Hchunks as [offsets ->].
    apply Forall_forall. intros c Hc.
    apply list_elem_of_fmap in Hc as (c0 & -> & Hc0).
    apply list_elem_of_lookup in Hc0 as [j Hj]. rewrite list_lookup_imap in Hj.
    destruct (offsets !! j) as [i|]; [|done]. injection Hj as <-.
    destruct (set_source_chunk f (split (clean_text text)) W j i) as (H1 & _ & H3).
    done.
Qed.

(** Whatever [process_all_pdfs] returns is made of chunk records with
    their source, chunk number and text. *)
Lemma process_all_pdfs_inv (lib : library) (dir : string) (W V : Z)
    (records : list dict) :
  process_all_pdfs lib dir W V = Return records ->
  Forall (fun c => is_chunk c /\ is_Some (get_str c "text")) records.
Proof.
  intros Hrun. destruct (listdir lib dir) as [[names|e]|] eqn:Hls.
  - rewrite (process_all_pdfs_folds lib dir W V names Hls) in Hrun.
    destruct (foldR _ [] _) as [from_pdfs|e] eqn:H1; [|done].
    rewrite return_bind in Hrun.
    eapply process_files_inv; [exact Hrun|].
    eapply process_files_inv; [exact H1|constructor].
  - unfold process_all_pdfs in Hrun. by rewrite Hls in Hrun.
  - unfold process_all_pdfs in Hrun. rewrite Hls in Hrun. injection Hrun as <-.
    constructor.
Qed.

Lemma new_list_run (records : list dict) (w : world) :
  Build.new_list records w
  = (Return (length (objs w) + length records)%nat,
     set_objs (fun h => h ++ map ODict records
                          ++ [OList (seq (length (objs w)) (length records))]) w)
  /\ chunks_at (set_objs (fun h => h ++ map ODict records
                                     ++ [OList (seq (length (objs w)) (length records))]) w)
               (length (objs w) + length records)%nat records.
Proof.
  split.
  - unfold Build.new_list. rewrite bind_run, load_loop.
    destruct w as [h fs dr log]. unfold alloc, set_objs. cbn [objs files dirs sent app].
    rewrite length_app, length_map. by rewrite <- app_assoc.
  - destruct w as [h fs dr log]. unfold set_objs. cbn [objs files dirs sent].
    exists (seq (length h) (length records)). cbn [objs]. split.
    + rewrite app_assoc. apply list_lookup_middle.
      by rewrite length_app, length_map.
    + apply records_at.
Qed.

Lemma chunk_texts_loop (w : world) (cs : list loc) (C : list dict) :
  Forall2 (fun c items => objs w !! c = Some (ODict items)) cs C ->
  Forall (fun c => is_Some (get_str c "text")) C ->
  forall acc,
    foldM (fun acc c =>
             v ← dict_lookup c "text";
             match v with
             | VStr s => mret (acc ++ [s])
             | _ => throw TypeError
             end) acc cs w
    = (Return (acc ++ map text_of C), w).
Proof.
  induction 1 as [|c items cs C Hc _ IH]; intros Ht acc.
  - cbn. by rewrite app_nil_r.
  - inversion Ht as [|? ? [s Hs] Hrest]; subst. cbn [foldM map].
    rewrite bind_run, bind_run. unfold dict_lookup at 1.
    rewrite bind_run. unfold read_dict at 1. rewrite Hc, lift_run.
    unfold dict_getitem at 1. unfold get_str in Hs.
    destruct (items !! "text"%string) as [[t| |]|] eqn:Htext; try done.
    rewrite mret_run, (IH Hrest). unfold text_of, get_str. rewrite Htext.
    cbn [default]. by rewrite <- app_assoc.
Qed.

Lemma chunk_texts_run (w : world) (cl : loc) (C : list dict) :
  chunks_at w cl C ->
  Forall (fun c => is_Some (get_str c "text")) C ->
  Build.chunk_texts cl w = (Return (map text_of C), w).
Proof.
  intros (cs & Hcl & Hcs) Ht. unfold Build.chunk_texts.
  rewrite bind_run. unfold read_list. rewrite Hcl.
  by rewrite (chunk_texts_loop w cs C Hcs Ht []).
Qed.

(** The batches of a service that embeds each text by itself: every batch
    is answered, and [np.array] decides. *)
Lemma create_embeddings_batch_pointwise {F : Float32} (client : OpenAI)
    (self : EmbeddingManager.manager) (e : str -> vec) (texts : list str)
    (B : Z) (w : world) :
  0 < B ->
  (forall input, embed client (EmbeddingManager.model self) input = Return (map e input)) ->
  exists batches,
    concat batches = texts
    /\ EmbeddingManager.create_embeddings_batch client self texts B w
       = (match np_array (map e texts) with
          | Return a => Return (astype_float32 a)
          | Raise err => Raise err
          end,
          mkWorld (objs w) (files w) (dirs w) (sent w ++ batches)).
Proof.
  intros HB He. destruct w as [o f dr s]. cbn [objs files dirs sent].
  set (b := Z.to_nat B). set (N := len texts).
  set (n := Z.to_nat (range_length 0 N B)).
  assert (concat (map (fun j : nat => take b (drop (j * b) texts)) (seq 0 n)) = texts)
    as Hcat.
  { rewrite concat_batches. apply take_ge.
    pose proof (len_nonneg texts).
    assert (Z.of_nat n = (N + B - 1) / B) as Hn.
    { unfold n. rewrite ceil_div by (unfold N; lia).
      assert (0 <= (N + B - 1) / B) by (apply Z.div_pos; unfold N; lia). lia. }
    pose proof (Z.mul_succ_div_gt (N + B - 1) B HB).
    unfold N, len, b in *. nia. }
  exists (map (fun j : nat => take b (drop (j * b) texts)) (seq 0 n)).
  split; [exact Hcat|].
  unfold EmbeddingManager.create_embeddings_batch, py_range.
  destruct (Z.eqb_spec B 0) as [|_]; [lia|].
  rewrite bind_run, lift_run, bind_run.
  erewrite (map_ext (fun j : nat => 0 + Z.of_nat j * B) (fun j : nat => Z.of_nat j * B))
    by done.
  change (Z.to_nat (range_length 0 (len texts) B)) with n.
  rewrite (batches_run client self (map e) He texts B o f dr s HB n) by (unfold n, N; lia).
  fold b.
  assert (concat (map (map e)
            (map (fun j : nat => take b (drop (j * b) texts)) (seq 0 n))) = map e texts)
    as ->.
  { rewrite <- (map_id (concat _)).
    rewrite (concat_answers_pointwise (map e) e id) by done. by rewrite Hcat. }
  rewrite bind_run, lift_run. by destruct (np_array (map e texts)).
Qed.

(** The batches of a service that embeds each text by itself, into
    vectors of one length. *)
Lemma create_embeddings_batch_map {F : Float32} (client : OpenAI)
    (self : EmbeddingManager.manager) (e : str -> vec) (texts : list str)
    (B D : Z) (w : world) :
  0 < B ->
  (forall input, embed client (EmbeddingManager.model self) input = Return (map e input)) ->
  texts <> [] ->
  Forall (fun t => len (e t) = D) texts ->
  exists batches,
    EmbeddingManager.create_embeddings_batch client self texts B w
    = (Return (Array2 D (map (fun t => map float32 (e t)) texts)),
       mkWorld (objs w) (files w) (dirs w) (sent w ++ batches)).
Proof.
  intros HB He Hne Hdim.
  destruct (create_embeddings_batch_pointwise client self e texts B w HB He)
    as (batches & _ & Hrun).
  exists batches. rewrite Hrun, (np_array_rows _ D).
  - cbn [astype_float32]. by rewrite map_map.
  - by destruct texts.
  - apply Forall_forall. intros v Hv. apply list_elem_of_fmap in Hv as (t & -> & Ht).
    rewrite Forall_forall in Hdim. by apply Hdim.
Qed.

Lemma create_faiss_index_run (self : EmbeddingManager.manager) (D : Z)
    (rows : list vec) (w : world) :
  EmbeddingManager.create_faiss_index self (Array2 D rows) w
  = (Return (length (objs w)),
     set_objs (fun h => h ++ [OIndex (mkIndex D rows)]) w).
Proof.
  unfold EmbeddingManager.create_faiss_index. rewrite bind_run, lift_run.
  cbn [shape1]. rewrite bind_run, lift_run.
  unfold faiss.add, new_index. cbn [d xb app]. by rewrite Z.eqb_refl.
Qed.

Lemma default_chunks_writable (w : world) :
  writable (set_dirs (made (dirname default_index_path)) w) default_chunks_path = true.
Proof.
  apply (writable_same_dir _ default_index_path default_chunks_path);
    [done|done|by apply writable_made].
Qed.

Section BuildScript.
Context {F : Float32}.
Variable client : OpenAI.
Variable lib : library.

Lemma main_run (e : str -> vec) (D : Z) (api_key : str) (r : dict) (rs : list dict)
    (w : world) :
  process_all_pdfs lib default_directory 1000 200 = Return (r :: rs) ->
  api_key <> [] ->
  (forall input,
     embed client RAGRetriever.default_embedding_model input = Return (map e input)) ->
  Forall (fun c => len (e (text_of c)) = D) (r :: rs) ->
  exists batches,
    Build.main client lib api_key w
    = (Return Build.Finished,
       mkWorld
         (objs w ++ map ODict (r :: rs)
            ++ [OList (seq (length (objs w)) (length (r :: rs)))]
            ++ [OIndex (mkIndex D (map (fun t => map float32 (e t))
                                       (map text_of (r :: rs))))])
         (<[default_chunks_path := PickleBlob (r :: rs)]>
            (<[default_index_path :=
                 FaissBlob (mkIndex D (map (fun t => map float32 (e t))
                                           (map text_of (r :: rs))))]> (files w)))
         (made (dirname default_index_path) (dirs w))
         (sent w ++ batches)).
Proof.
  intros Hrecords Hkey He Hdim.
  pose proof (process_all_pdfs_inv _ _ _ _ _ Hrecords) as Hinv.
  destruct (new_list_run (r :: rs) w) as [Hnew Hat].
  set (w1 := set_objs _ w) in Hnew, Hat.
  destruct (create_embeddings_batch_map client
              (mkManager RAGRetriever.default_embedding_model) e
              (map text_of (r :: rs)) 100 D w1 ltac:(lia) He) as [batches Hbatch].
  { done. }
  { apply Forall_forall. intros t Ht. apply list_elem_of_fmap in Ht as (c & -> & Hc).
    rewrite Forall_forall in Hdim. by apply Hdim. }
  exists batches. unfold Build.main.
  rewrite bind_run, Hrecords, lift_run, bind_run, Hnew.
  rewrite bind_run. unfold EmbeddingManager.init.
  destruct api_key as [|c key]; [done|]. rewrite mret_run.
  rewrite bind_run, (chunk_texts_run w1 _ (r :: rs) Hat).
  2: { eapply Forall_impl; [exact Hinv|]. by intros ? [_ ?]. }
  rewrite bind_run, Hbatch. rewrite bind_run.
  rewrite create_faiss_index_run.
  rewrite bind_run.
  erewrite (save_index_run _ _ _ _ _ _ _ (r :: rs)).
  - rewrite mret_run. destruct w as [h fs dr log].
    unfold w1, set_objs, set_files, set_dirs.
    cbn [objs files dirs sent length map]. by rewrite <- !app_assoc.
  - unfold index_at, set_objs. cbn [objs]. by apply list_lookup_middle.
  - apply chunks_at_grows.
    destruct Hat as (cs & Hcl & Hcs). by exists cs.
  - done.
  - apply default_chunks_writable.
Qed.

End BuildScript.

Lemma batch_step_keeps (client : OpenAI) (self : EmbeddingManager.manager)
    (texts : list str) (B N : Z) (acc : list vec) (i : Z) (w : world) :
  objs (batch_step client self texts B N acc i w).2 = objs w
  /\ files (batch_step client self texts B N acc i w).2 = files w.
Proof.
  unfold batch_step. rewrite bind_run. unfold embeddings_create.
  destruct (embed client _ _); [|by destruct w].
  rewrite bind_run, lift_run. destruct (floordiv _ N); by destruct w.
Qed.

Lemma batch_steps_keep (client : OpenAI) (self : EmbeddingManager.manager)
    (texts : list str) (B N : Z) (offsets : list Z) :
  forall (acc : list vec) (w : world),
    objs (foldM (batch_step client self texts B N) acc offsets w).2 = objs w
    /\ files (foldM (batch_step client self texts B N) acc offsets w).2 = files w.
Proof.
  induction offsets as [|i offsets IH]; intros acc w; [done|].
  cbn [foldM]. rewrite bind_run.
  pose proof (batch_step_keeps client self texts B N acc i w) as Hstep.
  destruct (batch_step client self texts B N acc i w) as [[acc'|e] w']; [|done].
  destruct (IH acc' w') as [-> ->]. done.
Qed.

(** The embedding requests touch neither the objects nor the files. *)
Lemma create_embeddings_batch_keeps {F : Float32} (client : OpenAI)
    (self : EmbeddingManager.manager) (texts : list str) (B : Z) (w : world) :
  objs (EmbeddingManager.create_embeddings_batch client self texts B w).2 = objs w
  /\ files (EmbeddingManager.create_embeddings_batch client self texts B w).2 = files w.
Proof.
  unfold EmbeddingManager.create_embeddings_batch. rewrite bind_run, lift_run.
  destruct (py_range 0 (len texts) B) as [offsets|e]; [|done].
  rewrite bind_run.
  pose proof (batch_steps_keep client self texts B (len texts) offsets [] w) as Hkeep.
  destruct (foldM _ [] offsets w) as [[embeddings|e] w']; [|done].
  rewrite bind_run, lift_run. by destruct (np_array embeddings).
Qed.

Lemma index_exists_run (self : EmbeddingManager.manager) (ip cp : string)
    (w : world) :
  EmbeddingManager.index_exists self ip cp w
  = (Return (bool_decide (is_Some (files w !! ip))
             && bool_decide (is_Some (files w !! cp))), w).
Proof.
  unfold EmbeddingManager.index_exists. rewrite bind_run. unfold exists_.
  by destruct (bool_decide (is_Some (files w !! ip))).
Qed.

Lemma guarded_return {A} (str_of_exn : exn -> str) (st : Api.app) (m : M A)
    (rest : A -> M Api.app) (w w' : world) (a : A) :
  m w = (Return a, w') -> Api.guarded str_of_exn st m rest w = rest a w'.
Proof. unfold Api.guarded. by intros ->. Qed.

Lemma guarded_raise {A} (str_of_exn : exn -> str) (st : Api.app) (m : M A)
    (rest : A -> M Api.app) (w w' : world) (e : exn) :
  m w = (Raise e, w') ->
  Api.guarded str_of_exn st m rest w
  = (Return (Api.mkApp (Api.retriever st) (Api.embedding_manager st)
                       (Some (Api.startup_failed str_of_exn e))), w').
Proof. unfold Api.guarded. by intros ->. Qed.

Section ApiStartup.
Variable str_of_exn : exn -> str.

Lemma startup_event_run (api_key : str) (st : Api.app) (w : world)
    (index : IndexFlatL2) (C : list dict) :
  api_key <> [] ->
  files w !! default_index_path = Some (FaissBlob index) ->
  files w !! default_chunks_path = Some (PickleBlob C) ->
  let r := (length (objs w) + 1 + length C + 1)%nat in
  let w' := set_objs (fun h => h ++ [OIndex index] ++ map ODict C
                                ++ [OList (seq (length (objs w) + 1) (length C))]
                                ++ [ORetriever (length (objs w))
                                               (length (objs w) + 1 + length C)%nat]) w in
  Api.startup_event str_of_exn api_key st w
  = (Return (Api.mkApp (Some r)
                       (Some (mkManager RAGRetriever.default_embedding_model))
                       (Api.startup_error st)), w')
  /\ retriever_at w' r index C.
Proof.
  intros Hkey Hip Hcp r w'.
  destruct (loaded_shapes w index C) as (Hi & Hc & _).
  set (w1 := set_objs _ w) in Hi, Hc.
  destruct (init_run _ _ api_key w1 index C Hkey Hi Hc) as [Hinit Hat].
  assert (length (objs w1) = r) as Hr.
  { destruct w as [h fs dr log]. unfold w1, r, set_objs. cbn [objs].
    rewrite !length_app, length_map. cbn [length]. lia. }
  assert (set_objs (fun h => h ++ [ORetriever (length (objs w))
                                     (length (objs w) + 1 + length C)%nat]) w1 = w')
    as Hw'.
  { destruct w as [h fs dr log]. unfold w1, w', set_objs. cbn [objs files dirs sent].
    by rewrite <- !app_assoc. }
  rewrite Hr, Hw' in Hinit. rewrite Hr, Hw' in Hat.
  split; [|exact Hat].
  unfold Api.startup_event. destruct api_key as [|c key]; [done|].
  erewrite guarded_return by reflexivity.
  erewrite guarded_return by apply index_exists_run.
  rewrite Hip, Hcp, !bool_decide_eq_true_2 by (by eexists). cbn [andb negb].
  erewrite guarded_return by (by apply load_index_run).
  cbn [fst snd Api.retriever Api.embedding_manager Api.startup_error].
  erewrite guarded_return by exact Hinit.
  destruct Hc as (cs' & Hcl' & _).
  assert (objs w' !! (length (objs w) + 1 + length C)%nat = Some (OList cs')) as Hcl.
  { rewrite <- Hw'. cbn [objs set_objs]. by apply lookup_app_l_Some. }
  erewrite (guarded_return _ _ _ _ _ _ cs'); [reflexivity|].
  unfold read_list. by rewrite Hcl.
Qed.

End ApiStartup.

(** X18.  The build script of embeddings.py, when the extractor returns
    a non-empty list of records, a key is set and the service embeds every
    text into [D] numbers: the script reaches its end, the index file holds
    the index of dimension [D] over the embeddings of the records' texts as
    [float32], in order, the chunk file holds the records, the index has as
    many vectors as there are records, and the objects that were there are
    kept. *)
Theorem main_builds_index {F : Float32} (client : OpenAI) (lib : library)
    (e : str -> vec) (D : Z) (api_key : str) (records : list dict) (w : world) :
  process_all_pdfs lib default_directory 1000 200 = Return records ->
  records <> [] ->
  api_key <> [] ->
  (forall input,
     embed client RAGRetriever.default_embedding_model input = Return (map e input)) ->
  (forall t, len (e t) = D) ->
  let index := mkIndex D (map (fun t => map float32 (e t)) (map text_of records)) in
  exists w',
    Build.main client lib api_key w = (Return Build.Finished, w')
    /\ files w' = <[default_chunks_path := PickleBlob records]>
                    (<[default_index_path := FaissBlob index]> (files w))
    /\ ntotal index = len records
    /\ Forall (fun c => is_chunk c /\ is_Some (get_str c "text")) records
    /\ (forall l o, objs w !! l = Some o -> objs w' !! l = Some o).
Proof.
  intros Hrecords Hne Hkey He HD index.
  destruct records as [|r rs]; [done|].
  destruct (main_run client lib e D api_key r rs w Hrecords Hkey He) as [batches Hrun].
  { apply Forall_forall. intros c _. apply HD. }
  eexists. split; [exact Hrun|]. cbn [files objs].
  split; [done|]. split; [|split].
  - unfold ntotal, index, len. cbn [xb]. by rewrite !length_map.
  - by apply (process_all_pdfs_inv lib default_directory 1000 200).
  - intros l o Hl. by apply lookup_app_l_Some.
Qed.

Lemma main_builds_index_witness :
  exists records w',
    process_all_pdfs Shelf.lib default_directory 1000 200 = Return records
    /\ Build.main (F := Sample.exact) Sample.client Shelf.lib (lit "sk") Sample.built
       = (Return Build.Finished, w')
    /\ files w' = <[default_chunks_path := PickleBlob records]>
                    (<[default_index_path :=
                         FaissBlob (mkIndex 2 (map (fun t => [len t; 0])
                                                   (map text_of records)))]>
                       (files Sample.built))
    /\ len records = 2.
Proof.
  destruct (process_all_pdfs Shelf.lib default_directory 1000 200)
    as [records|e] eqn:Hrecords; [|by vm_compute in Hrecords].
  assert (len records = 2) as Hlen.
  { vm_compute in Hrecords. injection Hrecords as <-. reflexivity. }
  destruct (main_builds_index (F := Sample.exact) Sample.client Shelf.lib
              (fun t => [len t; 0]) 2 (lit "sk") records Sample.built Hrecords)
    as (w' & Hrun & Hfiles & _).
  - intros ->. by vm_compute in Hlen.
  - by vm_compute.
  - reflexivity.
  - reflexivity.
  - exists records, w'. by repeat split.
Defined.

(** X19.  The build script writes its two files at its very end or not at
    all, whatever the documents, the key and the embedding service are:
    either it reaches its end, and then the extractor had returned records
    and the chunk file holds them beside an index file, or it stops (by
    [exit(1)] when there is no chunk, or by an exception) and the files
    are those of before. *)
Theorem main_all_or_nothing {F : Float32} (client : OpenAI) (lib : library)
    (api_key : str) (w : world) :
  (exists records index,
     process_all_pdfs lib default_directory 1000 200 = Return records
     /\ records <> []
     /\ (Build.main client lib api_key w).1 = Return Build.Finished
     /\ files (Build.main client lib api_key w).2
        = <[default_chunks_path := PickleBlob records]>
            (<[default_index_path := FaissBlob index]> (files w)))
  \/ ((Build.main client lib api_key w).1 <> Return Build.Finished
      /\ files (Build.main client lib api_key w).2 = files w
      /\ ((Build.main client lib api_key w).1 = Return (Build.Exited 1)
          <-> process_all_pdfs lib default_directory 1000 200 = Return [])).
Proof.
  unfold Build.main.
  destruct (process_all_pdfs lib default_directory 1000 200)
    as [records|e0] eqn:Hrecords.
  2: { right. rewrite bind_run, lift_run. cbn [fst snd]. by repeat split. }
  pose proof (process_all_pdfs_inv _ _ _ _ _ Hrecords) as Hinv.
  destruct (new_list_run records w) as [Hnew Hat].
  set (w1 := set_objs _ w) in Hnew, Hat.
  rewrite bind_run, lift_run, bind_run, Hnew.
  destruct records as [|r rs].
  { right. rewrite mret_run. cbn [fst snd]. by repeat split. }
  rewrite bind_run. unfold EmbeddingManager.init.
  destruct api_key as [|c key].
  { right. cbn [fst snd]. by repeat split. }
  rewrite mret_run, bind_run, (chunk_texts_run w1 _ (r :: rs) Hat).
  2: { eapply Forall_impl; [exact Hinv|]. by intros ? [_ ?]. }
  rewrite bind_run.
  destruct (create_embeddings_batch_keeps client
              (mkManager RAGRetriever.default_embedding_model)
              (map text_of (r :: rs)) 100 w1) as [Hobjs Hfiles].
  destruct (EmbeddingManager.create_embeddings_batch client _ _ 100 w1)
    as [[embeddings|e1] w2].
  2: { right. cbn [fst snd] in *. by repeat split. }
  cbn [fst snd] in Hobjs, Hfiles.
  rewrite bind_run. unfold EmbeddingManager.create_faiss_index.
  rewrite bind_run, lift_run.
  destruct (shape1 embeddings) as [dimension|e2].
  2: { right. cbn [fst snd]. by repeat split. }
  rewrite bind_run, lift_run.
  destruct (add (new_index dimension) embeddings) as [index|e3].
  2: { right. cbn [fst snd]. by repeat split. }
  unfold alloc. rewrite bind_run.
  erewrite (save_index_run _ _ _ _ _ _ index (r :: rs)).
  - left. exists (r :: rs), index. rewrite mret_run. cbn [fst snd].
    repeat split; [done|]. destruct w2.
    cbn [set_files set_objs set_dirs files objs] in *.
    by rewrite Hfiles.
  - unfold index_at, set_objs. cbn [objs]. by apply list_lookup_middle.
  - apply chunks_at_grows. destruct Hat as (cs & Hcl & Hcs). exists cs.
    rewrite Hobjs. by split.
  - done.
  - apply default_chunks_writable.
Qed.

(** ** The start of the API *)

(** Two files that are there but are not an index and a pickled list. *)
Lemma load_index_other (self : EmbeddingManager.manager) (ip cp : string)
    (bi bc : blob) (w : world) :
  files w !! ip = Some bi -> files w !! cp = Some bc ->
  (forall index C, bi = FaissBlob index -> bc = PickleBlob C -> False) ->
  exists e w',
    EmbeddingManager.load_index self ip cp w = (Raise e, w')
    /\ files w' = files w /\ sent w' = sent w
    /\ (forall l o, objs w !! l = Some o -> objs w' !! l = Some o).
Proof.
  intros Hip Hcp Hother. unfold EmbeddingManager.load_index.
  rewrite bind_run. unfold read_index. rewrite Hip.
  destruct bi as [|index|C0]; [by exists RuntimeError, w| |by exists RuntimeError, w].
  unfold alloc at 1. destruct w as [h fs dr log]. unfold set_objs.
  cbn [objs files dirs sent] in *.
  rewrite bind_run. unfold read_index_object. cbn [objs].
  rewrite list_lookup_middle by done.
  rewrite bind_run. unfold open_rb. cbn [files]. rewrite Hcp.
  rewrite bind_run. unfold pickle_load.
  destruct bc as [|index'|C].
  - eexists _, _. split; [reflexivity|]. cbn [objs files dirs sent].
    repeat split. intros l o Hl. by apply lookup_app_l_Some.
  - eexists _, _. split; [reflexivity|]. cbn [objs files dirs sent].
    repeat split. intros l o Hl. by apply lookup_app_l_Some.
  - by destruct (Hother index C).
Qed.

Lemma blobs_loadable (bi bc : blob) :
  (exists index C, bi = FaissBlob index /\ bc = PickleBlob C)
  \/ (forall index C, bi = FaissBlob index -> bc = PickleBlob C -> False).
Proof.
  destruct bi as [|index|C0]; [by right| |by right].
  destruct bc as [|index'|C]; [by right|by right|].
  left. by exists index, C.
Qed.

Lemma startup_failed_nonempty (str_of_exn : exn -> str) (e : exn) :
  exists c message, Api.startup_failed str_of_exn e = c :: message.
Proof. unfold Api.startup_failed. eexists _, _. reflexivity. Qed.

Lemma health_check_warning (st : Api.app) (c : char) (message : str) :
  Api.startup_error st = Some (c :: message) ->
  Api.health_check st = (lit "warning", c :: message, false).
Proof. unfold Api.health_check. by intros ->. Qed.

(** X20.  The start of the API with a key and with the two files holding an
    index and a list of records: the startup returns, the retriever is set
    to a new object over that index and those records, the manager is set,
    the error text is left as it was, files and requests are untouched, and
    from a state without error text [health_check] then answers ok with
    the index loaded. *)
Theorem startup_event_loads (str_of_exn : exn -> str) (api_key : str)
    (st : Api.app) (w : world) (index : IndexFlatL2) (C : list dict) :
  api_key <> [] ->
  files w !! default_index_path = Some (FaissBlob index) ->
  files w !! default_chunks_path = Some (PickleBlob C) ->
  exists r w',
    Api.startup_event str_of_exn api_key st w
    = (Return (Api.mkApp (Some r)
                         (Some (mkManager RAGRetriever.default_embedding_model))
                         (Api.startup_error st)), w')
    /\ retriever_at w' r index C
    /\ objs w !! r = None
    /\ files w' = files w /\ sent w' = sent w
    /\ (forall l o, objs w !! l = Some o -> objs w' !! l = Some o)
    /\ (Api.startup_error st = None ->
        Api.health_check (Api.mkApp (Some r)
                            (Some (mkManager RAGRetriever.default_embedding_model))
                            (Api.startup_error st))
        = (lit "ok", lit "API op" ++ RAGRetriever.e_acute ++ lit "rationnelle", true)).
Proof.
  intros Hkey Hip Hcp.
  destruct (startup_event_run str_of_exn api_key st w index C Hkey Hip Hcp)
    as [Hrun Hat].
  eexists _, _. split; [exact Hrun|]. split; [exact Hat|].
  split; [|split; [|split; [|split]]].
  - apply lookup_ge_None. lia.
  - done.
  - done.
  - intros l o Hl. cbn [objs set_objs]. by apply lookup_app_l_Some.
  - intros Hnone. unfold Api.health_check.
    cbn [Api.startup_error Api.retriever]. by rewrite Hnone.
Qed.

Lemma startup_event_loads_witness :
  exists r w',
    Api.startup_event (fun _ => lit "erreur") (lit "sk") Api.blank Sample.mismatched
    = (Return (Api.mkApp (Some r)
                         (Some (mkManager RAGRetriever.default_embedding_model))
                         None), w')
    /\ retriever_at w' r Sample.index [Sample.chunk 0 "a.pdf"].
Proof.
  destruct (startup_event_loads (fun _ => lit "erreur") (lit "sk") Api.blank
              Sample.mismatched Sample.index [Sample.chunk 0 "a.pdf"])
    as (r & w' & Hrun & Hat & _).
  - by vm_compute.
  - reflexivity.
  - reflexivity.
  - exists r, w'. split; [exact Hrun|exact Hat].
Defined.

(** X21.  The startup of the API never raises and never writes a file or
    sends a request, whatever the key, the globals and the files are.
    Either it sets the retriever to a new retriever object and leaves the
    error text alone, which needs a key and both files; or it leaves the
    retriever as it was and sets a non-empty error text, after which
    [health_check] answers with the warning status, that text and no index
    loaded, even if a retriever had been set before.  Without a key the text
    is that of [ValueError]; with a key and a file missing it is the fixed
    text about the missing index. *)
Theorem startup_event_never_raises (str_of_exn : exn -> str) (api_key : str)
    (st : Api.app) (w : world) :
  exists st' w',
    Api.startup_event str_of_exn api_key st w = (Return st', w')
    /\ files w' = files w /\ sent w' = sent w
    /\ (forall l o, objs w !! l = Some o -> objs w' !! l = Some o)
    /\ ((exists r il cl,
           Api.retriever st' = Some r
           /\ objs w !! r = None
           /\ objs w' !! r = Some (ORetriever il cl)
           /\ Api.startup_error st' = Api.startup_error st
           /\ api_key <> []
           /\ is_Some (files w !! default_index_path)
           /\ is_Some (files w !! default_chunks_path))
        \/ (Api.retriever st' = Api.retriever st
            /\ (exists c message,
                  Api.startup_error st' = Some (c :: message)
                  /\ Api.health_check st' = (lit "warning", c :: message, false))
            /\ (api_key = [] ->
                Api.startup_error st' = Some (Api.startup_failed str_of_exn ValueError)
                /\ w' = w)
            /\ (api_key <> [] ->
                files w !! default_index_path = None
                \/ files w !! default_chunks_path = None ->
                Api.startup_error st' = Some Api.index_missing /\ w' = w))).
Proof.
  destruct api_key as [|c key].
  { eexists _, w. split; [reflexivity|]. repeat split; [done|].
    right. cbn [Api.retriever Api.startup_error]. split; [done|].
    split; [|split; [done|done]].
    destruct (startup_failed_nonempty str_of_exn ValueError) as (c & m & Hm).
    exists c, m. split; [by rewrite Hm|].
    apply health_check_warning. cbn [Api.startup_error]. by rewrite Hm. }
  destruct (files w !! default_index_path) as [bi|] eqn:Hip;
    [destruct (files w !! default_chunks_path) as [bc|] eqn:Hcp|].
  - destruct (blobs_loadable bi bc) as [(index & C & -> & ->)|Hother].
    + destruct (startup_event_run str_of_exn (c :: key) st w index C) as [Hrun Hat];
        [done..|].
      eexists _, _. split; [exact Hrun|]. repeat split.
      { intros l o Hl. cbn [objs set_objs]. by apply lookup_app_l_Some. }
      left. destruct Hat as (il & cl & Hself & _).
      eexists _, il, cl. cbn [Api.retriever Api.startup_error].
      repeat split; [|exact Hself|done|by eexists|by eexists].
      apply lookup_ge_None. lia.
    + destruct (load_index_other (mkManager RAGRetriever.default_embedding_model)
                  _ _ bi bc w Hip Hcp Hother) as (e & w' & Hload & Hf & Hs & Ho).
      eexists _, w'. split.
      { unfold Api.startup_event.
        erewrite guarded_return by reflexivity.
        erewrite guarded_return by apply index_exists_run.
        rewrite Hip, Hcp, !bool_decide_eq_true_2 by (by eexists). cbn [andb negb].
        erewrite guarded_raise by exact Hload. reflexivity. }
      repeat split; [done..|]. right.
      cbn [Api.retriever Api.startup_error Api.embedding_manager].
      split; [done|]. split; [|split].
      * destruct (startup_failed_nonempty str_of_exn e) as (c0 & m & Hm).
        exists c0, m. split; [by rewrite Hm|].
        apply health_check_warning. cbn [Api.startup_error]. by rewrite Hm.
      * done.
      * intros _ [?|?]; done.
  - eexists _, w. split.
    { unfold Api.startup_event.
      erewrite guarded_return by reflexivity.
      erewrite guarded_return by apply index_exists_run.
      rewrite Hip, Hcp, bool_decide_eq_true_2 by (by eexists).
      rewrite bool_decide_eq_false_2 by (by intros [? ?]).
      cbn [andb negb]. reflexivity. }
    repeat split; [done|]. right.
    cbn [Api.retriever Api.startup_error Api.embedding_manager].
    split; [done|]. split; [|split; [done|]].
    + eexists _, _. split; [reflexivity|]. by apply health_check_warning.
    + done.
  - eexists _, w. split.
    { unfold Api.startup_event.
      erewrite guarded_return by reflexivity.
      erewrite guarded_return by apply index_exists_run.
      rewrite Hip, bool_decide_eq_false_2 by (by intros [? ?]).
      cbn [andb negb]. reflexivity. }
    repeat split; [done|]. right.
    cbn [Api.retriever Api.startup_error Api.embedding_manager].
    split; [done|]. split; [|split; [done|]].
    + eexists _, _. split; [reflexivity|]. by apply health_check_warning.
    + done.
Qed.

(** X22.  The build script followed by the start of the API, under the
    conditions of a finished build: the API starts with a retriever over
    exactly the records that the extractor returned and the index of the
    embeddings of their texts, and [health_check] answers ok. *)
Theorem build_then_startup {F : Float32} (str_of_exn : exn -> str)
    (client : OpenAI) (lib : library) (e : str -> vec) (D : Z) (api_key : str)
    (records : list dict) (w : world) :
  process_all_pdfs lib default_directory 1000 200 = Return records ->
  records <> [] ->
  api_key <> [] ->
  (forall input,
     embed client RAGRetriever.default_embedding_model input = Return (map e input)) ->
  (forall t, len (e t) = D) ->
  exists w1 st w2 r,
    Build.main client lib api_key w = (Return Build.Finished, w1)
    /\ Api.startup_event str_of_exn api_key Api.blank w1 = (Return st, w2)
    /\ Api.retriever st = Some r
    /\ retriever_at w2 r
         (mkIndex D (map (fun t => map float32 (e t)) (map text_of records))) records
    /\ Api.health_check st
       = (lit "ok", lit "API op" ++ RAGRetriever.e_acute ++ lit "rationnelle", true).
Proof.
  intros Hrecords Hne Hkey He HD.
  destruct records as [|r0 rs]; [done|].
  destruct (main_run client lib e D api_key r0 rs w Hrecords Hkey He) as [batches Hrun].
  { apply Forall_forall. intros c _. apply HD. }
  set (w1 := mkWorld _ _ _ _) in Hrun.
  destruct (startup_event_run str_of_exn api_key Api.blank w1
              (mkIndex D (map (fun t => map float32 (e t)) (map text_of (r0 :: rs))))
              (r0 :: rs) Hkey)
    as [Hstart Hat].
  { unfold w1. cbn [files]. rewrite lookup_insert_ne by done.
    by rewrite lookup_insert_eq. }
  { unfold w1. cbn [files]. by rewrite lookup_insert_eq. }
  eexists w1, _, _, _. split; [exact Hrun|]. split; [exact Hstart|].
  split; [reflexivity|]. split; [exact Hat|]. reflexivity.
Qed.

Lemma build_then_startup_witness :
  exists records w1 st w2 r,
    process_all_pdfs Shelf.lib default_directory 1000 200 = Return records
    /\ Build.main (F := Sample.exact) Sample.client Shelf.lib (lit "sk") Sample.built
       = (Return Build.Finished, w1)
    /\ Api.startup_event (fun _ => lit "erreur") (lit "sk") Api.blank w1
       = (Return st, w2)
    /\ Api.retriever st = Some r
    /\ retriever_at w2 r
         (mkIndex 2 (map (fun t => [len t; 0]) (map text_of records))) records.
Proof.
  destruct (process_all_pdfs Shelf.lib default_directory 1000 200)
    as [records|e] eqn:Hrecords; [|by vm_compute in Hrecords].
  assert (len records = 2) as Hlen.
  { vm_compute in Hrecords. injection Hrecords as <-. reflexivity. }
  destruct (build_then_startup (F := Sample.exact) (fun _ => lit "erreur")
              Sample.client Shelf.lib
              (fun t => [len t; 0]) 2 (lit "sk") records Sample.built Hrecords)
    as (w1 & st & w2 & r & Hrun & Hstart & Hr & Hat & _).
  - intros ->. by vm_compute in Hlen.
  - by vm_compute.
  - reflexivity.
  - reflexivity.
  - exists records, w1, st, w2, r. by repeat split.
Defined.

(** ** Floats at their limits *)

Lemma np_array_ragged (rows : list vec) (r1 r2 : vec) :
  r1 ∈ rows -> r2 ∈ rows -> len r1 <> len r2 -> np_array rows = Raise ValueError.
Proof.
  intros H1 H2 Hne. destruct rows as [|row rows]; [by apply elem_of_nil in H1|].
  unfold np_array. destruct (forallb _ (row :: rows)) eqn:E; [|done].
  rewrite forallb_forall in E.
  apply list_elem_of_In, E, Z.eqb_eq in H1. apply list_elem_of_In, E, Z.eqb_eq in H2.
  lia.
Qed.

(** X23.  When the service answers every request, but two of the texts get
    vectors of different lengths, [create_embeddings_batch] sends all its
    requests and then raises [ValueError], from [np.array] on lists of
    unequal lengths: it returns no array. *)
Theorem create_embeddings_batch_ragged {F : Float32} (client : OpenAI)
    (self : EmbeddingManager.manager) (e : str -> vec) (texts : list str)
    (B : Z) (t1 t2 : str) (w : world) :
  0 < B ->
  (forall input, embed client (EmbeddingManager.model self) input = Return (map e input)) ->
  t1 ∈ texts -> t2 ∈ texts -> len (e t1) <> len (e t2) ->
  exists batches,
    concat batches = texts
    /\ EmbeddingManager.create_embeddings_batch client self texts B w
       = (Raise ValueError, mkWorld (objs w) (files w) (dirs w) (sent w ++ batches)).
Proof.
  intros HB He H1 H2 Hne.
  destruct (create_embeddings_batch_pointwise client self e texts B w HB He)
    as (batches & Hcat & Hrun).
  exists batches. split; [exact Hcat|].
  by rewrite Hrun, (np_array_ragged _ (e t1) (e t2)) by (by apply list_elem_of_fmap_2 || done).
Qed.

Lemma create_embeddings_batch_ragged_witness :
  exists batches,
    concat batches = [lit "a"; lit "bb"; lit "c"]
    /\ EmbeddingManager.create_embeddings_batch (F := Sample.exact)
         (mkClient (fun _ input => Return (map (map (fun _ => 0)) input))
                   (fun _ _ _ _ => Raise RuntimeError))
         Sample.manager [lit "a"; lit "bb"; lit "c"] 2 Sample.built
       = (Raise ValueError,
          mkWorld (objs Sample.built) (files Sample.built) (dirs Sample.built)
                  (sent Sample.built ++ batches)).
Proof.
  apply (create_embeddings_batch_ragged (F := Sample.exact) _ Sample.manager
           (map (fun _ => 0)) [lit "a"; lit "bb"; lit "c"] 2 (lit "a") (lit "bb")
           Sample.built).
  - lia.
  - reflexivity.
  - by left.
  - by right; left.
  - vm_compute. discriminate.
Defined.

Section Overflow.
Context {F : Float32}.

Lemma scan_length_lt (rows : list vec) (x : vec) (row : nat) (y : vec) :
  rows !! row = Some y -> FLT_MAX <= fvec_L2sqr x y ->
  (length (scan rows x) < length rows)%nat.
Proof.
  intros Hy Hbig. rewrite scan_perm.
  eapply Nat.lt_le_trans;
    [|apply Nat.eq_le_incl,
        (length_imap (fun (i : nat) y => (Z.of_nat i, fvec_L2sqr x y)) rows)].
  apply (length_filter_lt _ _ (Z.of_nat row, fvec_L2sqr x y)).
  - apply (list_elem_of_lookup_2 _ row). by rewrite list_lookup_imap, Hy.
  - cbn [snd]. lia.
Qed.

(** A slot that no hit takes holds label [-1]. *)
Lemma knn_pad (rows : list vec) (x : vec) (k i : nat) :
  (length (scan rows x) <= i < k)%nat -> knn rows x k !! i = Some (-1, FLT_MAX).
Proof.
  intros Hi. unfold knn. cbv zeta. unfold hit in *.
  rewrite lookup_app_r; rewrite !length_take; [|lia].
  apply lookup_replicate_2. lia.
Qed.

(** X24.  A stored row whose distance to the query, as the index library
    computes it, is not below [FLT_MAX] (the squares overflow [float32])
    takes no slot of the answer.  So a search for as many results as there
    are stored vectors still returns that many records, but the last one is
    a copy of the last chunk, with distance [FLT_MAX], whichever row
    overflowed. *)
Theorem search_overflow_repeats_last_chunk (client : OpenAI) (w : world) (self : loc)
    (index : IndexFlatL2) (C : list dict) (query : str)
    (embedding : vec) (rest : list vec) (row : nat) (x : vec) (last_chunk : dict) :
  retriever_at w self index C ->
  len C = ntotal index ->
  Forall is_chunk C ->
  embed client default_embedding_model [query] = Return (embedding :: rest) ->
  len embedding = d index ->
  xb index !! row = Some x ->
  FLT_MAX <= fvec_L2sqr (map float32 embedding) x ->
  last C = Some last_chunk ->
  exists ls w' l,
    RAGRetriever.search client self query (ntotal index) w = (Return ls, w')
    /\ len ls = ntotal index
    /\ last ls = Some l
    /\ objs w' !! l = Some (ODict (scored last_chunk FLT_MAX (ntotal index))).
Proof.
  intros Hwf Hal Hchunks Hemb Hdim Hx Hbig Hlast.
  set (k := ntotal index).
  assert (0 < k) as Hk.
  { unfold k, ntotal, len. apply lookup_lt_Some in Hx. lia. }
  destruct (search_run client w self index C query k Hwf) as (new & Hrun & Hnew & _).
  pose proof (search_results_slots client index C query embedding rest
                Hal Hchunks Hemb Hdim k Hk Hk) as Hres.
  set (hits := knn (xb index) (map float32 embedding) (Z.to_nat k)) in *.
  set (g := fun (i : nat) (h : hit) => scored (stored_at C h.1) h.2 (Z.of_nat i + 1)) in *.
  rewrite Hres in Hrun. rewrite (Hnew _ Hres) in Hrun. clear Hnew new.
  assert (length hits = Z.to_nat k) as Hlen by apply knn_length.
  assert (hits !! pred (Z.to_nat k) = Some (-1, FLT_MAX)) as Hpad.
  { apply knn_pad.
    pose proof (scan_length_lt (xb index) (map float32 embedding) row x Hx Hbig).
    unfold k, ntotal, len in *. lia. }
  eexists _, _, (length (objs w) + pred (Z.to_nat k))%nat.
  split; [exact Hrun|]. split; [|split].
  - unfold len. rewrite length_seq, length_imap, Hlen. lia.
  - rewrite last_lookup, length_seq, length_imap, Hlen.
    apply lookup_seq. split; [done|lia].
  - cbn [objs]. rewrite lookup_app_r by lia.
    replace (length (objs w) + pred (Z.to_nat k) - length (objs w))%nat
      with (pred (Z.to_nat k)) by lia.
    rewrite list_lookup_fmap, list_lookup_imap. unfold hit in *. rewrite Hpad. cbn.
    unfold g. cbn [fst snd]. rewrite (stored_at_last C last_chunk Hlast).
    do 3 f_equal. lia.
Qed.

End Overflow.

Lemma search_overflow_repeats_last_chunk_witness :
  exists ls w' l,
    RAGRetriever.search (F := Sample.exact) Sample.client 4%nat (lit "ab") 2
      (mkWorld [ODict (Sample.chunk 0 "a.pdf"); ODict (Sample.chunk 1 "b.pdf");
                OList [0%nat; 1%nat]; OIndex (mkIndex 2 [[2 ^ 70; 0]; [5; 0]]);
                ORetriever 3%nat 2%nat] ∅ ∅ [])
    = (Return ls, w')
    /\ last ls = Some l
    /\ objs w' !! l = Some (ODict (scored (Sample.chunk 1 "b.pdf") FLT_MAX 2)).
Proof.
  destruct (search_overflow_repeats_last_chunk (F := Sample.exact) Sample.client
              (mkWorld [ODict (Sample.chunk 0 "a.pdf"); ODict (Sample.chunk 1 "b.pdf");
                        OList [0%nat; 1%nat]; OIndex (mkIndex 2 [[2 ^ 70; 0]; [5; 0]]);
                        ORetriever 3%nat 2%nat] ∅ ∅ [])
              4%nat (mkIndex 2 [[2 ^ 70; 0]; [5; 0]]) Sample.C (lit "ab")
              [2; 0] [] 0%nat [2 ^ 70; 0] (Sample.chunk 1 "b.pdf"))
    as (ls & w' & l & Hrun & _ & Hl & Hobj).
  - exists 3%nat, 2%nat. split; [reflexivity|]. split; [reflexivity|].
    exists [0%nat; 1%nat]. split; [reflexivity|]. repeat constructor.
  - reflexivity.
  - repeat constructor; by eexists.
  - reflexivity.
  - reflexivity.
  - reflexivity.
  - vm_compute. discriminate.
  - reflexivity.
  - exists ls, w', l. split; [exact Hrun|]. split; [exact Hl|exact Hobj].
Defined.
